(** * binary.js: stream multiplexing over a message transport

    A shallow embedding of [dist/binary.js] (build 0.0.2): the chunked
    producer [BlobReadStream], the per-stream state machine [BinaryStream]
    and the multiplexer [BinaryClient], followed by the properties of each.

    JavaScript numbers that hold sizes, offsets and identifiers are modelled
    as [Z]: they are integers, and exact as long as they stay below 2^53 in
    absolute value.  Where the code can take a number past that (the
    identifier counter) or prints one, the definition concerned says what
    it covers.  Objects that are shared by reference live in an explicit
    store. *)

From stdpp Require Import gmap strings list fin_maps pretty.
From Stdlib Require Import ZArith Lia Strings.Byte.

Local Open Scope Z_scope.

(** ** The chunked producer: [BlobReadStream] *)

Module BlobReadStream.

(** The byte source is a File API [Blob]: that is what [send] hands the
    constructor.  [size] is the one query of it that answers.  The other
    is written
    [(source.slice || source.webkitSlice || source.mozSlice)(start, end)]:
    it takes the method off the blob and calls it with no receiver.  A
    blob's [slice] is a method of the platform that checks its receiver
    before anything else, so the call throws a [TypeError] whatever its
    bounds are, and no chunk is ever cut. *)
Definition Blob := list byte.

Definition size (b : Blob) : Z := Z.of_nat (length b).

(** The [options] argument of the constructor; an absent key is [None]. *)
Record Options := {
  chunkSize : option Z;
  readDelay : option Z;
  opt_paused : option bool
}.

(** The fields of a [BlobReadStream] object.  [scheduled] counts the
    [emitReadChunk] callbacks that [_read] has handed to [setTimeout] or
    [util.setZeroTimeout] and that have neither run nor been cancelled.
    [cleared] tells that [clearTimeout] has been called on the timer
    [_timeoutId] names since [_read] last set it. *)
Record t := {
  _source : Blob;
  _start : Z;
  _readChunkSize : Z;
  _readDelay : Z;
  readable : bool;
  paused : bool;
  scheduled : nat;
  cleared : bool
}.

Definition set_readable (x : bool) (s : t) : t :=
  {| _source := _source s; _start := _start s; _readChunkSize := _readChunkSize s;
     _readDelay := _readDelay s; readable := x; paused := paused s;
     scheduled := scheduled s; cleared := cleared s |}.

Definition set_paused (x : bool) (s : t) : t :=
  {| _source := _source s; _start := _start s; _readChunkSize := _readChunkSize s;
     _readDelay := _readDelay s; readable := readable s; paused := x;
     scheduled := scheduled s; cleared := cleared s |}.

Definition set_scheduled (x : nat) (s : t) : t :=
  {| _source := _source s; _start := _start s; _readChunkSize := _readChunkSize s;
     _readDelay := _readDelay s; readable := readable s; paused := paused s;
     scheduled := x; cleared := cleared s |}.

Definition set_cleared (x : bool) (s : t) : t :=
  {| _source := _source s; _start := _start s; _readChunkSize := _readChunkSize s;
     _readDelay := _readDelay s; readable := readable s; paused := paused s;
     scheduled := scheduled s; cleared := x |}.

(** What a callback of the producer lets out: an event for the listeners
    ([data] with a chunk, or [end]), or the [TypeError] of the call
    [slice(start, end)], which nothing catches and which ends the
    callback. *)
Inductive Notification :=
| Data (chunk : Blob)
| End
| TypeError (start end_ : Z).

(** [a || b] on an optional number: [undefined] and [0] are falsy. *)
Definition or_default (a : option Z) (b : Z) : Z :=
  match a with
  | Some x => if x =? 0 then b else x
  | None => b
  end.

(** [_read]: queue one [emitReadChunk] callback.  With a [readDelay] that
    is not 0 it goes to [setTimeout], and [_timeoutId] names the new timer;
    otherwise it goes to [util.setZeroTimeout], which returns nothing, and
    [_timeoutId] is [undefined]. *)
Definition _read (s : t) : t :=
  let s := set_scheduled (S (scheduled s)) s in
  if _readDelay s =? 0 then s else set_cleared false s.

(** The constructor. *)
Definition new (source : Blob) (options : Options) : t :=
  _read {| _source := source;
           _start := 0;
           _readChunkSize := or_default (chunkSize options) (size source);
           _readDelay := default 0 (readDelay options);
           readable := true;
           paused := default false (opt_paused options);
           scheduled := 0;
           cleared := false |}.

Definition pause (s : t) : t := set_paused true s.

Definition resume (s : t) : t := _read (set_paused false s).

(** [destroy]: [clearTimeout(this._timeoutId)] cancels the timer that
    [_timeoutId] names, if that timer is still pending.  The timer is the
    callback queued last, and the callbacks of one producer run in the
    order they were queued, so it is pending exactly when some callback is
    and no [clearTimeout] has reached it yet.  With a [readDelay] of 0
    there is no timer to name and nothing is cancelled. *)
Definition destroy (s : t) : t :=
  let s := set_readable false s in
  if _readDelay s =? 0 then s
  else if cleared s then s
  else
    match scheduled s with
    | O => set_cleared true s
    | S n => set_cleared true (set_scheduled n s)
    end.

(** [_emitReadChunk], the body of the queued callback.  The [end] branch
    emits as its last statement, so whatever a listener does there acts on
    the state returned here.  In the other branch the slice call throws:
    the cursor is not moved, [_read] is not called, no [data] is emitted. *)
Definition _emitReadChunk (s : t) : t * list Notification :=
  if paused s || negb (readable s) then (s, [])
  else
    let chunkSize := Z.min (size (_source s) - _start s) (_readChunkSize s) in
    if chunkSize =? 0 then (set_readable false s, [End])
    else
      let sourceEnd := _start s + chunkSize in
      (s, [TypeError (_start s) sourceEnd]).

(** What can happen to a producer: the scheduler runs one queued callback,
    or the application (possibly from inside a listener) calls a method. *)
Inductive Event :=
| Tick
| CallPause
| CallResume
| CallDestroy.

Definition step (e : Event) (s : t) : t * list Notification :=
  match e with
  | Tick =>
      match scheduled s with
      | O => (s, [])
      | S n => _emitReadChunk (set_scheduled n s)
      end
  | CallPause => (pause s, [])
  | CallResume => (resume s, [])
  | CallDestroy => (destroy s, [])
  end.

Fixpoint run (es : list Event) (s : t) : t * list Notification :=
  match es with
  | [] => (s, [])
  | e :: es =>
      let '(s1, out1) := step e s in
      let '(s2, out2) := run es s1 in
      (s2, out1 ++ out2)
  end.

(** The chunks of a run, in emission order, and the number of [End]s. *)
Definition chunks (out : list Notification) : list Blob :=
  omap (fun n => match n with Data c => Some c | _ => None end) out.

Definition ends (out : list Notification) : nat :=
  length (omap (fun n => match n with End => Some tt | _ => None end) out).

(** The number [_emitReadChunk] tests against 0: the bytes left after the
    cursor, capped by the chunk size. *)
Definition pending (s : t) : Z :=
  Z.min (size (_source s) - _start s) (_readChunkSize s).

(** A producer that is readable and not paused has a callback queued. *)
Definition sched_inv (s : t) : Prop :=
  readable s = true -> paused s = false -> (0 < scheduled s)%nat.

End BlobReadStream.

(** ** Streams and the multiplexer: [BinaryStream] and [BinaryClient] *)

(** Values that travel in messages and event arguments. *)
Inductive Value :=
| VUndefined
| VNull
| VBool (b : bool)
| VNum (n : Z)
| VStr (s : string)
| VBytes (b : list byte).

(** [v !== false] *)
Definition strict_ne_false (v : Value) : bool :=
  match v with
  | VBool false => false
  | _ => true
  end.

(** The array [[type, payload, bonus]] that [util.pack] serialises and
    [util.unpack] gives back; the codec is taken to be lossless.  Stream
    identifiers are integers; the keys of the [_streams] object are their
    decimal spellings, which are in bijection with them. *)
Record Message := {
  kind : Z;
  payload : Value;
  bonus : Z
}.

(** A reference to a [BinaryStream] object: its index in the store. *)
Definition loc := nat.

Record BinaryStream := {
  id : Z;
  readable : bool;
  writable : bool;
  paused : bool
}.

Definition set_readable (x : bool) (s : BinaryStream) : BinaryStream :=
  {| id := id s; readable := x; writable := writable s; paused := paused s |}.

Definition set_writable (x : bool) (s : BinaryStream) : BinaryStream :=
  {| id := id s; readable := readable s; writable := x; paused := paused s |}.

Definition set_paused (x : bool) (s : BinaryStream) : BinaryStream :=
  {| id := id s; readable := readable s; writable := writable s; paused := x |}.

(** The transport, as far as this code looks at it: what [send] returns (it
    is taken not to throw). *)
Record Socket := {
  send_returns : Message -> Value
}.

(** One [BinaryClient] with the [BinaryStream] objects built on its socket.
    [heap] holds every stream object ever constructed, in construction
    order (each one adds its own [error] and [close] listeners to the
    socket and never removes them); [_streams] is the registry. *)
Record World := {
  heap : list BinaryStream;
  _streams : gmap Z loc;
  _nextId : Z;
  _socket : Socket
}.

Definition set_heap (h : list BinaryStream) (w : World) : World :=
  {| heap := h; _streams := _streams w; _nextId := _nextId w; _socket := _socket w |}.

Definition set_streams (r : gmap Z loc) (w : World) : World :=
  {| heap := heap w; _streams := r; _nextId := _nextId w; _socket := _socket w |}.

Definition set_nextId (n : Z) (w : World) : World :=
  {| heap := heap w; _streams := _streams w; _nextId := n; _socket := _socket w |}.

(** Who emits an event, and with what arguments. *)
Inductive Emitter :=
| Client
| Stream (l : loc).

Inductive Arg :=
| AValue (v : Value)
| AStream (l : loc).

Record Emission := {
  emitter : Emitter;
  type : string;
  args : list Arg
}.

(** What an operation does that can be seen from outside: events emitted,
    messages handed to [socket.send], [socket.close] calls, and values an
    application listener chose to record. *)
Inductive Effect :=
| Emit (e : Emission)
| Send (m : Message)
| CloseSocket (code message : Value)
| Note (v : Value).

(** Computations: they read and update the world, append to the trace of
    effects, and either return or throw.  What was done before a [throw]
    stays done. *)
Inductive Outcome (A : Type) :=
| Return (a : A)
| Throw (err : string).
Arguments Return {A} a.
Arguments Throw {A} err.

Definition M (A : Type) : Type := World -> Outcome A * World * list Effect.

Definition ret {A} (a : A) : M A := fun w => (Return a, w, []).

Definition bind {A B} (m : M A) (k : A -> M B) : M B :=
  fun w =>
    match m w with
    | (Return a, w1, t1) =>
        match k a w1 with
        | (o, w2, t2) => (o, w2, t1 ++ t2)
        end
    | (Throw err, w1, t1) => (Throw err, w1, t1)
    end.

Definition throw {A} (err : string) : M A := fun w => (Throw err, w, []).

Definition tell (t : list Effect) : M unit := fun w => (Return tt, w, t).

Definition get_world : M World := fun w => (Return w, w, []).

Definition modify_world (f : World -> World) : M unit := fun w => (Return tt, f w, []).

Global Instance M_ret : MRet M := @ret.
Global Instance M_bind : MBind M := fun A B k m => bind m k.

(** Reading and writing a property of the object behind a reference;
    a reference that denotes no object raises a [TypeError]. *)
Definition get {A} (f : BinaryStream -> A) (l : loc) : M A :=
  w ← get_world;
  match heap w !! l with
  | Some s => ret (f s)
  | None => throw "TypeError"
  end.

Definition set (f : BinaryStream -> BinaryStream) (l : loc) : M unit :=
  w ← get_world;
  match heap w !! l with
  | Some s => modify_world (set_heap (<[l := f s]> (heap w)))
  | None => throw "TypeError"
  end.

(** The listeners registered with the event emitters: what the application
    runs when an event is emitted.  [EventEmitter.prototype.emit] calls them
    synchronously, so they see (and may change) the world as it is at the
    call. *)
Definition Listeners := Emission -> M unit.

Definition no_listeners : Listeners := fun _ => ret tt.

(** ** [BinaryStream] methods that emit nothing *)

Definition _write (code : Z) (data : Value) (bonus : Z) : M bool :=
  w ← get_world;
  let message := {| kind := code; payload := data; bonus := bonus |} in
  tell [Send message] ;;
  ret (strict_ne_false (send_returns (_socket w) message)).

Definition write (l : loc) (data : Value) : M bool :=
  wr ← get writable l;
  if wr : bool then
    i ← get id l;
    out ← _write 2 data i;
    p ← get paused l;
    ret (negb p && out)
  else throw "Stream is not writable".

Definition end_ (l : loc) : M unit :=
  set (set_readable false) l ;;
  i ← get id l;
  _write 5 VNull i ;;
  ret tt.

Definition destroy (l : loc) : M unit :=
  set (set_readable false) l ;;
  set (set_writable false) l ;;
  i ← get id l;
  _write 6 VNull i ;;
  ret tt.

Definition destroySoon := destroy.

(** The constructor: the new object goes to the end of the store; with
    [create] it announces itself with a StreamOpen message. *)
Definition new_BinaryStream (ident : Z) (create : bool) (meta : Value) : M loc :=
  w ← get_world;
  let l := length (heap w) in
  modify_world (set_heap (heap w ++
    [{| id := ident; readable := true; writable := true; paused := false |}])) ;;
  (if create then i ← get id l; _write 1 meta i ;; ret tt else ret tt) ;;
  ret l.

(** ** Methods that emit events, and the multiplexer *)

Section WithListeners.

Variable L : Listeners.

(** [emitter.emit(type, args...)]: the event is logged and the registered
    listeners run at once.  The bundled EventEmitter treats every event type
    alike: an [error] event without listeners does not throw. *)
Definition emit (e : Emitter) (ty : string) (a : list Arg) : M unit :=
  let ev := {| emitter := e; type := ty; args := a |} in
  tell [Emit ev] ;; L ev.

Definition _onClose (l : loc) : M unit :=
  set (set_readable false) l ;;
  set (set_writable false) l ;;
  emit (Stream l) "close" [].

Definition _onPause (l : loc) : M unit :=
  emit (Stream l) "pause" [] ;;
  set (set_paused true) l.

Definition _onResume (l : loc) : M unit :=
  emit (Stream l) "resume" [] ;;
  emit (Stream l) "drain" [] ;;
  set (set_paused false) l.

Definition _onEnd (l : loc) : M unit :=
  set (set_readable false) l ;;
  emit (Stream l) "end" [].

Definition _onData (l : loc) (data : Value) : M unit :=
  r ← get readable l;
  if r : bool then emit (Stream l) "data" [AValue data] else ret tt.

Definition pause (l : loc) : M unit :=
  _onPause l ;;
  i ← get id l;
  _write 3 VNull i ;;
  ret tt.

Definition resume (l : loc) : M unit :=
  _onResume l ;;
  i ← get id l;
  _write 4 VNull i ;;
  ret tt.

(** [BinaryClient.prototype._receiveStream] and [createStream]. *)
Definition _receiveStream (streamId : Z) : M loc :=
  binaryStream ← new_BinaryStream streamId false VUndefined;
  modify_world (fun w => set_streams (<[streamId := binaryStream]> (_streams w)) w) ;;
  ret binaryStream.

(** [n += 2] on the counter [_nextId].  The counter is a JavaScript
    number, a double: it starts at 0 and only this statement changes it, so
    it runs through the even numbers up to 2^54, each of them a double, and
    stops there, since 2^54 + 2 is rounded back to 2^54. *)
Definition add_two (n : Z) : Z := if n <? 2 ^ 54 then n + 2 else n.

Definition createStream (meta : Value) : M loc :=
  w ← get_world;
  let streamId := _nextId w in
  modify_world (set_nextId (add_two (_nextId w))) ;;
  binaryStream ← new_BinaryStream streamId true meta;
  modify_world (fun w => set_streams (<[streamId := binaryStream]> (_streams w)) w) ;;
  ret binaryStream.

(** [BinaryClient.prototype.close], also called [destroy]. *)
Definition close (code message : Value) : M unit :=
  tell [CloseSocket code message].

(** [self._streams[streamId]] *)
Definition lookup_stream (streamId : Z) : M (option loc) :=
  w ← get_world; ret (_streams w !! streamId).

(** The [error] event for a message whose stream is not registered.  The
    identifier is spliced into the text by string concatenation; [pretty]
    writes it digit by digit, as JavaScript does for an integer of absolute
    value below 2^53 (beyond that JavaScript rounds to 17 digits and, from
    10^21 on, writes an exponent). *)
Definition unknown_stream (name : string) (streamId : Z) : M unit :=
  emit Client "error"
    [AValue (VStr ("Received `" +:+ name +:+ "` message for unknown stream: "
                   +:+ pretty streamId))].

(** The body of the socket's [message] listener, run from
    [util.setZeroTimeout] on the unpacked array [data].  The text of the
    last branch's [error] event carries the kind, written with [pretty]
    as the identifier is in [unknown_stream], and right in the same
    range. *)
Definition onmessage (data : Message) : M unit :=
  let streamId := bonus data in
  if kind data =? 0 then ret tt
  else if kind data =? 1 then
    let meta := payload data in
    binaryStream ← _receiveStream streamId;
    emit Client "stream" [AStream binaryStream; AValue meta]
  else if kind data =? 2 then
    binaryStream ← lookup_stream streamId;
    match binaryStream with
    | Some l => _onData l (payload data)
    | None => unknown_stream "data" streamId
    end
  else if kind data =? 3 then
    binaryStream ← lookup_stream streamId;
    match binaryStream with
    | Some l => _onPause l
    | None => unknown_stream "pause" streamId
    end
  else if kind data =? 4 then
    binaryStream ← lookup_stream streamId;
    match binaryStream with
    | Some l => _onResume l
    | None => unknown_stream "resume" streamId
    end
  else if kind data =? 5 then
    binaryStream ← lookup_stream streamId;
    match binaryStream with
    | Some l => _onEnd l
    | None => unknown_stream "end" streamId
    end
  else if kind data =? 6 then
    binaryStream ← lookup_stream streamId;
    match binaryStream with
    | Some l =>
        _onClose l ;;
        modify_world (fun w => set_streams (delete streamId (_streams w)) w)
    | None => unknown_stream "close" streamId
    end
  else
    emit Client "error"
      [AValue (VStr ("Unrecognized message type received: " +:+ pretty (kind data)))].

(** The socket calls its listeners one after the other; an exception that
    escapes one of them is reported and the next one still runs. *)
Definition isolated (m : M unit) : M unit :=
  fun w =>
    match m w with
    | (_, w1, t1) => (Return tt, w1, t1)
    end.

Fixpoint for_each (ls : list loc) (f : loc -> M unit) : M unit :=
  match ls with
  | [] => ret tt
  | l :: ls => isolated (f l) ;; for_each ls f
  end.

(** The socket's [close] event: first the listener the [BinaryClient]
    constructor added, then the one of every [BinaryStream] constructed on
    this socket, in construction order. *)
Definition stream_onclose (code message : Value) (l : loc) : M unit :=
  set (set_readable false) l ;;
  set (set_writable false) l ;;
  emit (Stream l) "close" [AValue code; AValue message].

Definition socket_close (code message : Value) : M unit :=
  w ← get_world;
  isolated (emit Client "close" [AValue code; AValue message]) ;;
  for_each (seq 0 (length (heap w))) (stream_onclose code message).

(** The socket's [error] and [open] events. *)
Definition stream_onerror (error : Value) (l : loc) : M unit :=
  set (set_readable false) l ;;
  set (set_writable false) l ;;
  emit (Stream l) "error" [AValue error].

Definition socket_error (error : Value) : M unit :=
  w ← get_world;
  isolated (emit Client "error" [AValue error]) ;;
  for_each (seq 0 (length (heap w))) (stream_onerror error).

Definition socket_open : M unit :=
  isolated (emit Client "open" []).

(** Everything that can happen to a client and its streams: a call made by
    the application, or an event of the socket. *)
Inductive Op :=
| CreateStream (meta : Value)
| ClientClose (code message : Value)
| StreamWrite (l : loc) (data : Value)
| StreamEnd (l : loc)
| StreamDestroy (l : loc)
| StreamPause (l : loc)
| StreamResume (l : loc)
| Receive (data : Message)
| SocketOpen
| SocketError (error : Value)
| SocketClose (code message : Value).

Definition perform (op : Op) : M unit :=
  match op with
  | CreateStream meta => createStream meta ;; ret tt
  | ClientClose code message => close code message
  | StreamWrite l data => write l data ;; ret tt
  | StreamEnd l => end_ l
  | StreamDestroy l => destroy l
  | StreamPause l => pause l
  | StreamResume l => resume l
  | Receive data => onmessage data
  | SocketOpen => socket_open
  | SocketError error => socket_error error
  | SocketClose code message => socket_close code message
  end.

(** A history: each operation is a task of its own, so one that throws does
    not prevent the following ones. *)
Fixpoint perform_all (ops : list Op) : M unit :=
  match ops with
  | [] => ret tt
  | op :: ops => isolated (perform op) ;; perform_all ops
  end.

End WithListeners.

(** The [BinaryClient] constructor: an empty registry, identifiers from 0. *)
Definition new_BinaryClient (socket : Socket) : World :=
  {| heap := []; _streams := ∅; _nextId := 0; _socket := socket |}.

(** A trace without the application's own notes: what the code did. *)
Definition visible (t : list Effect) : list Effect :=
  omap (fun x => match x with Note _ => None | _ => Some x end) t.

(** Listeners that only look: they return, leave the world as it is, and
    neither emit nor send anything themselves. *)
Definition passive (L : Listeners) : Prop :=
  forall e w, exists t, L e w = (Return tt, w, t) /\ visible t = [].

(** Every registry entry refers to an object of the store. *)
Definition registry_ok (w : World) : Prop :=
  forall i l, _streams w !! i = Some l -> (l < length (heap w))%nat.

(** ** Piping a producer into a stream: [Stream.prototype.pipe] and
    [BinaryClient.prototype.send] *)

Module Pipe.

(** The pipe modelled here is the one [send] makes.  Its source is a new
    producer and its destination the stream [send] has just created, so
    [pipe] finds no listener on either: the listeners it adds are the first
    of their arrays, and an [emit] calls them whatever the listeners that
    the application adds afterwards do (the emit loop can skip the listener
    that follows one which removes itself, never the first).  [send]
    returns nothing, so the application is not handed the stream and does
    not remove them.  A second pipe into the same stream is not in that
    position and is not modelled. *)

(** What a call [source.pipe(dest, options)] leaves behind: the two ends, and
    the variables its listeners close over.  [end_option] is the condition
    [!options || options.end !== false] ([dest._isStdio] is not set on a
    [BinaryStream]); [attached] is true until [cleanup] has removed the
    listeners. *)
Record t := {
  source : BlobReadStream.t;
  dest : loc;
  end_option : bool;
  attached : bool;
  didOnEnd : bool
}.

Definition set_source (x : BlobReadStream.t) (p : t) : t :=
  {| source := x; dest := dest p; end_option := end_option p;
     attached := attached p; didOnEnd := didOnEnd p |}.

Definition set_attached (x : bool) (p : t) : t :=
  {| source := source p; dest := dest p; end_option := end_option p;
     attached := x; didOnEnd := didOnEnd p |}.

Definition set_didOnEnd (x : bool) (p : t) : t :=
  {| source := source p; dest := dest p; end_option := end_option p;
     attached := attached p; didOnEnd := x |}.

(** The listeners [pipe] defines. *)
Definition ondata (p : t) (chunk : BlobReadStream.Blob) : M t :=
  wr ← get writable (dest p);
  if wr : bool then
    out ← write (dest p) (VBytes chunk);
    if out : bool then ret p
    else ret (set_source (BlobReadStream.pause (source p)) p)
  else ret p.

Definition ondrain (p : t) : t :=
  if BlobReadStream.readable (source p)
  then set_source (BlobReadStream.resume (source p)) p
  else p.

Definition onend (p : t) : M t :=
  if didOnEnd p then ret p
  else end_ (dest p) ;; ret (set_didOnEnd true p).

Definition onclose (p : t) : M t :=
  if didOnEnd p then ret p
  else destroy (dest p) ;; ret (set_didOnEnd true p).

Definition cleanup (p : t) : t := set_attached false p.

(** [pipe]: the registrations on [dest] each emit [newListener] there, and
    [pipe] ends with [dest.emit('pipe', source)].  An argument that is a
    function or the source object is written as its name. *)
Definition pipe (L : Listeners) (source : BlobReadStream.t) (dest : loc)
    (end_option : bool) : M t :=
  let registered (ty f : string) :=
    emit L (Stream dest) "newListener"
      [AValue (VStr ty); AValue (VStr f); AValue VUndefined; AValue VUndefined] in
  registered "drain" "ondrain" ;;
  registered "error" "onerror" ;;
  registered "end" "cleanup" ;;
  registered "close" "cleanup" ;;
  emit L (Stream dest) "pipe" [AValue (VStr "source")] ;;
  ret {| source := source; dest := dest; end_option := end_option;
         attached := true; didOnEnd := false |}.

(** What the source's listeners do with a notification, in the order they
    were registered: [ondata] for [data]; [onend] (when [end_option]) and
    then [cleanup] for [end].  An exception of the producer's callback
    reaches no listener. *)
Definition source_listeners (p : t) (n : BlobReadStream.Notification) : M t :=
  if attached p then
    match n with
    | BlobReadStream.Data chunk => ondata p chunk
    | BlobReadStream.End =>
        p1 ← (if end_option p then onend p else ret p);
        ret (cleanup p1)
    | BlobReadStream.TypeError _ _ => ret p
    end
  else ret p.

Fixpoint notify (p : t) (ns : list BlobReadStream.Notification) : M t :=
  match ns with
  | [] => ret p
  | n :: ns => p1 ← source_listeners p n; notify p1 ns
  end.

(** What the pipe's listeners on [dest], which are the first of their
    arrays there, do with an event it emits: [ondrain] for [drain],
    [cleanup] for [end] and [close], and [onerror] (which starts with
    [cleanup], and then rethrows the error to the emitting socket listener
    when nobody else listens) for [error]. *)
Definition dest_listeners (p : t) (e : Emission) : t :=
  match emitter e with
  | Stream l =>
      if bool_decide (l = dest p) && attached p then
        if String.eqb (type e) "drain" then ondrain p
        else if String.eqb (type e) "end" || String.eqb (type e) "close"
                || String.eqb (type e) "error" then cleanup p
        else p
      else p
  | Client => p
  end.

Definition react (p : t) (tr : list Effect) : t :=
  fold_left (fun p x => match x with Emit e => dest_listeners p e | _ => p end) tr p.

(** The two things that happen to a pipe: the scheduler runs a callback of
    the producer, or a message arrives for the client.  The listeners of the
    pipe only touch the pipe and the producer, those of the application only
    the world, so the former are applied to the events of a dispatch once it
    is over.  The producer's own [newListener] events have no listeners and
    are not logged; it never emits [close] or [error]. *)
Inductive Event :=
| Tick
| Deliver (data : Message).

Definition step (L : Listeners) (e : Event) (pw : t * World) : t * World * list Effect :=
  let '(p, w) := pw in
  match e with
  | Tick =>
      let '(src, ns) := BlobReadStream.step BlobReadStream.Tick (source p) in
      let p1 := set_source src p in
      match notify p1 ns w with
      | (Return p2, w2, tr) => (p2, w2, tr)
      | (Throw _, w2, tr) => (p1, w2, tr)
      end
  | Deliver data =>
      match onmessage L data w with
      | (_, w2, tr) => (react p tr, w2, tr)
      end
  end.

Fixpoint run (L : Listeners) (es : list Event) (pw : t * World) : t * World * list Effect :=
  match es with
  | [] => (pw, [])
  | e :: es =>
      let '(pw1, t1) := step L e pw in
      let '(pw2, t2) := run L es pw1 in
      (pw2, t1 ++ t2)
  end.

End Pipe.

(** [BinaryClient.prototype.send] for a [Blob]: a stream is created and a
    producer over the blob, with the client's [chunkSize] option, is piped
    into it. *)
Definition send_blob (L : Listeners) (chunkSize : Z) (data : BlobReadStream.Blob)
    (meta : Value) : M Pipe.t :=
  stream ← createStream meta;
  Pipe.pipe L
    (BlobReadStream.new data
       {| BlobReadStream.chunkSize := Some chunkSize;
          BlobReadStream.readDelay := None;
          BlobReadStream.opt_paused := None |})
    stream true.

(** ** The event emitter: [EventEmitter]

    Listener functions and scope objects are known by their identity.  A
    listener is taken not to call back into the emitter it is registered
    with: calling it is logged, and what it does elsewhere is not looked
    at.  Event types are taken to be ordinary keys of the [_events]
    object. *)

Module EventEmitter.

(** The values that are passed around: a listener function [Fun f], an
    object [Obj o], the emitter itself [Instance], and primitive values. *)
Inductive Val :=
| Undefined
| Null
| Bool (b : bool)
| Num (n : Z)
| Str (s : string)
| Fun (f : nat)
| Obj (o : nat)
| Instance.

Global Instance Val_eq_dec : EqDecision Val.
Proof. solve_decision. Defined.

(** [!!v] *)
Definition truthy (v : Val) : bool :=
  match v with
  | Undefined | Null | Bool false | Str "" => false
  | Num n => negb (n =? 0)
  | _ => true
  end.

(** The [Event] class; its [instance] field is always the emitter. *)
Record Event := {
  type : string;
  listener : nat;
  scope : Val;
  once : Val
}.

(** The array of the events of one type is an object: [removeListener]
    splices it in place while a loop of [emit] over it is running, so the
    arrays live in a store and [_events] holds references.  [warned] is the
    property [addListener] sets on the array. *)
Record Array := {
  items : list Event;
  warned : bool
}.

Record t := {
  store : list Array;
  _events : gmap string nat;
  _maxListeners : Z
}.

Definition set_store (x : list Array) (e : t) : t :=
  {| store := x; _events := _events e; _maxListeners := _maxListeners e |}.

Definition set_events (x : gmap string nat) (e : t) : t :=
  {| store := store e; _events := x; _maxListeners := _maxListeners e |}.

Definition set_items (x : list Event) (a : Array) : Array :=
  {| items := x; warned := warned a |}.

Definition set_warned (x : bool) (a : Array) : Array :=
  {| items := items a; warned := x |}.

(** The constructor. *)
Definition new : t := {| store := []; _events := ∅; _maxListeners := 10 |}.

(** What can be seen from outside: a listener called with its [this] and
    its arguments, and a [console.warn]. *)
Inductive Effect :=
| Call (f : nat) (this : Val) (args : list Val)
| Warn (text : string).

(** Computations over one emitter. *)
Definition E (A : Type) : Type := t -> Outcome A * t * list Effect.

Definition ret {A} (a : A) : E A := fun e => (Return a, e, []).

Definition bind {A B} (m : E A) (k : A -> E B) : E B :=
  fun e =>
    match m e with
    | (Return a, e1, t1) =>
        match k a e1 with
        | (o, e2, t2) => (o, e2, t1 ++ t2)
        end
    | (Throw err, e1, t1) => (Throw err, e1, t1)
    end.

Definition throw {A} (err : string) : E A := fun e => (Throw err, e, []).

Definition tell (t : list Effect) : E unit := fun e => (Return tt, e, t).

Definition get_state : E t := fun e => (Return e, e, []).

Definition modify (f : t -> t) : E unit := fun e => (Return tt, f e, []).

Global Instance E_ret : MRet E := @ret.
Global Instance E_bind : MBind E := fun A B k m => bind m k.

(** [this._events[type]], dereferenced; [undefined] is [None]. *)
Definition array_of (e : t) (ty : string) : option (nat * Array) :=
  match _events e !! ty with
  | Some r =>
      match store e !! r with
      | Some a => Some (r, a)
      | None => None
      end
  | None => None
  end.

(** The loop of [eachListener] over the array [possibleListeners], from
    index [i]: the array is read afresh at every turn; after a callback that
    returned [false] the index stays ([i -= 1] and then [i += 1]), after
    [true] the loop ends.  [turns] bounds the number of turns. *)
Fixpoint eachListener_from (turns : nat) (possibleListeners : nat)
    (callback : Event -> nat -> E Val) (i : nat) : E unit :=
  match turns with
  | O => throw "too many turns"
  | S turns =>
      e ← get_state;
      match store e !! possibleListeners with
      | None => throw "TypeError"
      | Some a =>
          match items a !! i with
          | None => ret tt
          | Some ev =>
              result ← callback ev i;
              match result with
              | Bool false => eachListener_from turns possibleListeners callback i
              | Bool true => ret tt
              | _ => eachListener_from turns possibleListeners callback (S i)
              end
          end
      end
  end.

(** [eachListener].  Over an array that [addListener] built, every turn of
    the loop with one of the callbacks of this module either moves the index
    forward or shortens the array, so the loop is given one turn more than
    the array is long at the start; [too many turns] stands for a loop that
    would not come to an end. *)
Definition eachListener (ty : string) (callback : Event -> nat -> E Val) : E unit :=
  e ← get_state;
  match array_of e ty with
  | Some (r, a) => eachListener_from (S (length (items a))) r callback 0
  | None => ret tt
  end.

(** [this._events[type].splice(index, 1)] *)
Definition splice (ty : string) (index : nat) : E unit :=
  e ← get_state;
  match array_of e ty with
  | Some (r, a) =>
      modify (set_store (<[r := set_items (delete index (items a)) a]> (store e)))
  | None => throw "TypeError"
  end.

(** The test of [removeListener]:
    [currentListener.listener === listener &&
     (!scope || currentListener.scope === scope)] *)
Definition matches (f : nat) (sc : Val) (currentListener : Event) : bool :=
  bool_decide (listener currentListener = f) &&
  (negb (truthy sc) || bool_decide (scope currentListener = sc)).

Definition removeListener (ty : string) (f : nat) (sc : Val) : E unit :=
  eachListener ty (fun currentListener index =>
    if matches f sc currentListener
    then splice ty index ;; ret Undefined
    else ret Undefined) ;;
  e ← get_state;
  match array_of e ty with
  | Some (r, a) =>
      if (length (items a) =? 0)%nat
      then modify (set_events (delete ty (_events e)))
      else ret tt
  | None => ret tt
  end.

Definition off := removeListener.

(** [Event.prototype.fire] *)
Definition fire (ev : Event) (args : list Val) : E Val :=
  tell [Call (listener ev) (if truthy (scope ev) then scope ev else Instance) args] ;;
  if truthy (once ev)
  then removeListener (type ev) (listener ev) (scope ev) ;; ret (Bool false)
  else ret Undefined.

Definition emit (ty : string) (args : list Val) : E unit :=
  eachListener ty (fun currentListener _ => fire currentListener args).

Definition addListener (ty : string) (f : nat) (sc : Val) (on : Val) : E unit :=
  e ← get_state;
  (match _events e !! ty with
   | Some _ => ret tt
   | None =>
       modify (fun e =>
         set_events (<[ty := length (store e)]> (_events e))
           (set_store (store e ++ [{| items := []; warned := false |}]) e))
   end) ;;
  e ← get_state;
  (match array_of e ty with
   | Some (r, a) =>
       modify (set_store
         (<[r := set_items (items a ++
                   [{| type := ty; listener := f; scope := sc; once := on |}]) a]>
            (store e)))
   | None => throw "TypeError"
   end) ;;
  emit "newListener" [Str ty; Fun f; sc; on] ;;
  e ← get_state;
  if negb (_maxListeners e =? 0) then
    match array_of e ty with
    | Some (r, a) =>
        if negb (warned a) && (_maxListeners e <? Z.of_nat (length (items a))) then
          tell [Warn ("Possible EventEmitter memory leak detected. " +:+
                      pretty (length (items a)) +:+
                      " listeners added. Use emitter.setMaxListeners() to increase limit.")] ;;
          modify (set_store (<[r := set_warned true a]> (store e)))
        else ret tt
    | None => throw "TypeError"
    end
  else ret tt.

Definition on := addListener.

Definition once_ (ty : string) (f : nat) (sc : Val) : E unit :=
  addListener ty f sc (Bool true).

(** [removeAllListeners]; an absent [type] is [None]. *)
Definition removeAllListeners (ty : option string) : E unit :=
  e ← get_state;
  match ty with
  | Some s =>
      if negb (String.eqb s "") then
        match _events e !! s with
        | Some _ => modify (set_events (delete s (_events e)))
        | None => ret tt
        end
      else modify (set_events ∅)
  | None => modify (set_events ∅)
  end.

(** [listeners]: the loop only reads. *)
Definition listeners (ty : string) : E (list nat) :=
  e ← get_state;
  match array_of e ty with
  | Some (_, a) => ret (map listener (items a))
  | None => ret []
  end.

Definition setMaxListeners (maxListeners : Z) : E unit :=
  modify (fun e => {| store := store e; _events := _events e;
                      _maxListeners := maxListeners |}).

End EventEmitter.

(** ** Deferred calls: [util.setZeroTimeout]

    The queue [timeouts] of the closure, the function
    [setZeroTimeoutPostMessage] that [util.setZeroTimeout] is, and the
    [message] listener [handleMessage] it installs on the global object.
    Functions are known by their identity; running one is logged. *)

Module ZeroTimeout.

Definition messageName : string := "zero-timeout-message".

Inductive Effect :=
| PostMessage (data targetOrigin : string)
| StopPropagation
| Run (fn : nat).

(** [setZeroTimeoutPostMessage(fn)] *)
Definition setZeroTimeoutPostMessage (fn : nat) (timeouts : list nat)
    : list nat * list Effect :=
  (timeouts ++ [fn], [PostMessage messageName "*"]).

(** [handleMessage(event)]; [from_global] is [event.source == global], and
    the event is taken to have a [stopPropagation] method. *)
Definition handleMessage (from_global : bool) (data : string) (timeouts : list nat)
    : list nat * list Effect :=
  if from_global && String.eqb data messageName then
    match timeouts with
    | fn :: rest => (rest, [StopPropagation; Run fn])
    | [] => (timeouts, [StopPropagation])
    end
  else (timeouts, []).

Inductive Event :=
| Queue (fn : nat)
| Message (from_global : bool) (data : string).

Definition step (e : Event) (timeouts : list nat) : list nat * list Effect :=
  match e with
  | Queue fn => setZeroTimeoutPostMessage fn timeouts
  | Message from_global data => handleMessage from_global data timeouts
  end.

Fixpoint run (es : list Event) (timeouts : list nat) : list nat * list Effect :=
  match es with
  | [] => (timeouts, [])
  | e :: es =>
      let '(q1, t1) := step e timeouts in
      let '(q2, t2) := run es q1 in
      (q2, t1 ++ t2)
  end.

(** The functions a history queued, the functions a trace ran, and the
    number of messages of a history that [handleMessage] takes for its
    own. *)
Definition queued (es : list Event) : list nat :=
  omap (fun e => match e with Queue fn => Some fn | Message _ _ => None end) es.

Definition ran (t : list Effect) : list nat :=
  omap (fun x => match x with Run fn => Some fn | _ => None end) t.

Definition own (e : Event) : bool :=
  match e with
  | Message from_global data => from_global && String.eqb data messageName
  | Queue _ => false
  end.

Definition taken (es : list Event) : nat :=
  length (filter (fun e => own e = true) es).

End ZeroTimeout.

(** ** Vocabulary of the properties *)

(** A stream object just built, and one with both halves closed. *)
Definition fresh (i : Z) : BinaryStream :=
  {| id := i; readable := true; writable := true; paused := false |}.

Definition closed (s : BinaryStream) : BinaryStream :=
  set_writable false (set_readable false s).

(** A socket whose [send] returns [undefined], as a browser WebSocket does:
    no backpressure is ever reported. *)
Definition quiet_socket : Socket := {| send_returns := fun _ => VUndefined |}.

(** A [drain] listener that writes [data] to the stream that drained and
    records what [write] returned. *)
Definition write_on_drain (data : Value) : Listeners :=
  fun e =>
    match emitter e with
    | Stream l =>
        if String.eqb (type e) "drain"
        then out ← write l data; tell [Note (VBool out)]
        else ret tt
    | Client => ret tt
    end.

(** The messages a trace handed to the socket, and their delivery, one
    task each, to the client at the other end. *)
Definition sent (t : list Effect) : list Message :=
  omap (fun x => match x with Send m => Some m | _ => None end) t.

Fixpoint receive_all (L : Listeners) (ms : list Message) : M unit :=
  match ms with
  | [] => ret tt
  | m :: ms => isolated (onmessage L m) ;; receive_all L ms
  end.

(** Five bytes to send around. *)
Definition hello : list byte := ["h"; "e"; "l"; "l"; "o"]%byte.

(** [m], started in [w], returns [a] in world [w'], and what the code did on
    the way is [v]. *)
Definition yields {A} (m : M A) (w : World) (a : A) (w' : World) (v : list Effect) : Prop :=
  exists t, m w = (Return a, w', t) /\ visible t = v.

(** [m] changes neither the registry, nor the number of stream objects, nor
    the identifier counter, nor the socket. *)
Definition stable {A} (m : M A) : Prop :=
  forall w o w' t, m w = (o, w', t) ->
    _streams w' = _streams w /\ length (heap w') = length (heap w) /\
    _nextId w' = _nextId w /\ _socket w' = _socket w.

(** The words of the specification of [write], "currently paused by the
    remote peer", read off a history: the last Pause or Resume message
    received for the identifier was a Pause. *)
Definition paused_by_peer (i : Z) (history : list Op) : bool :=
  fold_left
    (fun acc op =>
       match op with
       | Receive data =>
           if bonus data =? i then
             if kind data =? 3 then true
             else if kind data =? 4 then false
             else acc
           else acc
       | _ => acc
       end)
    history false.

(** What a [send] of a blob puts on the wire for stream [i]: the StreamOpen
    message, one Data message per chunk and, when [ended], the End
    message. *)
Definition chunk_message (i : Z) (c : BlobReadStream.Blob) : Message :=
  {| kind := 2; payload := VBytes c; bonus := i |}.

Definition transmission (i : Z) (meta : Value) (cs : list BlobReadStream.Blob)
    (ended : bool) : list Message :=
  {| kind := 1; payload := meta; bonus := i |} ::
  map (chunk_message i) cs ++
  (if ended then [{| kind := 5; payload := VNull; bonus := i |}] else []).

(** The invariant of a pipe that [send] set up for the blob [data] on the
    stream announced as [i], over the pipe, the world and everything [acc]
    done since [send] was called: what went out is the StreamOpen message,
    then the first chunks [cs] of the producer's output, in order, then
    possibly the End message; a pipe that is still attached has forwarded
    every chunk, and the End message is only sent once the whole blob has
    been.  (Over a blob the producer's output holds no chunk at all, so
    [cs] is empty.) *)
Definition pipe_inv (src0 : BlobReadStream.t) (data : BlobReadStream.Blob) (i : Z)
    (meta : Value) (pw : Pipe.t * World) (acc : list Effect) : Prop :=
  registry_ok pw.2 /\
  exists s es out cs ended,
    heap pw.2 !! Pipe.dest pw.1 = Some s /\ id s = i /\
    BlobReadStream.run es src0 = (Pipe.source pw.1, out) /\
    sent acc = transmission i meta cs ended /\
    cs `prefix_of` BlobReadStream.chunks out /\
    (ended = true -> concat cs = data /\ Pipe.attached pw.1 = false) /\
    (Pipe.attached pw.1 = true -> writable s = true /\ cs = BlobReadStream.chunks out).

(** The integers JavaScript writes out digit by digit when it turns a
    number into a string, and which are all numbers of its own: those of
    absolute value below 2^53. *)
Definition safe_integer (n : Z) : Prop := Z.abs n < 2 ^ 53.

(** The name the dispatcher gives a message kind in its "unknown stream"
    error. *)
Definition kind_name (k : Z) : string :=
  if k =? 2 then "data"
  else if k =? 3 then "pause"
  else if k =? 4 then "resume"
  else if k =? 5 then "end"
  else "close".

(** What the dispatcher runs for a message of kind 2 to 6 whose stream it
    found at [l]. *)
Definition inbound (L : Listeners) (k : Z) (p : Value) (i : Z) (l : loc) : M unit :=
  if k =? 2 then _onData L l p
  else if k =? 3 then _onPause L l
  else if k =? 4 then _onResume L l
  else if k =? 5 then _onEnd L l
  else (_onClose L l ;;
        modify_world (fun w => set_streams (delete i (_streams w)) w)).

(** [m] relates the world it starts in, the trace it leaves and the world
    it ends in by [Q], whether it returns or throws. *)
Definition follows {A} (Q : World -> list Effect -> World -> Prop) (m : M A) : Prop :=
  forall w o w' t, m w = (o, w', t) -> Q w t w'.

(** Relations that compose along a computation and do not see what passive
    listeners, event emissions and [socket.close] leave in the trace. *)
Class Sequential (Q : World -> list Effect -> World -> Prop) : Prop := {
  seq_notes : forall w t, visible t = [] -> Q w t w;
  seq_app : forall w1 t1 w2 t2 w3, Q w1 t1 w2 -> Q w2 t2 w3 -> Q w1 (t1 ++ t2) w3;
  seq_emit : forall w e, Q w [Emit e] w;
  seq_close : forall w code message, Q w [CloseSocket code message] w
}.

(** [s'] is [s] later in its life: the same identifier, and no flag of the
    two halves that was false is true again. *)
Definition lowered (s s' : BinaryStream) : Prop :=
  id s' = id s /\
  (readable s' = true -> readable s = true) /\
  (writable s' = true -> writable s = true).

(** Every stream object of [w] is still there in [w'], lowered. *)
Definition grows (w : World) (t : list Effect) (w' : World) : Prop :=
  forall l s, heap w !! l = Some s -> exists s', heap w' !! l = Some s' /\ lowered s s'.

(** Every stream object of [w] other than the one at [l] is unchanged in [w']. *)
Definition apart_from (l : option loc) (w : World) (t : list Effect) (w' : World) : Prop :=
  forall l' s, Some l' <> l -> heap w !! l' = Some s -> heap w' !! l' = Some s.

(** The identifiers a trace announced with a StreamOpen message. *)
Definition opened (t : list Effect) : list Z :=
  omap (fun x => match x with
                 | Send m => if kind m =? 1 then Some (bonus m) else None
                 | _ => None
                 end) t.

(** The identifier counter is where it was and no StreamOpen was sent. *)
Definition allocates_nothing (w : World) (t : list Effect) (w' : World) : Prop :=
  _nextId w' = _nextId w /\ opened t = [].

(** The stream object an operation is about, if it is about one. *)
Definition target (w : World) (op : Op) : option loc :=
  match op with
  | StreamWrite l _ | StreamEnd l | StreamDestroy l | StreamPause l | StreamResume l =>
      Some l
  | Receive data =>
      if (2 <=? kind data) && (kind data <=? 6) then _streams w !! bonus data else None
  | _ => None
  end.

(** How many streams a history created locally. *)
Definition creations (ops : list Op) : nat :=
  length (omap (fun op => match op with CreateStream _ => Some tt | _ => None end) ops).

(** What [removeListener]'s loop leaves of an array: after a removal the
    next element has moved to the index just visited, and the loop goes on
    with the index after it. *)
Fixpoint skip_remove (P : EventEmitter.Event -> bool) (l : list EventEmitter.Event)
    : list EventEmitter.Event :=
  match l with
  | [] => []
  | x :: rest =>
      if P x then
        match rest with
        | [] => []
        | y :: rest' => y :: skip_remove P rest'
        end
      else x :: skip_remove P rest
  end.

(** The listeners registered for a type, as events, and the call [fire]
    makes to one of them. *)
Definition registered (e : EventEmitter.t) (ty : string) : list EventEmitter.Event :=
  match EventEmitter.array_of e ty with
  | Some (_, a) => EventEmitter.items a
  | None => []
  end.

Definition call_of (args : list EventEmitter.Val) (ev : EventEmitter.Event)
    : EventEmitter.Effect :=
  EventEmitter.Call (EventEmitter.listener ev)
    (if EventEmitter.truthy (EventEmitter.scope ev)
     then EventEmitter.scope ev else EventEmitter.Instance)
    args.

Definition permanent (ev : EventEmitter.Event) : bool :=
  negb (EventEmitter.truthy (EventEmitter.once ev)).

(** * Properties *)

(** ** The chunked producer *)

(** The producer on ["hello"] with chunks of two bytes: its first callback
    calls [slice(0, 2)], which throws, and nothing is queued after it. *)
Example producer_hello :
  BlobReadStream.run (repeat BlobReadStream.Tick 4)
    (BlobReadStream.new hello
       {| BlobReadStream.chunkSize := Some 2;
          BlobReadStream.readDelay := None;
          BlobReadStream.opt_paused := None |})
  = ({| BlobReadStream._source := hello;
        BlobReadStream._start := 0;
        BlobReadStream._readChunkSize := 2;
        BlobReadStream._readDelay := 0;
        BlobReadStream.readable := true;
        BlobReadStream.paused := false;
        BlobReadStream.scheduled := 0;
        BlobReadStream.cleared := false |},
     [BlobReadStream.TypeError 0 2]).
Proof. reflexivity. Qed.

(** Over an empty blob there is nothing to slice: the first callback emits
    [end]. *)
Example producer_empty :
  snd (BlobReadStream.run (repeat BlobReadStream.Tick 4)
         (BlobReadStream.new []
            {| BlobReadStream.chunkSize := Some 2;
               BlobReadStream.readDelay := None;
               BlobReadStream.opt_paused := None |}))
  = [BlobReadStream.End].
Proof. reflexivity. Qed.

(** With a [readDelay], a second [destroy] finds the timer already cleared
    and leaves the callback queued by the first [resume] where it is. *)
Example producer_destroy_twice :
  BlobReadStream.scheduled
    (fst (BlobReadStream.run
            [BlobReadStream.CallResume; BlobReadStream.CallDestroy;
             BlobReadStream.CallDestroy]
            (BlobReadStream.new hello
               {| BlobReadStream.chunkSize := Some 2;
                  BlobReadStream.readDelay := Some 10;
                  BlobReadStream.opt_paused := None |})))
  = 1%nat.
Proof. reflexivity. Qed.

Section ProducerFacts.

Import BlobReadStream.

Lemma chunks_app (o1 o2 : list Notification) :
  chunks (o1 ++ o2) = chunks o1 ++ chunks o2.
Proof. unfold chunks. apply omap_app. Qed.

Lemma ends_app (o1 o2 : list Notification) : ends (o1 ++ o2) = (ends o1 + ends o2)%nat.
Proof. unfold ends. rewrite omap_app, length_app. reflexivity. Qed.

Lemma ends_none (o : list Notification) : ends o = 0%nat -> ~ In End o.
Proof.
  induction o as [|x o IH]; [by intros _ []|].
  destruct x; unfold ends in *; simpl; intros H [Hx|Hx]; try done; by apply IH.
Qed.

Lemma run_cons (e : Event) (es : list Event) (s : t) :
  run (e :: es) s =
  let '(s1, o1) := step e s in
  let '(s2, o2) := run es s1 in (s2, o1 ++ o2).
Proof. reflexivity. Qed.

Lemma scheduled__read (s : t) : scheduled (_read s) = S (scheduled s).
Proof. unfold _read. cbn [_readDelay set_scheduled]. by destruct (_ =? 0). Qed.

(** What [_read] and [destroy] leave alone. *)
Lemma read_frame (s : t) :
  _source (_read s) = _source s /\ _start (_read s) = _start s /\
  _readChunkSize (_read s) = _readChunkSize s /\
  readable (_read s) = readable s /\ paused (_read s) = paused s.
Proof. unfold _read. cbn [_readDelay set_scheduled]. by destruct (_ =? 0). Qed.

Lemma destroy_frame (s : t) :
  _source (destroy s) = _source s /\ _start (destroy s) = _start s /\
  _readChunkSize (destroy s) = _readChunkSize s /\
  readable (destroy s) = false /\ paused (destroy s) = paused s.
Proof.
  unfold destroy. cbn [_readDelay set_readable cleared scheduled].
  destruct (_ =? 0); [done|]. destruct (cleared s); [done|]. by destruct (scheduled s).
Qed.

(** No step moves the cursor, cuts a chunk or makes the producer readable
    again. *)
Lemma step_frame (e : Event) (s s' : t) (o : list Notification) :
  step e s = (s', o) ->
  pending s' = pending s /\ _start s' = _start s /\ chunks o = [] /\
  (readable s' = true -> readable s = true).
Proof.
  unfold pending. destruct e; simpl.
  - destruct (scheduled s) as [|n]; [by intros [= <- <-]|].
    unfold _emitReadChunk. cbn [paused readable set_scheduled _source _start _readChunkSize].
    destruct (paused s || negb (readable s)); [by intros [= <- <-]|].
    destruct (_ =? 0); by intros [= <- <-].
  - by intros [= <- <-].
  - intros [= <- <-]. unfold resume.
    destruct (read_frame (set_paused false s)) as (-> & -> & -> & -> & _). done.
  - intros [= <- <-]. destruct (destroy_frame s) as (-> & -> & -> & -> & _). done.
Qed.

Lemma run_frame (es : list Event) :
  forall (s s' : t) (o : list Notification),
  run es s = (s', o) ->
  pending s' = pending s /\ _start s' = _start s /\ chunks o = [] /\
  (readable s' = true -> readable s = true).
Proof.
  induction es as [|e es IH]; intros s s' o; simpl.
  - by intros [= <- <-].
  - destruct (step e s) as [s1 o1] eqn:E1. destruct (run es s1) as [s2 o2] eqn:E2.
    intros [= <- <-].
    destruct (step_frame _ _ _ _ E1) as (Hp1 & Hs1 & Hc1 & Hr1).
    destruct (IH _ _ _ E2) as (Hp2 & Hs2 & Hc2 & Hr2).
    rewrite chunks_app, Hc1, Hc2. split_and!; try congruence; auto.
Qed.

(** While bytes are pending, no [end] is emitted. *)
Lemma step_no_end (e : Event) (s s' : t) (o : list Notification) :
  pending s <> 0 -> step e s = (s', o) -> ends o = 0%nat.
Proof.
  unfold pending. intros Hne. destruct e; simpl; try by intros [= <- <-].
  destruct (scheduled s) as [|n]; [by intros [= <- <-]|].
  unfold _emitReadChunk. cbn [paused readable set_scheduled _source _start _readChunkSize].
  destruct (paused s || negb (readable s)); [by intros [= <- <-]|].
  destruct (_ =? 0) eqn:Ez; [apply Z.eqb_eq in Ez; done|]. by intros [= <- <-].
Qed.

Lemma run_no_end (es : list Event) :
  forall (s s' : t) (o : list Notification),
  pending s <> 0 -> run es s = (s', o) -> ends o = 0%nat.
Proof.
  induction es as [|e es IH]; intros s s' o Hne; simpl.
  - by intros [= <- <-].
  - destruct (step e s) as [s1 o1] eqn:E1. destruct (run es s1) as [s2 o2] eqn:E2.
    intros [= <- <-]. rewrite ends_app, (step_no_end _ _ _ _ Hne E1).
    destruct (step_frame _ _ _ _ E1) as (Hp1 & _).
    apply (IH _ _ _ ltac:(by rewrite Hp1) E2).
Qed.

Lemma run_unreadable (es : list Event) :
  forall s : t, readable s = false ->
  exists s', run es s = (s', []) /\ readable s' = false.
Proof.
  induction es as [|e es IH]; intros s Hr; simpl.
  - by exists s.
  - assert (exists s1, step e s = (s1, []) /\ readable s1 = false) as (s1 & -> & Hr1).
    { destruct e; simpl.
      - destruct (scheduled s) as [|n]; [by exists s|].
        unfold _emitReadChunk. simpl. rewrite Hr, orb_true_r. by eexists.
      - by eexists.
      - eexists. split; [done|]. unfold resume.
        by destruct (read_frame (set_paused false s)) as (_ & _ & _ & -> & _).
      - eexists. split; [done|]. by destruct (destroy_frame s) as (_ & _ & _ & -> & _). }
    destruct (IH s1 Hr1) as (s' & -> & Hr'). by exists s'.
Qed.

(** A callback of a producer that is readable and not paused. *)
Lemma tick_running (s : t) (m : nat) :
  scheduled s = S m -> readable s = true -> paused s = false ->
  step Tick s =
  if pending s =? 0 then (BlobReadStream.set_readable false (set_scheduled m s), [End])
  else (set_scheduled m s, [TypeError (_start s) (_start s + pending s)]).
Proof.
  intros Hm Hr Hp. unfold step. rewrite Hm. unfold _emitReadChunk, pending.
  cbn [paused readable set_scheduled _source _start _readChunkSize].
  rewrite Hr, Hp. reflexivity.
Qed.

Lemma ticks_idle (n : nat) (s : t) :
  scheduled s = 0%nat -> run (repeat Tick n) s = (s, []).
Proof.
  intros Hs. induction n as [|n IH]; [done|].
  cbn [repeat]. rewrite run_cons. cbn [step]. by rewrite Hs, IH.
Qed.

Lemma set_scheduled_same (s : t) (k : nat) : scheduled s = k -> set_scheduled k s = s.
Proof. intros <-. by destruct s. Qed.

(** With bytes pending, every callback of a producer that is readable and
    not paused throws, and leaves the producer as it found it, the queue
    one shorter. *)
Lemma ticks_throw (n : nat) :
  forall s : t,
  pending s <> 0 -> readable s = true -> paused s = false ->
  run (repeat Tick n) s =
  (set_scheduled (scheduled s - n) s,
   repeat (TypeError (_start s) (_start s + pending s)) (n `min` scheduled s)).
Proof.
  induction n as [|n IH]; intros s Hne Hr Hp.
  - simpl. by rewrite Nat.sub_0_r, set_scheduled_same.
  - cbn [repeat]. rewrite run_cons.
    destruct (scheduled s) as [|m] eqn:Hm.
    + cbn [step]. rewrite Hm, (ticks_idle n s Hm).
      by rewrite Nat.min_0_r, set_scheduled_same.
    + rewrite (tick_running s m Hm Hr Hp), (proj2 (Z.eqb_neq _ _) Hne).
      rewrite (IH (set_scheduled m s)) by done. reflexivity.
Qed.

(** The number the callbacks of a new producer test, and when it is 0. *)
Lemma pending_new (src : Blob) (options : Options) :
  pending (new src options)
  = Z.min (size src) (or_default (chunkSize options) (size src)).
Proof.
  unfold new. destruct (read_frame
    {| _source := src; _start := 0;
       _readChunkSize := or_default (chunkSize options) (size src);
       _readDelay := default 0 (readDelay options);
       readable := true; paused := default false (opt_paused options);
       scheduled := 0; cleared := false |}) as (H1 & H2 & H3 & _).
  unfold pending. rewrite H1, H2, H3. simpl. by rewrite Z.sub_0_r.
Qed.

Lemma pending_new_nonempty (b : byte) (rest : Blob) (options : Options) :
  pending (new (b :: rest) options) <> 0.
Proof.
  rewrite pending_new. unfold or_default, size.
  destruct (chunkSize options) as [x|]; [|simpl length; lia].
  destruct (x =? 0) eqn:E; [simpl length; lia|].
  apply Z.eqb_neq in E. simpl length. lia.
Qed.

Lemma pending_new_zero (src : Blob) (options : Options) :
  match chunkSize options with Some c => 0 <= c | None => True end ->
  pending (new src options) = 0 <-> size src = 0.
Proof.
  intros Hc. rewrite pending_new. unfold or_default, size in *.
  destruct (chunkSize options) as [x|]; [|lia].
  destruct (x =? 0) eqn:E; [lia|]. apply Z.eqb_neq in E. lia.
Qed.

Lemma start_new (src : Blob) (options : Options) : _start (new src options) = 0.
Proof.
  unfold new.
  match goal with |- _start (_read ?s) = _ =>
    by destruct (read_frame s) as (_ & -> & _) end.
Qed.

Lemma sched_inv_new (src : Blob) (options : Options) : sched_inv (new src options).
Proof. intros _ _. unfold new. rewrite scheduled__read. lia. Qed.

(** With nothing pending no slice is called: a producer emits nothing
    until a callback finds it readable and not paused, and [end] then. *)
Lemma step_ending (e : Event) (s s' : t) (o : list Notification) :
  pending s = 0 -> sched_inv s -> step e s = (s', o) ->
  (o = [] /\ sched_inv s') \/ (o = [End] /\ readable s' = false).
Proof.
  intros Hz Hs. destruct e; simpl.
  - destruct (scheduled s) as [|n] eqn:Hn; [intros [= <- <-]; by left|].
    unfold _emitReadChunk. cbn [paused readable set_scheduled _source _start _readChunkSize].
    destruct (paused s || negb (readable s)) eqn:Eg.
    + intros [= <- <-]. left. split; [done|]. intros Hr Hp. simpl in *.
      rewrite Hr, Hp in Eg. done.
    + unfold pending in Hz. rewrite Hz. intros [= <- <-]. by right.
  - intros [= <- <-]. left. split; [done|]. by intros _ Hp.
  - intros [= <- <-]. left. split; [done|]. intros _ _. unfold resume.
    rewrite scheduled__read. lia.
  - intros [= <- <-]. left. split; [done|]. intros Hr.
    by destruct (destroy_frame s) as (_ & _ & _ & Hd & _); rewrite Hd in Hr.
Qed.

Lemma run_ending (es : list Event) :
  forall (s s' : t) (o : list Notification),
  pending s = 0 -> sched_inv s -> run es s = (s', o) ->
  (o = [] /\ sched_inv s') \/ (o = [End] /\ readable s' = false).
Proof.
  induction es as [|e es IH]; intros s s' o Hz Hs; simpl.
  - intros [= <- <-]. by left.
  - destruct (step e s) as [s1 o1] eqn:E1. destruct (run es s1) as [s2 o2] eqn:E2.
    intros [= <- <-].
    destruct (step_ending _ _ _ _ Hz Hs E1) as [[-> Hs1]|[-> Hr1]].
    + destruct (step_frame _ _ _ _ E1) as (Hp1 & _).
      apply (IH _ _ _ ltac:(by rewrite Hp1) Hs1 E2).
    + destruct (run_unreadable es s1 Hr1) as (s3 & E3 & Hr3).
      rewrite E3 in E2. injection E2 as <- <-. by right.
Qed.

(** C6: over a blob that is not empty, whatever the options, no chunk is
    ever emitted and no [end] either, under every interleaving of queued
    callbacks with [pause], [resume] and [destroy], and the cursor stays at
    0.  Left alone, a producer that was not created paused runs one
    callback, whose slice call throws, and is then stalled: still readable,
    nothing queued, nothing emitted however long one waits. *)
Theorem blob_is_never_chunked (b : byte) (rest : Blob) (options : Options) :
  (forall es : list Event,
     chunks (snd (run es (new (b :: rest) options))) = [] /\
     ends (snd (run es (new (b :: rest) options))) = 0%nat /\
     _start (fst (run es (new (b :: rest) options))) = 0) /\
  (forall n : nat,
     run (repeat Tick (S n)) (new (b :: rest) options)
     = (set_scheduled 0 (new (b :: rest) options),
        if paused (new (b :: rest) options) then []
        else [TypeError 0
                (Z.min (size (b :: rest))
                   (or_default (chunkSize options) (size (b :: rest))))]) /\
     readable (set_scheduled 0 (new (b :: rest) options)) = true).
Proof.
  pose proof (pending_new_nonempty b rest options) as Hne.
  set (s0 := new (b :: rest) options) in *.
  assert (scheduled s0 = 1%nat) as Hq by (unfold s0, new; by rewrite scheduled__read).
  assert (readable s0 = true) as Hr.
  { unfold s0, new.
    match goal with |- readable (_read ?s) = _ =>
      by destruct (read_frame s) as (_ & _ & _ & -> & _) end. }
  split.
  - intros es. destruct (run es s0) as [s out] eqn:Hrun. cbn [fst snd].
    destruct (run_frame _ _ _ _ Hrun) as (_ & Hst & Hc & _).
    split_and!; [exact Hc|exact (run_no_end _ _ _ _ Hne Hrun)|].
    rewrite Hst. apply start_new.
  - intros n. split; [|exact Hr].
    destruct (paused s0) eqn:Hp.
    + cbn [repeat]. rewrite run_cons. cbn [step]. rewrite Hq.
      unfold _emitReadChunk. cbn [paused readable set_scheduled]. rewrite Hp.
      cbn [orb]. by rewrite ticks_idle.
    + rewrite (ticks_throw (S n) s0 Hne Hr Hp), Hq.
      replace (S n `min` 1)%nat with 1%nat by lia.
      replace (1 - S n)%nat with 0%nat by lia.
      cbn [repeat]. unfold s0 at 2 3. rewrite start_new, Z.add_0_l.
      unfold s0. by rewrite pending_new.
Qed.

(** C7: in every run of a producer (chunk size not negative), [End] is
    emitted at most once and is the last notification: when it is out the
    producer is not readable, the cursor is at the source size, and no further
    event, [resume] included, produces anything.  And a readable producer
    whose cursor is at the source size has not ended yet and ends at its next
    callback: at once if it is not paused, after [resume] if it is. *)
Theorem end_fires_once (src : Blob) (options : Options)
    (es : list Event) (s : t) (out : list Notification) :
  match chunkSize options with Some c => 0 <= c | None => True end ->
  run es (new src options) = (s, out) ->
  (ends out <= 1)%nat /\
  (In End out ->
     out = map Data (chunks out) ++ [End] /\
     readable s = false /\ _start s = size src /\
     forall es', snd (run es' s) = []) /\
  (_start s = size src -> readable s = true ->
     ends out = 0%nat /\
     (paused s = false ->
        exists s', step Tick s = (s', [End]) /\ readable s' = false) /\
     (paused s = true ->
        exists s', run [CallResume; Tick] s = (s', [End]) /\ readable s' = false)).
Proof.
  intros Hc Hrun.
  destruct (run_frame _ _ _ _ Hrun) as (Hp & Hst & _ & _).
  rewrite start_new in Hst.
  destruct (decide (pending (new src options) = 0)) as [Hz|Hne].
  - (* an empty source: nothing to slice *)
    pose proof (proj1 (pending_new_zero src options Hc) Hz) as Hsize.
    destruct (run_ending _ _ _ _ Hz (sched_inv_new src options) Hrun)
      as [[-> Hs]|[-> Hr]].
    + split_and!; [unfold ends; simpl; lia|by intros []|].
      intros _ Hr. split_and!; [done| |].
      * intros Hpa. destruct (scheduled s) as [|m] eqn:Hm; [specialize (Hs Hr Hpa); lia|].
        rewrite (tick_running s m Hm Hr Hpa), Hp, Hz. by eexists.
      * intros Hpa. rewrite run_cons. cbn [step]. rewrite run_cons.
        destruct (read_frame (BlobReadStream.set_paused false s))
          as (H1 & H2 & H3 & H4 & H5).
        rewrite (tick_running (resume s) (scheduled s)).
        -- replace (pending (resume s)) with 0; [by eexists|].
           rewrite <- Hz, <- Hp. unfold pending, resume. by rewrite H1, H2, H3.
        -- unfold resume. by rewrite scheduled__read.
        -- unfold resume. by rewrite H4.
        -- unfold resume. by rewrite H5.
    + split_and!; [unfold ends; simpl; lia| |congruence].
      intros _. split_and!; [done|done|congruence|].
      intros es'. by destruct (run_unreadable es' s Hr) as (s' & -> & _).
  - (* a source with bytes in it: the slice call throws before any [end] *)
    pose proof (run_no_end _ _ _ _ Hne Hrun) as He.
    split_and!; [lia|intros Hin; by apply ends_none in Hin|].
    intros Hend. exfalso. apply Hne, (pending_new_zero src options Hc). congruence.
Qed.

Lemma end_fires_once_witness :
  let src : Blob := [] in
  let options := {| chunkSize := Some 2; readDelay := None; opt_paused := None |} in
  let es := [CallPause; Tick; Tick; CallResume; Tick; Tick; CallResume; Tick] in
  match chunkSize options with Some c => 0 <= c | None => True end /\
  (ends (snd (run es (new src options))) <= 1)%nat.
Proof.
  intros src options es. split; [simpl; lia|].
  destruct (run es (new src options)) as [s out] eqn:Hrun.
  apply (end_fires_once src options es s out); [simpl; lia|exact Hrun].
Defined.

(** C7 as it is worded, for every producer: a producer over the empty blob
    with chunk size -1 has its cursor at the source size from the start, is
    readable and not paused, and its next callback does not emit [end]: it
    calls [slice(0, -1)]. *)
Lemma end_needs_chunk_size_not_negative :
  ~ (forall (src : Blob) (options : Options) (es : list Event) (s : t)
       (out : list Notification),
       run es (new src options) = (s, out) ->
       (ends out <= 1)%nat /\
       (In End out ->
          out = map Data (chunks out) ++ [End] /\
          readable s = false /\ _start s = size src /\
          forall es', snd (run es' s) = []) /\
       (_start s = size src -> readable s = true ->
          ends out = 0%nat /\
          (paused s = false ->
             exists s', step Tick s = (s', [End]) /\ readable s' = false) /\
          (paused s = true ->
             exists s', run [CallResume; Tick] s = (s', [End]) /\ readable s' = false))).
Proof.
  intros H.
  destruct (H [] {| chunkSize := Some (-1); readDelay := None; opt_paused := None |}
              [] _ _ eq_refl) as (_ & _ & H3).
  destruct (H3 eq_refl eq_refl) as (_ & H4 & _).
  destruct (H4 eq_refl) as (s' & Hs' & _). discriminate Hs'.
Qed.

End ProducerFacts.

(** ** Streams and the multiplexer *)

(** The basic exchange between two peers: A opens a stream, writes and
    ends; B sees [stream], [data], [end] and destroys its stream; A sees
    [close] and forgets the identifier, B still has it registered. *)
Example basic_exchange :
  let A0 := new_BinaryClient quiet_socket in
  let B0 := new_BinaryClient quiet_socket in
  let '(_, A1, fromA) :=
    (l ← createStream (VStr "file"); write l (VBytes hello) ;; end_ l) A0 in
  let '(_, B1, atB) := receive_all no_listeners (sent fromA) B0 in
  let '(_, B2, fromB) := destroy 0%nat B1 in
  let '(_, A2, atA) := receive_all no_listeners (sent fromB) A1 in
  atB = [Emit {| emitter := Client; type := "stream";
                 args := [AStream 0%nat; AValue (VStr "file")] |};
         Emit {| emitter := Stream 0%nat; type := "data";
                 args := [AValue (VBytes hello)] |};
         Emit {| emitter := Stream 0%nat; type := "end"; args := [] |}] /\
  atA = [Emit {| emitter := Stream 0%nat; type := "close"; args := [] |}] /\
  _streams A2 = ∅ /\
  _streams B2 !! 0 = Some 0%nat.
Proof. vm_compute. repeat split; reflexivity. Qed.

(** A Data message for an identifier that was never opened. *)
Example unknown_stream_42 :
  onmessage no_listeners {| kind := 2; payload := VBytes hello; bonus := 42 |}
    (new_BinaryClient quiet_socket)
  = (Return tt, new_BinaryClient quiet_socket,
     [Emit {| emitter := Client; type := "error";
              args := [AValue (VStr "Received `data` message for unknown stream: 42")] |}]).
Proof. reflexivity. Qed.

Lemma bind_eq {A B} (m : M A) (k : A -> M B) (w : World) :
  (m ≫= k) w =
  match m w with
  | (Return a, w1, t1) => let '(o, w2, t2) := k a w1 in (o, w2, t1 ++ t2)
  | (Throw err, w1, t1) => (Throw err, w1, t1)
  end.
Proof. reflexivity. Qed.

Lemma bind_return {A B} (m : M A) (k : A -> M B) (w w1 : World) (a : A) (t1 : list Effect) :
  m w = (Return a, w1, t1) ->
  (m ≫= k) w = let '(o, w2, t2) := k a w1 in (o, w2, t1 ++ t2).
Proof. intros H. rewrite bind_eq, H. reflexivity. Qed.

Lemma get_ok {A} (f : BinaryStream -> A) (l : loc) (w : World) (s : BinaryStream) :
  heap w !! l = Some s -> get f l w = (Return (f s), w, []).
Proof. intros H. unfold get. rewrite bind_eq. simpl. rewrite H. reflexivity. Qed.

Lemma set_ok (f : BinaryStream -> BinaryStream) (l : loc) (w : World) (s : BinaryStream) :
  heap w !! l = Some s ->
  set f l w = (Return tt, set_heap (<[l := f s]> (heap w)) w, []).
Proof. intros H. unfold set. rewrite bind_eq. simpl. rewrite H. reflexivity. Qed.

Lemma lookup_set_heap (l : loc) (w : World) (s s' : BinaryStream) :
  heap w !! l = Some s ->
  heap (set_heap (<[l := s']> (heap w)) w) !! l = Some s'.
Proof.
  intros H. simpl. apply list_lookup_insert_eq. by eapply lookup_lt_Some.
Qed.

Lemma _write_eq (code : Z) (data : Value) (b : Z) (w : World) :
  _write code data b w =
  let message := {| kind := code; payload := data; bonus := b |} in
  (Return (strict_ne_false (send_returns (_socket w) message)), w, [Send message]).
Proof. reflexivity. Qed.

Lemma write_eq (l : loc) (data : Value) (w : World) (s : BinaryStream) :
  heap w !! l = Some s ->
  write l data w =
  if writable s then
    let message := {| kind := 2; payload := data; bonus := id s |} in
    (Return (negb (paused s) && strict_ne_false (send_returns (_socket w) message)),
     w, [Send message])
  else (Throw "Stream is not writable", w, []).
Proof.
  intros H. unfold write.
  rewrite (bind_return _ _ _ _ _ _ (get_ok writable l w s H)).
  destruct (writable s); [|reflexivity].
  rewrite (bind_return _ _ _ _ _ _ (get_ok id l w s H)).
  rewrite (bind_return _ _ _ _ _ _ (_write_eq _ _ _ _)).
  rewrite (bind_return _ _ _ _ _ _ (get_ok paused l w s H)).
  reflexivity.
Qed.

Lemma end_eq (l : loc) (w : World) (s : BinaryStream) :
  heap w !! l = Some s ->
  end_ l w =
  (Return tt, set_heap (<[l := set_readable false s]> (heap w)) w,
   [Send {| kind := 5; payload := VNull; bonus := id s |}]).
Proof.
  intros H. unfold end_.
  rewrite (bind_return _ _ _ _ _ _ (set_ok _ l w s H)).
  rewrite (bind_return _ _ _ _ _ _ (get_ok id l _ _ (lookup_set_heap l w s _ H))).
  rewrite (bind_return _ _ _ _ _ _ (_write_eq _ _ _ _)).
  reflexivity.
Qed.

Lemma visible_app (t1 t2 : list Effect) :
  visible (t1 ++ t2) = visible t1 ++ visible t2.
Proof. apply omap_app. Qed.

Lemma yields_bind {A B} (m : M A) (k : A -> M B) w a w1 v1 b w2 v2 :
  yields m w a w1 v1 -> yields (k a) w1 b w2 v2 ->
  yields (m ≫= k) w b w2 (v1 ++ v2).
Proof.
  intros (t1 & H1 & E1) (t2 & H2 & E2). exists (t1 ++ t2).
  rewrite (bind_return _ _ _ _ _ _ H1), H2, visible_app, E1, E2. done.
Qed.

Lemma yields_ret {A} (a : A) w : yields (ret a) w a w [].
Proof. by exists []. Qed.

Lemma yields_get {A} (f : BinaryStream -> A) l w s :
  heap w !! l = Some s -> yields (get f l) w (f s) w [].
Proof. intros H. exists []. by rewrite (get_ok f l w s H). Qed.

Lemma yields_set (f : BinaryStream -> BinaryStream) l w s :
  heap w !! l = Some s ->
  yields (set f l) w tt (set_heap (<[l := f s]> (heap w)) w) [].
Proof. intros H. exists []. by rewrite (set_ok f l w s H). Qed.

Lemma yields_modify (f : World -> World) w : yields (modify_world f) w tt (f w) [].
Proof. by exists []. Qed.

Lemma yields__write code data b w :
  yields (_write code data b) w
    (strict_ne_false (send_returns (_socket w) {| kind := code; payload := data; bonus := b |}))
    w [Send {| kind := code; payload := data; bonus := b |}].
Proof. by eexists. Qed.

Lemma yields_emit (L : Listeners) e ty a w :
  passive L ->
  yields (emit L e ty a) w tt w [Emit {| emitter := e; type := ty; args := a |}].
Proof.
  intros HL. destruct (HL {| emitter := e; type := ty; args := a |} w) as (t & Ht & Et).
  exists (Emit {| emitter := e; type := ty; args := a |} :: t). split.
  - unfold emit. rewrite bind_eq. simpl. rewrite Ht. reflexivity.
  - change (visible (?x :: t)) with (x :: visible t). by rewrite Et.
Qed.

Lemma yields__onClose (L : Listeners) l w s :
  passive L -> heap w !! l = Some s ->
  yields (_onClose L l) w tt (set_heap (<[l := closed s]> (heap w)) w)
    [Emit {| emitter := Stream l; type := "close"; args := [] |}].
Proof.
  intros HL H. unfold _onClose.
  change [?e] with ([] ++ [] ++ [e]).
  eapply yields_bind; [by apply yields_set|].
  eapply yields_bind;
    [apply (yields_set _ l _ _ (lookup_set_heap l w s _ H))|].
  simpl. rewrite list_insert_insert_eq. by apply yields_emit.
Qed.

Lemma yields_lookup_stream i w : yields (lookup_stream i) w (_streams w !! i) w [].
Proof. by exists []. Qed.

Lemma destroy_eq (l : loc) (w : World) (s : BinaryStream) :
  heap w !! l = Some s ->
  destroy l w =
  (Return tt, set_heap (<[l := closed s]> (heap w)) w,
   [Send {| kind := 6; payload := VNull; bonus := id s |}]).
Proof.
  intros H. unfold destroy.
  rewrite (bind_return _ _ _ _ _ _ (set_ok _ l w s H)).
  pose proof (lookup_set_heap l w s (set_readable false s) H) as H1.
  rewrite (bind_return _ _ _ _ _ _ (set_ok _ l _ _ H1)).
  simpl heap. rewrite list_insert_insert_eq.
  pose proof (lookup_set_heap l w s (closed s) H) as H2.
  rewrite (bind_return _ _ _ _ _ _ (get_ok id l _ _ H2)).
  rewrite (bind_return _ _ _ _ _ _ (_write_eq _ _ _ _)).
  reflexivity.
Qed.

(** The Close dispatch with arbitrary listeners: they run on the world in
    which both flags are already false, and the entry is deleted after they
    return (not if they throw). *)
Lemma onmessage_close_any_listeners (L : Listeners) (w : World) (i : Z) (l : loc)
    (s : BinaryStream) (p : Value) :
  _streams w !! i = Some l ->
  heap w !! l = Some s ->
  onmessage L {| kind := 6; payload := p; bonus := i |} w =
  let ev := {| emitter := Stream l; type := "close"; args := [] |} in
  match L ev (set_heap (<[l := closed s]> (heap w)) w) with
  | (Return _, w2, t) =>
      (Return tt, set_streams (delete i (_streams w2)) w2, Emit ev :: t)
  | (Throw err, w2, t) => (Throw err, w2, Emit ev :: t)
  end.
Proof.
  intros Hi Hl.
  change (onmessage L _) with
    (binaryStream ← lookup_stream i;
     match binaryStream with
     | Some l =>
         _onClose L l ;;
         modify_world (fun w => set_streams (delete i (_streams w)) w)
     | None => unknown_stream L "close" i
     end).
  rewrite bind_eq.
  change (lookup_stream i w) with (Return (_streams w !! i), w, @nil Effect).
  rewrite Hi. cbv iota beta. rewrite bind_eq. unfold _onClose.
  rewrite (bind_return _ _ _ _ _ _ (set_ok _ l w s Hl)).
  pose proof (lookup_set_heap l w s (set_readable false s) Hl) as H1.
  rewrite (bind_return _ _ _ _ _ _ (set_ok _ l _ _ H1)).
  simpl heap. rewrite list_insert_insert_eq.
  unfold emit. rewrite bind_eq. cbn [tell].
  fold (closed s).
  destruct (L _ _) as [[[[]|err] w2] t]; cbn; rewrite ?app_nil_r; reflexivity.
Qed.

Lemma no_listeners_passive : passive no_listeners.
Proof. intros e w. by exists []. Qed.

Lemma unknown_stream_yields (L : Listeners) name i w :
  passive L ->
  yields (unknown_stream L name i) w tt w
    [Emit {| emitter := Client; type := "error";
             args := [AValue (VStr ("Received `" +:+ name +:+
                        "` message for unknown stream: " +:+ pretty i))] |}].
Proof. intros HL. by apply yields_emit. Qed.

Lemma onmessage_close_known (L : Listeners) (w : World) (i : Z) (l : loc)
    (s : BinaryStream) (p : Value) :
  passive L -> _streams w !! i = Some l -> heap w !! l = Some s ->
  yields (onmessage L {| kind := 6; payload := p; bonus := i |}) w tt
    (set_streams (delete i (_streams w)) (set_heap (<[l := closed s]> (heap w)) w))
    [Emit {| emitter := Stream l; type := "close"; args := [] |}].
Proof.
  intros HL Hi Hl. unfold onmessage. simpl.
  change [?e] with ([] ++ [e] ++ []).
  eapply yields_bind; [apply yields_lookup_stream|]. rewrite Hi.
  eapply yields_bind; [by apply yields__onClose|].
  exact (yields_modify _ (set_heap (<[l := closed s]> (heap w)) w)).
Qed.

Lemma onmessage_close_unknown (L : Listeners) (w : World) (i : Z) (p : Value) :
  passive L -> _streams w !! i = None ->
  yields (onmessage L {| kind := 6; payload := p; bonus := i |}) w tt w
    [Emit {| emitter := Client; type := "error";
             args := [AValue (VStr ("Received `close` message for unknown stream: "
                                    +:+ pretty i))] |}].
Proof.
  intros HL Hi. unfold onmessage. simpl.
  change [?e] with ([] ++ [e]).
  eapply yields_bind; [apply yields_lookup_stream|]. rewrite Hi.
  by apply unknown_stream_yields.
Qed.

(** C5: processing a Close message for a registered identifier [i] sets the
    stream's [readable] and [writable] to false, emits [close] on it and
    removes [i] from the registry; a second Close for [i] emits only an
    [error] on the client (no [close], no exception) and changes nothing; and
    [destroy], called once or twice, emits no event and does not throw (each
    call sends one Close message).  Listeners are taken to be passive. *)
Theorem close_is_idempotent (L : Listeners) (w : World) (i : Z) (l : loc)
    (s : BinaryStream) (p : Value) :
  passive L ->
  _streams w !! i = Some l ->
  heap w !! l = Some s ->
  let close_i := {| kind := 6; payload := p; bonus := i |} in
  let w1 := set_streams (delete i (_streams w))
              (set_heap (<[l := closed s]> (heap w)) w) in
  (exists t,
     onmessage L close_i w = (Return tt, w1, t) /\
     visible t = [Emit {| emitter := Stream l; type := "close"; args := [] |}]) /\
  (heap w1 !! l = Some (closed s) /\
   readable (closed s) = false /\ writable (closed s) = false /\
   _streams w1 !! i = None) /\
  (exists t,
     onmessage L close_i w1 = (Return tt, w1, t) /\
     visible t =
       [Emit {| emitter := Client; type := "error";
                args := [AValue (VStr ("Received `close` message for unknown stream: "
                                       +:+ pretty i))] |}]) /\
  (let w2 := set_heap (<[l := closed s]> (heap w)) w in
   let close_sent := [Send {| kind := 6; payload := VNull; bonus := id s |}] in
   destroy l w = (Return tt, w2, close_sent) /\
   destroy l w2 = (Return tt, w2, close_sent)).
Proof.
  intros HL Hi Hl close_i w1.
  assert (_streams w1 !! i = None) as Hgone by apply lookup_delete_eq.
  split_and!.
  - by apply onmessage_close_known.
  - exact (lookup_set_heap l w s _ Hl).
  - reflexivity.
  - reflexivity.
  - exact Hgone.
  - by apply onmessage_close_unknown.
  - cbv zeta. split; [by apply destroy_eq|].
    pose proof (lookup_set_heap l w s (closed s) Hl) as Hl2.
    rewrite (destroy_eq l _ _ Hl2). simpl.
    by rewrite list_insert_insert_eq.
Qed.

Lemma close_is_idempotent_witness :
  let s := {| id := 1; readable := true; writable := true; paused := false |} in
  let w := {| heap := [s]; _streams := {[ 1 := 0%nat ]}; _nextId := 0;
              _socket := quiet_socket |} in
  let gone := {| heap := [closed s]; _streams := ∅; _nextId := 0;
                 _socket := quiet_socket |} in
  passive no_listeners /\
  _streams w !! 1 = Some 0%nat /\
  heap w !! 0%nat = Some s /\
  exists t,
    onmessage no_listeners {| kind := 6; payload := VNull; bonus := 1 |} gone
    = (Return tt, gone, t) /\
    visible t =
      [Emit {| emitter := Client; type := "error";
               args := [AValue (VStr "Received `close` message for unknown stream: 1")] |}].
Proof.
  intros s w gone.
  split; [exact no_listeners_passive|].
  split; [reflexivity|]. split; [reflexivity|].
  destruct (close_is_idempotent no_listeners w 1 0%nat s VNull
              no_listeners_passive eq_refl eq_refl) as (_ & _ & H & _).
  exact H.
Defined.

Lemma lookup_fresh (h : list BinaryStream) (s : BinaryStream) :
  (h ++ [s]) !! length h = Some s.
Proof. by rewrite list_lookup_middle. Qed.

Lemma new_BinaryStream_eq (i : Z) (create : bool) (meta : Value) (w : World) :
  new_BinaryStream i create meta w =
  (Return (length (heap w)), set_heap (heap w ++ [fresh i]) w,
   if create then [Send {| kind := 1; payload := meta; bonus := i |}] else []).
Proof.
  unfold new_BinaryStream. rewrite bind_eq. cbn [get_world].
  rewrite bind_eq. cbn [modify_world].
  destruct create; [|reflexivity].
  rewrite bind_eq.
  assert (heap (set_heap (heap w ++ [fresh i]) w) !! length (heap w) = Some (fresh i))
    as Hl by apply lookup_fresh.
  rewrite (bind_return _ _ _ _ _ _ (get_ok id _ _ _ Hl)).
  rewrite (bind_return _ _ _ _ _ _ (_write_eq _ _ _ _)).
  reflexivity.
Qed.

Lemma _receiveStream_eq (i : Z) (w : World) :
  _receiveStream i w =
  (Return (length (heap w)),
   set_streams (<[i := length (heap w)]> (_streams w)) (set_heap (heap w ++ [fresh i]) w),
   []).
Proof.
  unfold _receiveStream.
  rewrite (bind_return _ _ _ _ _ _ (new_BinaryStream_eq _ _ _ _)).
  reflexivity.
Qed.

Lemma createStream_eq (meta : Value) (w : World) :
  createStream meta w =
  (Return (length (heap w)),
   set_streams (<[_nextId w := length (heap w)]> (_streams w))
     (set_heap (heap w ++ [fresh (_nextId w)]) (set_nextId (add_two (_nextId w)) w)),
   [Send {| kind := 1; payload := meta; bonus := _nextId w |}]).
Proof.
  unfold createStream. rewrite bind_eq. cbn [get_world].
  rewrite bind_eq. cbn [modify_world].
  rewrite (bind_return _ _ _ _ _ _ (new_BinaryStream_eq _ _ _ _)).
  reflexivity.
Qed.

Lemma onmessage_open (L : Listeners) (w : World) (i : Z) (meta : Value) :
  passive L ->
  yields (onmessage L {| kind := 1; payload := meta; bonus := i |}) w tt
    (set_streams (<[i := length (heap w)]> (_streams w))
       (set_heap (heap w ++ [fresh i]) w))
    [Emit {| emitter := Client; type := "stream";
             args := [AStream (length (heap w)); AValue meta] |}].
Proof.
  intros HL. unfold onmessage. simpl.
  change [?e] with ([] ++ [e]).
  eapply yields_bind; [exists []; split; [apply _receiveStream_eq|reflexivity]|].
  by apply yields_emit.
Qed.

(** C10: a StreamOpen message for an identifier [i] that is already registered
    emits nothing but the client's [stream] event (no error, nothing on the
    stream registered before): a fresh stream, readable and writable, is
    stored and takes over the registry entry of [i]; the displaced object is
    another one and is left exactly as it was. *)
Theorem stream_open_replaces (L : Listeners) (w : World) (i : Z) (l0 : loc)
    (meta : Value) :
  passive L ->
  _streams w !! i = Some l0 ->
  (l0 < length (heap w))%nat ->
  let l := length (heap w) in
  let w' := set_streams (<[i := l]> (_streams w)) (set_heap (heap w ++ [fresh i]) w) in
  let open_i := {| kind := 1; payload := meta; bonus := i |} in
  let announced :=
    [Emit {| emitter := Client; type := "stream"; args := [AStream l; AValue meta] |}] in
  (exists t, onmessage L open_i w = (Return tt, w', t) /\ visible t = announced) /\
  onmessage no_listeners open_i w = (Return tt, w', announced) /\
  _streams w' !! i = Some l /\
  heap w' !! l = Some (fresh i) /\
  l <> l0 /\
  heap w' !! l0 = heap w !! l0.
Proof.
  intros HL Hi Hl0 l w' open_i announced.
  split_and!.
  - by apply onmessage_open.
  - unfold onmessage. simpl.
    rewrite (bind_return _ _ _ _ _ _ (_receiveStream_eq _ _)). reflexivity.
  - apply lookup_insert_eq.
  - apply lookup_fresh.
  - unfold l. lia.
  - simpl. by apply lookup_app_l.
Qed.

Lemma stream_open_replaces_witness :
  let s := {| id := 1; readable := false; writable := true; paused := true |} in
  let w := {| heap := [s]; _streams := {[ 1 := 0%nat ]}; _nextId := 0;
              _socket := quiet_socket |} in
  passive no_listeners /\
  _streams w !! 1 = Some 0%nat /\
  (0 < length (heap w))%nat /\
  onmessage no_listeners {| kind := 1; payload := VStr "file"; bonus := 1 |} w
  = (Return tt,
     {| heap := [s; fresh 1]; _streams := {[ 1 := 1%nat ]}; _nextId := 0;
        _socket := quiet_socket |},
     [Emit {| emitter := Client; type := "stream";
              args := [AStream 1%nat; AValue (VStr "file")] |}]).
Proof.
  intros s w.
  split; [exact no_listeners_passive|].
  split; [reflexivity|]. split; [simpl; lia|].
  destruct (stream_open_replaces no_listeners w 1 0%nat (VStr "file")
              no_listeners_passive eq_refl ltac:(simpl; lia)) as (_ & H & _).
  exact H.
Defined.

Lemma yields_isolated (m : M unit) w w' v :
  yields m w tt w' v -> yields (isolated m) w tt w' v.
Proof. intros (t & H & E). exists t. unfold isolated. by rewrite H. Qed.

Lemma yields_stream_onclose (L : Listeners) code message l w s :
  passive L -> heap w !! l = Some s ->
  yields (stream_onclose L code message l) w tt
    (set_heap (<[l := closed s]> (heap w)) w)
    [Emit {| emitter := Stream l; type := "close";
             args := [AValue code; AValue message] |}].
Proof.
  intros HL H. unfold stream_onclose.
  change [?e] with ([] ++ [] ++ [e]).
  eapply yields_bind; [by apply yields_set|].
  eapply yields_bind;
    [apply (yields_set _ l _ _ (lookup_set_heap l w s _ H))|].
  simpl. rewrite list_insert_insert_eq. by apply yields_emit.
Qed.

Lemma set_heap_id w : set_heap (heap w) w = w.
Proof. by destruct w. Qed.

Lemma close_from_step (h : list BinaryStream) (a : nat) (s : BinaryStream) :
  h !! a = Some s ->
  take (S a) (<[a := closed s]> h) ++ (closed <$> drop (S a) (<[a := closed s]> h))
  = take a h ++ (closed <$> drop a h).
Proof.
  intros H. pose proof (lookup_lt_Some _ _ _ H) as Hlt.
  rewrite (drop_S h s a H). rewrite insert_take_drop by done.
  assert (length (take a h) = a) as Hlen by (rewrite length_take; lia).
  rewrite (take_app_ge (take a h)) by lia.
  rewrite (drop_app_ge (take a h)) by lia.
  rewrite Hlen. replace (S a - a)%nat with 1%nat by lia.
  simpl. rewrite drop_0, take_0. rewrite <- app_assoc. reflexivity.
Qed.

Lemma for_each_onclose (L : Listeners) code message :
  passive L ->
  forall (k a : nat) (w : World),
  (a + k)%nat = length (heap w) ->
  yields (for_each (seq a k) (stream_onclose L code message)) w tt
    (set_heap (take a (heap w) ++ (closed <$> drop a (heap w))) w)
    (map (fun l => Emit {| emitter := Stream l; type := "close";
                           args := [AValue code; AValue message] |}) (seq a k)).
Proof.
  intros HL. induction k as [|k IH]; intros a w Hlen.
  - simpl. rewrite drop_ge, take_ge by lia. simpl. rewrite app_nil_r, set_heap_id.
    apply yields_ret.
  - destruct (lookup_lt_is_Some_2 (heap w) a ltac:(lia)) as [s Hs].
    cbn [seq for_each map].
    change (?e :: ?es) with ([e] ++ es).
    eapply yields_bind.
    { apply yields_isolated. by apply yields_stream_onclose. }
    specialize (IH (S a) (set_heap (<[a := closed s]> (heap w)) w)).
    simpl heap in IH. rewrite length_insert in IH.
    specialize (IH ltac:(lia)).
    rewrite (close_from_step _ _ _ Hs) in IH. exact IH.
Qed.

Lemma socket_close_yields (L : Listeners) (w : World) (code message : Value) :
  passive L ->
  yields (socket_close L code message) w tt (set_heap (closed <$> heap w) w)
    (Emit {| emitter := Client; type := "close";
             args := [AValue code; AValue message] |}
     :: map (fun l => Emit {| emitter := Stream l; type := "close";
                              args := [AValue code; AValue message] |})
          (seq 0 (length (heap w)))).
Proof.
  intros HL. unfold socket_close.
  change (?e :: ?es) with ([] ++ [e] ++ es).
  eapply yields_bind; [exists []; split; reflexivity|].
  eapply yields_bind; [apply yields_isolated; by apply yields_emit|].
  pose proof (for_each_onclose L code message HL (length (heap w)) 0 w eq_refl) as H.
  rewrite take_0, drop_0 in H. exact H.
Qed.

(** C9, as stated, fails: the registry is not empty after the transport
    closed. *)
Lemma registry_survives_transport_close :
  ~ (forall (L : Listeners) (w : World) (code message : Value) o w' t,
       socket_close L code message w = (o, w', t) -> _streams w' = ∅).
Proof.
  intros H.
  specialize (H no_listeners
    {| heap := [fresh 0]; _streams := {[ 0 := 0%nat ]}; _nextId := 2;
       _socket := quiet_socket |} (VNum 1000) (VStr "bye") _ _ _ eq_refl).
  apply (f_equal (fun m => m !! 0)) in H. discriminate H.
Qed.

(** C9, amended: when the transport closes, the client emits [close] and
    then every stream object built on the socket, hence every registered
    stream, is marked neither readable nor writable and emits [close]; the
    registry keeps all its entries. *)
Theorem transport_close_cascades (L : Listeners) (w : World) (code message : Value) :
  passive L ->
  let close_on (e : Emitter) :=
    Emit {| emitter := e; type := "close"; args := [AValue code; AValue message] |} in
  let w' := set_heap (closed <$> heap w) w in
  exists t,
    socket_close L code message w = (Return tt, w', t) /\
    visible t = close_on Client :: map (fun l => close_on (Stream l)) (seq 0 (length (heap w))) /\
    _streams w' = _streams w /\
    forall i l, _streams w !! i = Some l -> (l < length (heap w))%nat ->
      _streams w' !! i = Some l /\
      In (close_on (Stream l)) (visible t) /\
      exists s, heap w' !! l = Some s /\ readable s = false /\ writable s = false.
Proof.
  intros HL close_on w'.
  destruct (socket_close_yields L w code message HL) as (t & Ht & Et).
  exists t. split_and!; try done.
  intros i l Hi Hl. split_and!; [exact Hi| |].
  - rewrite Et. right. apply in_map_iff. exists l. split; [done|].
    apply in_seq. lia.
  - destruct (lookup_lt_is_Some_2 (heap w) l Hl) as [s Hs].
    exists (closed s). split; [|done].
    simpl. by rewrite list_lookup_fmap, Hs.
Qed.

Lemma transport_close_cascades_witness :
  let w := {| heap := [fresh 0; fresh 2]; _streams := {[ 0 := 0%nat; 2 := 1%nat ]};
              _nextId := 4; _socket := quiet_socket |} in
  passive no_listeners /\
  exists t,
    socket_close no_listeners (VNum 1000) VUndefined w
    = (Return tt, set_heap [closed (fresh 0); closed (fresh 2)] w, t) /\
    _streams (set_heap [closed (fresh 0); closed (fresh 2)] w) !! 2 = Some 1%nat.
Proof.
  intros w. split; [exact no_listeners_passive|].
  destruct (transport_close_cascades no_listeners w (VNum 1000) VUndefined
              no_listeners_passive) as (t & Ht & _).
  exists t. split; [exact Ht|reflexivity].
Defined.

Lemma stable_ret {A} (a : A) : stable (ret a).
Proof. intros w o w' t [= <- <- <-]. done. Qed.

Lemma stable_throw {A} (err : string) : stable (@throw A err).
Proof. intros w o w' t [= <- <- <-]. done. Qed.

Lemma stable_tell (t0 : list Effect) : stable (tell t0).
Proof. intros w o w' t [= <- <- <-]. done. Qed.

Lemma stable_get_world : stable get_world.
Proof. intros w o w' t [= <- <- <-]. done. Qed.

Lemma stable_bind {A B} (m : M A) (k : A -> M B) :
  stable m -> (forall a, stable (k a)) -> stable (m ≫= k).
Proof.
  intros Hm Hk w o w' t. rewrite bind_eq.
  destruct (m w) as [[[a|err] w1] t1] eqn:E1.
  - destruct (k a w1) as [[o2 w2] t2] eqn:E2. intros [= <- <- <-].
    destruct (Hm _ _ _ _ E1) as (? & ? & ? & ?).
    destruct (Hk a _ _ _ _ E2) as (? & ? & ? & ?).
    split_and!; congruence.
  - intros [= <- <- <-]. exact (Hm _ _ _ _ E1).
Qed.

Lemma stable_get {A} (f : BinaryStream -> A) (l : loc) : stable (get f l).
Proof.
  unfold get. apply stable_bind; [apply stable_get_world|].
  intros w. destruct (heap w !! l); [apply stable_ret|apply stable_throw].
Qed.

Lemma stable_set (f : BinaryStream -> BinaryStream) (l : loc) : stable (set f l).
Proof.
  intros w o w' t. unfold set. rewrite bind_eq. simpl.
  destruct (heap w !! l) as [s|].
  - intros [= <- <- <-]. simpl. by rewrite length_insert.
  - intros [= <- <- <-]. done.
Qed.

Lemma stable__write (code : Z) (data : Value) (b : Z) : stable (_write code data b).
Proof. intros w o w' t [= <- <- <-]. done. Qed.

Lemma stable_lookup_stream (i : Z) : stable (lookup_stream i).
Proof. intros w o w' t [= <- <- <-]. done. Qed.

Lemma stable_emit (L : Listeners) e ty a : passive L -> stable (emit L e ty a).
Proof.
  intros HL w o w' t H.
  destruct (yields_emit L e ty a w HL) as (t0 & H0 & _).
  rewrite H0 in H. by injection H as <- <- <-.
Qed.

Lemma stable_isolated (m : M unit) : stable m -> stable (isolated m).
Proof.
  intros Hm w o w' t. unfold isolated.
  destruct (m w) as [[o1 w1] t1] eqn:E. intros [= <- <- <-]. exact (Hm _ _ _ _ E).
Qed.

Lemma stable_for_each (ls : list loc) (f : loc -> M unit) :
  (forall l, stable (f l)) -> stable (for_each ls f).
Proof.
  intros Hf. induction ls as [|l ls IH]; simpl.
  - apply stable_ret.
  - apply stable_bind; [by apply stable_isolated|]. intros _. exact IH.
Qed.

Create HintDb stable.
#[local] Hint Resolve stable_ret stable_throw stable_tell stable_get_world
  stable_get stable_set stable__write stable_lookup_stream stable_emit
  stable_isolated stable_for_each : stable.

Ltac stable_steps :=
  repeat first
    [ solve [auto with stable]
    | match goal with
      | |- stable (if ?b then _ else _) => destruct b
      | |- stable (match ?o with Some _ => _ | None => _ end) => destruct o
      end
    | apply stable_bind; [|intros ?] ].

Lemma stable_write (l : loc) (data : Value) : stable (write l data).
Proof. unfold write. stable_steps. Qed.

Lemma stable_end (l : loc) : stable (end_ l).
Proof. unfold end_. stable_steps. Qed.

Lemma stable_destroy (l : loc) : stable (destroy l).
Proof. unfold destroy. stable_steps. Qed.

Section StableHandlers.

Variable L : Listeners.
Hypothesis HL : passive L.

Lemma stable__onClose (l : loc) : stable (_onClose L l).
Proof. unfold _onClose. stable_steps. Qed.

Lemma stable__onPause (l : loc) : stable (_onPause L l).
Proof. unfold _onPause. stable_steps. Qed.

Lemma stable__onResume (l : loc) : stable (_onResume L l).
Proof. unfold _onResume. stable_steps. Qed.

Lemma stable__onEnd (l : loc) : stable (_onEnd L l).
Proof. unfold _onEnd. stable_steps. Qed.

Lemma stable__onData (l : loc) (data : Value) : stable (_onData L l data).
Proof. unfold _onData. stable_steps. Qed.

Lemma stable_pause (l : loc) : stable (pause L l).
Proof. unfold pause. pose proof stable__onPause. stable_steps. Qed.

Lemma stable_resume (l : loc) : stable (resume L l).
Proof. unfold resume. pose proof stable__onResume. stable_steps. Qed.

Lemma stable_unknown_stream (name : string) (i : Z) : stable (unknown_stream L name i).
Proof. unfold unknown_stream. stable_steps. Qed.

Lemma stable_socket_close (code message : Value) : stable (socket_close L code message).
Proof.
  unfold socket_close. stable_steps.
  apply stable_for_each. intros l. unfold stream_onclose. stable_steps.
Qed.

Lemma stable_socket_error (error : Value) : stable (socket_error L error).
Proof.
  unfold socket_error. stable_steps.
  apply stable_for_each. intros l. unfold stream_onerror. stable_steps.
Qed.

Lemma stable_socket_open : stable (socket_open L).
Proof. unfold socket_open. stable_steps. Qed.

End StableHandlers.

Lemma onmessage_frame (L : Listeners) (data : Message) (w w' : World) o t :
  passive L ->
  registry_ok w ->
  onmessage L data w = (o, w', t) ->
  _streams w' =
    (if kind data =? 1 then <[bonus data := length (heap w)]> (_streams w)
     else if kind data =? 6 then delete (bonus data) (_streams w)
     else _streams w) /\
  length (heap w') =
    (if kind data =? 1 then S (length (heap w)) else length (heap w)).
Proof.
  intros HL Hok. destruct data as [k p b]. cbn [kind bonus].
  assert (forall (h : loc -> M unit) name,
    (forall l, stable (h l)) ->
    stable (binaryStream ← lookup_stream b;
            match binaryStream with
            | Some l => h l
            | None => unknown_stream L name b
            end)) as Hfwd.
  { intros h name Hh. pose proof (stable_unknown_stream L HL). stable_steps. }
  assert (forall m : M unit, stable m -> m w = (o, w', t) ->
            _streams w' = _streams w /\ length (heap w') = length (heap w)) as Hst.
  { intros m Hm H. by destruct (Hm _ _ _ _ H) as (? & ? & _). }
  destruct (decide (k = 0)) as [->|N0].
  { by intros [= <- <- <-]. }
  destruct (decide (k = 1)) as [->|N1].
  { destruct (onmessage_open L w b p HL) as (t0 & -> & _). intros [= <- <- <-].
    simpl. rewrite length_app. simpl. split; [done|lia]. }
  destruct (decide (k = 2)) as [->|N2].
  { apply (Hst _ (Hfwd (fun l => _onData L l p) "data"
                    (fun l => stable__onData L HL l p))). }
  destruct (decide (k = 3)) as [->|N3].
  { apply (Hst _ (Hfwd (_onPause L) "pause" (stable__onPause L HL))). }
  destruct (decide (k = 4)) as [->|N4].
  { apply (Hst _ (Hfwd (_onResume L) "resume" (stable__onResume L HL))). }
  destruct (decide (k = 5)) as [->|N5].
  { apply (Hst _ (Hfwd (_onEnd L) "end" (stable__onEnd L HL))). }
  destruct (decide (k = 6)) as [->|N6].
  { destruct (_streams w !! b) as [l|] eqn:El.
    - destruct (lookup_lt_is_Some_2 (heap w) l (Hok _ _ El)) as [s Hs].
      destruct (onmessage_close_known L w b l s p HL El Hs) as (t0 & -> & _).
      intros [= <- <- <-]. simpl. by rewrite length_insert.
    - destruct (onmessage_close_unknown L w b p HL El) as (t0 & -> & _).
      intros [= <- <- <-]. simpl. by rewrite delete_id. }
  unfold onmessage. cbn [kind bonus payload].
  rewrite !(proj2 (Z.eqb_neq _ _)) by done.
  apply Hst. by apply stable_emit.
Qed.

Lemma perform_frame (L : Listeners) (op : Op) (w w' : World) o t :
  passive L ->
  registry_ok w ->
  perform L op w = (o, w', t) ->
  _streams w' =
    match op with
    | CreateStream _ => <[_nextId w := length (heap w)]> (_streams w)
    | Receive data =>
        if kind data =? 1 then <[bonus data := length (heap w)]> (_streams w)
        else if kind data =? 6 then delete (bonus data) (_streams w)
        else _streams w
    | _ => _streams w
    end /\
  length (heap w') =
    match op with
    | CreateStream _ => S (length (heap w))
    | Receive data => if kind data =? 1 then S (length (heap w)) else length (heap w)
    | _ => length (heap w)
    end.
Proof.
  intros HL Hok.
  assert (forall m : M unit, stable m -> m w = (o, w', t) ->
            _streams w' = _streams w /\ length (heap w') = length (heap w)) as Hst.
  { intros m Hm H. by destruct (Hm _ _ _ _ H) as (? & ? & _). }
  destruct op; cbn [perform].
  - rewrite (bind_return _ _ _ _ _ _ (createStream_eq _ _)).
    intros [= <- <- <-]. simpl. rewrite length_app. simpl. split; [done|lia].
  - apply Hst. apply stable_tell.
  - apply Hst. pose proof stable_write. stable_steps.
  - apply Hst. apply stable_end.
  - apply Hst. apply stable_destroy.
  - apply Hst. by apply stable_pause.
  - apply Hst. by apply stable_resume.
  - by apply onmessage_frame.
  - apply Hst. by apply stable_socket_open.
  - apply Hst. by apply stable_socket_error.
  - apply Hst. by apply stable_socket_close.
Qed.

Lemma perform_registry_ok (L : Listeners) (op : Op) (w w' : World) o t :
  passive L ->
  registry_ok w ->
  perform L op w = (o, w', t) ->
  registry_ok w'.
Proof.
  intros HL Hok H. destruct (perform_frame L op w w' o t HL Hok H) as [Hr Hh].
  intros i l. rewrite Hr, Hh. clear Hr Hh H.
  assert (forall j, <[j := length (heap w)]> (_streams w) !! i = Some l ->
                    (l < S (length (heap w)))%nat) as Hins.
  { intros j. rewrite lookup_insert. case_decide.
    - intros [= <-]. lia.
    - intros Hi. specialize (Hok _ _ Hi). lia. }
  destruct op; try exact (Hok i l); try apply Hins.
  destruct (kind data =? 1); [apply Hins|].
  destruct (kind data =? 6); [|exact (Hok i l)].
  rewrite lookup_delete. case_decide; [done|exact (Hok i l)].
Qed.

Lemma perform_all_registry_ok (L : Listeners) (ops : list Op) :
  passive L ->
  forall (w w' : World) o t,
  registry_ok w ->
  perform_all L ops w = (o, w', t) ->
  registry_ok w'.
Proof.
  intros HL. induction ops as [|op ops IH]; intros w w' o t Hok; simpl.
  - by intros [= <- <- <-].
  - rewrite bind_eq. unfold isolated at 1.
    destruct (perform L op w) as [[o1 w1] t1] eqn:E1.
    destruct (perform_all L ops w1) as [[o2 w2] t2] eqn:E2.
    intros [= <- <- <-]. eapply IH; [|exact E2].
    eapply perform_registry_ok; eauto.
Qed.

Lemma new_client_registry_ok (socket : Socket) : registry_ok (new_BinaryClient socket).
Proof. intros i l. simpl. by rewrite lookup_empty. Qed.

(** So the registry of a client that started empty always refers to
    existing stream objects. *)
Lemma reachable_registry_ok (L : Listeners) (socket : Socket) (ops : list Op)
    (w : World) o t :
  passive L ->
  perform_all L ops (new_BinaryClient socket) = (o, w, t) ->
  registry_ok w.
Proof.
  intros HL H.
  eapply perform_all_registry_ok; [exact HL|apply new_client_registry_ok|exact H].
Qed.

(** C4, as stated, fails: after a local [destroy] the identifier is still
    registered. *)
Lemma destroy_keeps_registry_entry :
  ~ (forall (w : World) (l : loc) (s : BinaryStream) o w' t,
       registry_ok w ->
       heap w !! l = Some s ->
       _streams w !! id s = Some l ->
       destroy l w = (o, w', t) ->
       _streams w' !! id s = None).
Proof.
  intros H.
  assert (registry_ok
            {| heap := [fresh 0]; _streams := {[ 0 := 0%nat ]}; _nextId := 2;
               _socket := quiet_socket |}) as Hok.
  { intros i l. simpl. rewrite lookup_singleton_Some. intros [_ <-]. lia. }
  specialize (H _ 0%nat (fresh 0) _ _ _ Hok eq_refl eq_refl eq_refl).
  discriminate H.
Qed.

(** C4, amended: an operation changes the registry only as follows:
    [createStream] adds the next local identifier, a received StreamOpen adds
    (or takes over) its identifier, a received Close removes its identifier;
    every other operation, the local [destroy] included, leaves the registry
    as it is.  So an entry disappears only by a received Close, and a new
    entry is always the stream object just built. *)
Theorem registry_changes (L : Listeners) (op : Op) (w w' : World)
    (o : Outcome unit) (t : list Effect) :
  passive L ->
  registry_ok w ->
  perform L op w = (o, w', t) ->
  _streams w' =
    match op with
    | CreateStream _ => <[_nextId w := length (heap w)]> (_streams w)
    | Receive data =>
        if kind data =? 1 then <[bonus data := length (heap w)]> (_streams w)
        else if kind data =? 6 then delete (bonus data) (_streams w)
        else _streams w
    | _ => _streams w
    end /\
  (forall i, is_Some (_streams w !! i) -> _streams w' !! i = None ->
     exists p, op = Receive {| kind := 6; payload := p; bonus := i |}) /\
  (forall i l, _streams w' !! i = Some l -> _streams w !! i <> Some l ->
     l = length (heap w) /\
     ((exists meta, op = CreateStream meta /\ i = _nextId w) \/
      (exists meta, op = Receive {| kind := 1; payload := meta; bonus := i |}))).
Proof.
  intros HL Hok H.
  destruct (perform_frame L op w w' o t HL Hok H) as [Hr _].
  split; [exact Hr|]. rewrite Hr. clear Hr H. split.
  - intros i [l Hi] Hnone.
    destruct op; try congruence.
    + rewrite lookup_insert in Hnone. case_decide; congruence.
    + destruct data as [k p b]. cbn [kind bonus] in *.
      destruct (k =? 1) eqn:E1.
      { rewrite lookup_insert in Hnone. case_decide; congruence. }
      destruct (k =? 6) eqn:E6; [|congruence].
      apply Z.eqb_eq in E6 as ->.
      rewrite lookup_delete in Hnone. case_decide; [|congruence].
      subst b. by exists p.
  - intros i l Hnew Hold.
    destruct op; try done.
    + rewrite lookup_insert in Hnew. case_decide; [|done].
      injection Hnew as <-. split; [done|]. left. by exists meta.
    + destruct data as [k p b]. cbn [kind bonus] in *.
      destruct (k =? 1) eqn:E1.
      { apply Z.eqb_eq in E1 as ->.
        rewrite lookup_insert in Hnew. case_decide; [|done].
        injection Hnew as <-. subst b. split; [done|]. right. by exists p. }
      destruct (k =? 6) eqn:E6; [|done].
      rewrite lookup_delete in Hnew. case_decide; done.
Qed.

Lemma registry_changes_witness :
  let w0 := {| heap := [fresh 0]; _streams := {[ 0 := 0%nat ]}; _nextId := 2;
               _socket := quiet_socket |} in
  let w1 := set_heap [closed (fresh 0)] w0 in
  let t := [Send {| kind := 6; payload := VNull; bonus := 0 |}] in
  passive no_listeners /\
  registry_ok w0 /\
  perform no_listeners (StreamDestroy 0%nat) w0 = (Return tt, w1, t) /\
  _streams w1 = _streams w0.
Proof.
  intros w0 w1 t.
  assert (registry_ok w0) as Hok.
  { intros i l. simpl. rewrite lookup_singleton_Some. intros [_ <-]. lia. }
  split; [exact no_listeners_passive|]. split; [exact Hok|]. split; [reflexivity|].
  exact (proj1 (registry_changes no_listeners (StreamDestroy 0%nat) w0 w1 (Return tt) t
                  no_listeners_passive Hok eq_refl)).
Defined.

Lemma yields__onPause (L : Listeners) l w s :
  passive L -> heap w !! l = Some s ->
  yields (_onPause L l) w tt (set_heap (<[l := set_paused true s]> (heap w)) w)
    [Emit {| emitter := Stream l; type := "pause"; args := [] |}].
Proof.
  intros HL H. unfold _onPause.
  change [?e] with ([e] ++ []).
  eapply yields_bind; [by apply yields_emit|]. by apply yields_set.
Qed.

Lemma yields__onResume (L : Listeners) l w s :
  passive L -> heap w !! l = Some s ->
  yields (_onResume L l) w tt (set_heap (<[l := set_paused false s]> (heap w)) w)
    [Emit {| emitter := Stream l; type := "resume"; args := [] |};
     Emit {| emitter := Stream l; type := "drain"; args := [] |}].
Proof.
  intros HL H. unfold _onResume.
  change [?e1; ?e2] with ([e1] ++ [e2] ++ []).
  eapply yields_bind; [by apply yields_emit|].
  eapply yields_bind; [by apply yields_emit|]. by apply yields_set.
Qed.

Lemma yields_pause (L : Listeners) l w s :
  passive L -> heap w !! l = Some s ->
  yields (pause L l) w tt (set_heap (<[l := set_paused true s]> (heap w)) w)
    [Emit {| emitter := Stream l; type := "pause"; args := [] |};
     Send {| kind := 3; payload := VNull; bonus := id s |}].
Proof.
  intros HL H. unfold pause.
  change [?e1; ?e2] with ([e1] ++ [] ++ [e2] ++ []).
  eapply yields_bind; [by apply yields__onPause|].
  eapply yields_bind;
    [apply (yields_get id l _ _ (lookup_set_heap l w s _ H))|].
  eapply yields_bind; [apply yields__write|]. apply yields_ret.
Qed.

Lemma yields_resume (L : Listeners) l w s :
  passive L -> heap w !! l = Some s ->
  yields (resume L l) w tt (set_heap (<[l := set_paused false s]> (heap w)) w)
    [Emit {| emitter := Stream l; type := "resume"; args := [] |};
     Emit {| emitter := Stream l; type := "drain"; args := [] |};
     Send {| kind := 4; payload := VNull; bonus := id s |}].
Proof.
  intros HL H. unfold resume.
  change [?e1; ?e2; ?e3] with ([e1; e2] ++ [] ++ [e3] ++ []).
  eapply yields_bind; [by apply yields__onResume|].
  eapply yields_bind;
    [apply (yields_get id l _ _ (lookup_set_heap l w s _ H))|].
  eapply yields_bind; [apply yields__write|]. apply yields_ret.
Qed.

Lemma onmessage_pause_known (L : Listeners) w i l s p :
  passive L -> _streams w !! i = Some l -> heap w !! l = Some s ->
  yields (onmessage L {| kind := 3; payload := p; bonus := i |}) w tt
    (set_heap (<[l := set_paused true s]> (heap w)) w)
    [Emit {| emitter := Stream l; type := "pause"; args := [] |}].
Proof.
  intros HL Hi Hl. unfold onmessage. simpl.
  change [?e] with ([] ++ [e]).
  eapply yields_bind; [apply yields_lookup_stream|]. rewrite Hi.
  by apply yields__onPause.
Qed.

Lemma onmessage_resume_known (L : Listeners) w i l s p :
  passive L -> _streams w !! i = Some l -> heap w !! l = Some s ->
  yields (onmessage L {| kind := 4; payload := p; bonus := i |}) w tt
    (set_heap (<[l := set_paused false s]> (heap w)) w)
    [Emit {| emitter := Stream l; type := "resume"; args := [] |};
     Emit {| emitter := Stream l; type := "drain"; args := [] |}].
Proof.
  intros HL Hi Hl. unfold onmessage. simpl.
  change [?e1; ?e2] with ([] ++ [e1; e2]).
  eapply yields_bind; [apply yields_lookup_stream|]. rewrite Hi.
  by apply yields__onResume.
Qed.

(** C3, as stated, fails: after a local [pause], [write] returns false
    although the peer sent no Pause and [send] reported no backpressure. *)
Lemma write_false_without_peer_pause :
  ~ (forall (L : Listeners) (socket : Socket) (history : list Op)
            (w : World) (t : list Effect) (l : loc) (s : BinaryStream) (data : Value),
       perform_all L history (new_BinaryClient socket) = (Return tt, w, t) ->
       heap w !! l = Some s ->
       writable s = true ->
       exists out w' t',
         write l data w = (Return out, w', t') /\
         (out = false <->
          send_returns socket {| kind := 2; payload := data; bonus := id s |} = VBool false
          \/ paused_by_peer (id s) history = true)).
Proof.
  intros H.
  destruct (H no_listeners quiet_socket [CreateStream VNull; StreamPause 0%nat]
              _ _ 0%nat _ VNull eq_refl eq_refl eq_refl)
    as (out & w' & t' & Hw & Hiff).
  injection Hw as <- _ _.
  destruct Hiff as [Hf _]. destruct (Hf eq_refl) as [Hx|Hx]; discriminate Hx.
Qed.

(** C3, amended: [write] throws exactly when [writable] is false; otherwise
    it sends one Data message with the stream's identifier and returns false
    exactly when [send] returned [false] or the stream's [paused] flag is
    set.  The flag is set by a received Pause and equally by a local
    [pause], and cleared by a received Resume and by a local [resume]. *)
Theorem write_result (L : Listeners) (w : World) (l : loc) (s : BinaryStream)
    (data : Value) :
  heap w !! l = Some s ->
  let message := {| kind := 2; payload := data; bonus := id s |} in
  ((exists err w' t, write l data w = (Throw err, w', t)) <-> writable s = false) /\
  (writable s = false ->
     write l data w = (Throw "Stream is not writable", w, [])) /\
  (writable s = true ->
     exists out,
       write l data w = (Return out, w, [Send message]) /\
       (out = false <->
        send_returns (_socket w) message = VBool false \/ paused s = true)) /\
  (passive L ->
     let paused_is (b : bool) := set_heap (<[l := set_paused b s]> (heap w)) w in
     (exists t, pause L l w = (Return tt, paused_is true, t)) /\
     (exists t, resume L l w = (Return tt, paused_is false, t)) /\
     forall i p, _streams w !! i = Some l ->
       (exists t, onmessage L {| kind := 3; payload := p; bonus := i |} w
                  = (Return tt, paused_is true, t)) /\
       (exists t, onmessage L {| kind := 4; payload := p; bonus := i |} w
                  = (Return tt, paused_is false, t))).
Proof.
  intros Hl message. rewrite (write_eq l data w s Hl).
  split_and!.
  - destruct (writable s); split.
    + intros (err & w' & t & H). discriminate H.
    + discriminate.
    + done.
    + intros _. by eexists _, _, _.
  - by intros ->.
  - intros ->. eexists. split; [reflexivity|].
    fold message.
    destruct (paused s), (send_returns (_socket w) message) as [| |[]| | |];
      simpl; split; try done; try (intros [?|?]; done); auto.
  - intros HL paused_is. split_and!.
    + destruct (yields_pause L l w s HL Hl) as (t & H & _). by exists t.
    + destruct (yields_resume L l w s HL Hl) as (t & H & _). by exists t.
    + intros i p Hi. split.
      * destruct (onmessage_pause_known L w i l s p HL Hi Hl) as (t & H & _). by exists t.
      * destruct (onmessage_resume_known L w i l s p HL Hi Hl) as (t & H & _). by exists t.
Qed.

Lemma write_result_witness :
  let s := {| id := 0; readable := true; writable := true; paused := true |} in
  let w := {| heap := [s]; _streams := {[ 0 := 0%nat ]}; _nextId := 2;
              _socket := quiet_socket |} in
  heap w !! 0%nat = Some s /\
  exists out,
    write 0%nat (VBytes ["h"; "i"]%byte) w
    = (Return out, w,
       [Send {| kind := 2; payload := VBytes ["h"; "i"]%byte; bonus := 0 |}]) /\
    (out = false <->
     send_returns (_socket w)
       {| kind := 2; payload := VBytes ["h"; "i"]%byte; bonus := 0 |} = VBool false
     \/ paused s = true).
Proof.
  intros s w. split; [reflexivity|].
  destruct (write_result no_listeners w 0%nat s (VBytes ["h"; "i"]%byte) eq_refl)
    as (_ & _ & H & _).
  exact (H eq_refl).
Defined.

(** C1: what [end] does to any stream: it sends an End message for the
    stream's identifier, sets [readable] to false and leaves [writable] as it
    was. *)
Theorem end_clears_readable (s : BinaryStream) (registry : gmap Z loc) (next : Z)
    (socket : Socket) :
  let w := {| heap := [s]; _streams := registry; _nextId := next; _socket := socket |} in
  end_ 0%nat w =
  (Return tt,
   set_heap [{| id := id s; readable := false; writable := writable s;
                paused := paused s |}] w,
   [Send {| kind := 5; payload := VNull; bonus := id s |}]).
Proof. reflexivity. Qed.

(** C2: on a writable stream, a [write] that follows [end] does not throw: it
    sends its Data message and returns as usual; and Data received after
    [end] is dropped without a [data] event, since [end] cleared
    [readable]. *)
Theorem write_after_end_succeeds (L : Listeners) (i : Z) (r p : bool)
    (registry : gmap Z loc) (next : Z) (socket : Socket) (data : Value) :
  let s := {| id := i; readable := r; writable := true; paused := p |} in
  let w := {| heap := [s]; _streams := registry; _nextId := next; _socket := socket |} in
  let ended := set_heap [set_readable false s] w in
  let end_sent := Send {| kind := 5; payload := VNull; bonus := i |} in
  let data_message := {| kind := 2; payload := data; bonus := i |} in
  (end_ 0%nat ;; write 0%nat data) w =
    (Return (negb p && strict_ne_false (send_returns socket data_message)),
     ended, [end_sent; Send data_message]) /\
  (end_ 0%nat ;; _onData L 0%nat data) w = (Return tt, ended, [end_sent]).
Proof. split; reflexivity. Qed.

(** C8: on a Resume message the stream emits [resume], then [drain], and only
    then clears [paused]: a [write] made by a [drain] listener returns
    false, whatever the socket reports. *)
Theorem write_in_drain_listener_returns_false (i : Z) (r : bool) (next : Z)
    (socket : Socket) (data : Value) :
  let s := {| id := i; readable := r; writable := true; paused := true |} in
  let w := {| heap := [s]; _streams := {[ i := 0%nat ]}; _nextId := next;
              _socket := socket |} in
  onmessage (write_on_drain data) {| kind := 4; payload := VNull; bonus := i |} w =
  (Return tt, set_heap [set_paused false s] w,
   [Emit {| emitter := Stream 0%nat; type := "resume"; args := [] |};
    Emit {| emitter := Stream 0%nat; type := "drain"; args := [] |};
    Send {| kind := 2; payload := data; bonus := i |};
    Note (VBool false)]).
Proof.
  intros s w.
  change (onmessage ?L _) with
    (binaryStream ← lookup_stream i;
     match binaryStream with
     | Some l => _onResume L l
     | None => unknown_stream L "resume" i
     end).
  rewrite bind_eq.
  change (lookup_stream i w) with (Return (_streams w !! i), w, @nil Effect).
  cbn [_streams w]. rewrite lookup_singleton_eq. reflexivity.
Qed.

(** ** Further properties of streams and the multiplexer *)

Section Follows.

Context (Q : World -> list Effect -> World -> Prop) `{!Sequential Q}.

Lemma seq_nil (w : World) : Q w [] w.
Proof. by apply seq_notes. Qed.

Lemma follows_ret {A} (a : A) : follows Q (ret a).
Proof. intros w o w' t [= <- <- <-]. apply seq_nil. Qed.

Lemma follows_throw {A} (err : string) : follows Q (@throw A err).
Proof. intros w o w' t [= <- <- <-]. apply seq_nil. Qed.

Lemma follows_get_world : follows Q get_world.
Proof. intros w o w' t [= <- <- <-]. apply seq_nil. Qed.

Lemma follows_lookup_stream (i : Z) : follows Q (lookup_stream i).
Proof. intros w o w' t [= <- <- <-]. apply seq_nil. Qed.

Lemma follows_bind {A B} (m : M A) (k : A -> M B) :
  follows Q m -> (forall a, follows Q (k a)) -> follows Q (m ≫= k).
Proof.
  intros Hm Hk w o w' t. rewrite bind_eq.
  destruct (m w) as [[[a|err] w1] t1] eqn:E1.
  - destruct (k a w1) as [[o2 w2] t2] eqn:E2. intros [= <- <- <-].
    eapply seq_app; [exact (Hm _ _ _ _ E1)|exact (Hk _ _ _ _ _ E2)].
  - intros [= <- <- <-]. exact (Hm _ _ _ _ E1).
Qed.

Lemma follows_get {A} (f : BinaryStream -> A) (l : loc) : follows Q (get f l).
Proof.
  unfold get. apply follows_bind; [apply follows_get_world|].
  intros w. destruct (heap w !! l); [apply follows_ret|apply follows_throw].
Qed.

Lemma follows_set (f : BinaryStream -> BinaryStream) (l : loc) :
  (forall w s, heap w !! l = Some s -> Q w [] (set_heap (<[l := f s]> (heap w)) w)) ->
  follows Q (set f l).
Proof.
  intros Hf w o w' t. unfold set. rewrite bind_eq. simpl.
  destruct (heap w !! l) as [s|] eqn:E.
  - intros [= <- <- <-]. by apply Hf.
  - intros [= <- <- <-]. apply seq_nil.
Qed.

Lemma follows_modify (f : World -> World) :
  (forall w, Q w [] (f w)) -> follows Q (modify_world f).
Proof. intros Hf w o w' t [= <- <- <-]. apply Hf. Qed.

Lemma follows_emit (L : Listeners) e ty a : passive L -> follows Q (emit L e ty a).
Proof.
  intros HL w o w' t. unfold emit. rewrite bind_eq. simpl.
  destruct (HL {| emitter := e; type := ty; args := a |} w) as (t0 & -> & Et).
  intros [= <- <- <-].
  change (Emit ?x :: t0) with ([Emit x] ++ t0).
  eapply seq_app; [apply seq_emit|by apply seq_notes].
Qed.

Lemma follows_isolated (m : M unit) : follows Q m -> follows Q (isolated m).
Proof.
  intros Hm w o w' t. unfold isolated.
  destruct (m w) as [[o1 w1] t1] eqn:E. intros [= <- <- <-]. exact (Hm _ _ _ _ E).
Qed.

Lemma follows_for_each (ls : list loc) (f : loc -> M unit) :
  (forall l, follows Q (f l)) -> follows Q (for_each ls f).
Proof.
  intros Hf. induction ls as [|l ls IH]; simpl.
  - apply follows_ret.
  - apply follows_bind; [by apply follows_isolated|]. intros _. exact IH.
Qed.

(** Sending a message that carries the stream's own identifier. *)
Lemma follows_send_own {B} (l : loc) (code : Z) (data : Value) (k : bool -> M B) :
  (forall w s, heap w !! l = Some s ->
     Q w [Send {| kind := code; payload := data; bonus := id s |}] w) ->
  (forall b, follows Q (k b)) ->
  follows Q (i ← get id l; _write code data i ≫= k).
Proof.
  intros Hsend Hk w o w' t.
  destruct (heap w !! l) as [s|] eqn:E.
  - rewrite (bind_return _ _ _ _ _ _ (get_ok id l w s E)).
    rewrite (bind_return _ _ _ _ _ _ (_write_eq _ _ _ _)). cbv zeta.
    destruct (k _ w) as [[o2 w2] t2] eqn:E2. intros [= <- <- <-].
    exact (seq_app _ _ _ _ _ (Hsend _ _ E) (Hk _ _ _ _ _ E2)).
  - assert (get id l w = (Throw "TypeError", w, [])) as Hg.
    { unfold get. rewrite bind_eq. cbn [get_world]. by rewrite E. }
    rewrite bind_eq, Hg. intros [= <- <- <-]. apply seq_nil.
Qed.

End Follows.

Lemma lowered_refl (s : BinaryStream) : lowered s s.
Proof. by split_and!. Qed.

Lemma lowered_set_readable (s : BinaryStream) : lowered s (set_readable false s).
Proof. by split_and!. Qed.

Lemma lowered_set_writable (s : BinaryStream) : lowered s (set_writable false s).
Proof. by split_and!. Qed.

Lemma lowered_set_paused (b : bool) (s : BinaryStream) : lowered s (set_paused b s).
Proof. by split_and!. Qed.

Ltac follows_steps :=
  repeat first
    [ assumption
    | apply follows_ret | apply follows_throw | apply follows_get_world
    | apply follows_lookup_stream | apply follows_get
    | apply follows_emit; assumption
    | apply follows_isolated
    | apply follows_for_each; intros ?
    | match goal with
      | |- follows _ (if ?b then _ else _) => destruct b
      | |- follows _ (match ?o with Some _ => _ | None => _ end) => destruct o
      end
    | apply follows_send_own; [typeclasses eauto| |intros ?]
    | apply follows_bind; [typeclasses eauto| |intros ?] ].

Section StreamMethods.

Context (Q : World -> list Effect -> World -> Prop) `{!Sequential Q}.
Context (L : Listeners) (HL : passive L) (l : loc).

Hypothesis Hflag : forall w s s', heap w !! l = Some s -> lowered s s' ->
  Q w [] (set_heap (<[l := s']> (heap w)) w).

Hypothesis Hsend : forall w s code data, heap w !! l = Some s -> 2 <= code <= 6 ->
  Q w [Send {| kind := code; payload := data; bonus := id s |}] w.

Lemma follows_set_readable : follows Q (set (set_readable false) l).
Proof. apply follows_set; [done|]. intros w s H. apply (Hflag w s _ H). apply lowered_set_readable. Qed.

Lemma follows_set_writable : follows Q (set (set_writable false) l).
Proof. apply follows_set; [done|]. intros w s H. apply (Hflag w s _ H). apply lowered_set_writable. Qed.

Lemma follows_set_paused (b : bool) : follows Q (set (set_paused b) l).
Proof. apply follows_set; [done|]. intros w s H. apply (Hflag w s _ H). apply lowered_set_paused. Qed.

Lemma follows_send (code : Z) (data : Value) {B} (k : bool -> M B) :
  2 <= code <= 6 ->
  (forall b, follows Q (k b)) ->
  follows Q (i ← get id l; _write code data i ≫= k).
Proof. intros Hc Hk. apply follows_send_own; [done| |done]. intros w s H. by apply Hsend. Qed.

Lemma follows_write (data : Value) : follows Q (write l data).
Proof.
  unfold write. apply follows_bind; [done|apply follows_get; done|].
  intros [|]; [|by apply follows_throw].
  apply follows_send; [lia|]. intros b. follows_steps.
Qed.

Lemma follows_end : follows Q (end_ l).
Proof.
  unfold end_. apply follows_bind; [done|apply follows_set_readable|]. intros _.
  apply follows_send; [lia|]. intros b. by apply follows_ret.
Qed.

Lemma follows_destroy : follows Q (destroy l).
Proof.
  unfold destroy. apply follows_bind; [done|apply follows_set_readable|]. intros _.
  apply follows_bind; [done|apply follows_set_writable|]. intros _.
  apply follows_send; [lia|]. intros b. by apply follows_ret.
Qed.

Lemma follows__onClose : follows Q (_onClose L l).
Proof.
  unfold _onClose. apply follows_bind; [done|apply follows_set_readable|]. intros _.
  apply follows_bind; [done|apply follows_set_writable|]. intros _.
  by apply follows_emit.
Qed.

Lemma follows__onPause : follows Q (_onPause L l).
Proof.
  unfold _onPause. apply follows_bind; [done|by apply follows_emit|]. intros _.
  apply follows_set_paused.
Qed.

Lemma follows__onResume : follows Q (_onResume L l).
Proof.
  unfold _onResume. apply follows_bind; [done|by apply follows_emit|]. intros _.
  apply follows_bind; [done|by apply follows_emit|]. intros _.
  apply follows_set_paused.
Qed.

Lemma follows__onEnd : follows Q (_onEnd L l).
Proof.
  unfold _onEnd. apply follows_bind; [done|apply follows_set_readable|]. intros _.
  by apply follows_emit.
Qed.

Lemma follows__onData (data : Value) : follows Q (_onData L l data).
Proof.
  unfold _onData. apply follows_bind; [done|by apply follows_get|].
  intros [|]; [by apply follows_emit|by apply follows_ret].
Qed.

Lemma follows_pause : follows Q (pause L l).
Proof.
  unfold pause. apply follows_bind; [done|apply follows__onPause|]. intros _.
  apply follows_send; [lia|]. intros b. by apply follows_ret.
Qed.

Lemma follows_resume : follows Q (resume L l).
Proof.
  unfold resume. apply follows_bind; [done|apply follows__onResume|]. intros _.
  apply follows_send; [lia|]. intros b. by apply follows_ret.
Qed.

Lemma follows_stream_onclose (code message : Value) :
  follows Q (stream_onclose L code message l).
Proof.
  unfold stream_onclose. apply follows_bind; [done|apply follows_set_readable|]. intros _.
  apply follows_bind; [done|apply follows_set_writable|]. intros _.
  by apply follows_emit.
Qed.

Lemma follows_stream_onerror (error : Value) :
  follows Q (stream_onerror L error l).
Proof.
  unfold stream_onerror. apply follows_bind; [done|apply follows_set_readable|]. intros _.
  apply follows_bind; [done|apply follows_set_writable|]. intros _.
  by apply follows_emit.
Qed.

Lemma follows_inbound (k : Z) (p : Value) (i : Z) :
  (forall w r, Q w [] (set_streams r w)) ->
  follows Q (inbound L k p i l).
Proof.
  intros Hreg. unfold inbound.
  destruct (k =? 2); [apply follows__onData|].
  destruct (k =? 3); [apply follows__onPause|].
  destruct (k =? 4); [apply follows__onResume|].
  destruct (k =? 5); [apply follows__onEnd|].
  apply follows_bind; [done|apply follows__onClose|]. intros _.
  apply follows_modify. intros w. apply Hreg.
Qed.

End StreamMethods.

Lemma onmessage_cases (L : Listeners) (data : Message) :
  onmessage L data =
  if kind data =? 0 then ret tt
  else if kind data =? 1 then
    binaryStream ← _receiveStream (bonus data);
    emit L Client "stream" [AStream binaryStream; AValue (payload data)]
  else if (2 <=? kind data) && (kind data <=? 6) then
    binaryStream ← lookup_stream (bonus data);
    match binaryStream with
    | Some l => inbound L (kind data) (payload data) (bonus data) l
    | None => unknown_stream L (kind_name (kind data)) (bonus data)
    end
  else
    emit L Client "error"
      [AValue (VStr ("Unrecognized message type received: " +:+ pretty (kind data)))].
Proof.
  destruct data as [k p b]. cbn [kind payload bonus].
  destruct (decide (k = 0)) as [->|N0]; [reflexivity|].
  destruct (decide (k = 1)) as [->|N1]; [reflexivity|].
  destruct (decide (k = 2)) as [->|N2]; [reflexivity|].
  destruct (decide (k = 3)) as [->|N3]; [reflexivity|].
  destruct (decide (k = 4)) as [->|N4]; [reflexivity|].
  destruct (decide (k = 5)) as [->|N5]; [reflexivity|].
  destruct (decide (k = 6)) as [->|N6]; [reflexivity|].
  unfold onmessage. cbn [kind payload bonus].
  rewrite !(proj2 (Z.eqb_neq _ _)) by done.
  replace ((2 <=? k) && (k <=? 6)) with false; [reflexivity|].
  symmetry. apply andb_false_iff.
  destruct (Z.leb_spec 2 k); [right; apply Z.leb_gt; lia|by left].
Qed.

Section Dispatch.

Context (Q : World -> list Effect -> World -> Prop) `{!Sequential Q}.
Context (L : Listeners) (HL : passive L).

Hypothesis Hflag : forall l w s s', heap w !! l = Some s -> lowered s s' ->
  Q w [] (set_heap (<[l := s']> (heap w)) w).

Hypothesis Hsend : forall l w s code data, heap w !! l = Some s -> 2 <= code <= 6 ->
  Q w [Send {| kind := code; payload := data; bonus := id s |}] w.

Hypothesis Hreg : forall w r, Q w [] (set_streams r w).

Hypothesis Hnew : forall w i, Q w [] (set_heap (heap w ++ [fresh i]) w).

Lemma follows__receiveStream (i : Z) : follows Q (_receiveStream i).
Proof.
  intros w o w' t. rewrite _receiveStream_eq. intros [= <- <- <-].
  change (@nil Effect) with (@nil Effect ++ []).
  eapply seq_app; [apply Hnew|apply Hreg].
Qed.

Lemma follows_unknown_stream (name : string) (i : Z) :
  follows Q (unknown_stream L name i).
Proof. unfold unknown_stream. by apply follows_emit. Qed.

Lemma follows_onmessage (data : Message) : follows Q (onmessage L data).
Proof.
  rewrite onmessage_cases.
  destruct (kind data =? 0); [by apply follows_ret|].
  destruct (kind data =? 1).
  { apply follows_bind; [done|apply follows__receiveStream|].
    intros l. by apply follows_emit. }
  destruct ((2 <=? kind data) && (kind data <=? 6)); [|by apply follows_emit].
  apply follows_bind; [done|by apply follows_lookup_stream|].
  intros [l|]; [|apply follows_unknown_stream].
  exact (follows_inbound Q L HL l (Hflag l) _ _ _ Hreg).
Qed.

Lemma follows_socket_close (code message : Value) :
  follows Q (socket_close L code message).
Proof.
  unfold socket_close. apply follows_bind; [done|by apply follows_get_world|].
  intros w. apply follows_bind; [done|apply follows_isolated; by apply follows_emit|].
  intros _. apply follows_for_each; [done|]. intros l.
  exact (follows_stream_onclose Q L HL l (Hflag l) _ _).
Qed.

Lemma follows_socket_error (error : Value) :
  follows Q (socket_error L error).
Proof.
  unfold socket_error. apply follows_bind; [done|by apply follows_get_world|].
  intros w. apply follows_bind; [done|apply follows_isolated; by apply follows_emit|].
  intros _. apply follows_for_each; [done|]. intros l.
  exact (follows_stream_onerror Q L HL l (Hflag l) _).
Qed.

Lemma follows_perform (op : Op) :
  (forall meta, op <> CreateStream meta) ->
  follows Q (perform L op).
Proof.
  intros Hop. destruct op as [meta| | l0 data | l0 | l0 | l0 | l0 | data | | |]; cbn [perform].
  - by destruct (Hop meta).
  - intros w o w' t [= <- <- <-]. apply seq_close.
  - apply follows_bind; [done|exact (follows_write Q l0 (Hsend l0) _)|].
    intros _. by apply follows_ret.
  - exact (follows_end Q l0 (Hflag l0) (Hsend l0)).
  - exact (follows_destroy Q l0 (Hflag l0) (Hsend l0)).
  - exact (follows_pause Q L HL l0 (Hflag l0) (Hsend l0)).
  - exact (follows_resume Q L HL l0 (Hflag l0) (Hsend l0)).
  - apply follows_onmessage.
  - unfold socket_open. apply follows_isolated. by apply follows_emit.
  - apply follows_socket_error.
  - apply follows_socket_close.
Qed.

End Dispatch.

(** *** Flags only fall, identifiers stay *)

Lemma lowered_trans (s1 s2 s3 : BinaryStream) :
  lowered s1 s2 -> lowered s2 s3 -> lowered s1 s3.
Proof. intros (? & ? & ?) (? & ? & ?). split_and!; [congruence|auto|auto]. Qed.

Lemma grows_refl (w : World) (t : list Effect) : grows w t w.
Proof. intros l s H. exists s. split; [done|apply lowered_refl]. Qed.

Lemma grows_trans w1 t1 w2 t2 w3 t3 :
  grows w1 t1 w2 -> grows w2 t2 w3 -> grows w1 t3 w3.
Proof.
  intros H1 H2 l s H. destruct (H1 l s H) as (s' & H' & Hl).
  destruct (H2 l s' H') as (s'' & H'' & Hl'). exists s''.
  split; [done|by eapply lowered_trans].
Qed.

Global Instance grows_sequential : Sequential grows.
Proof.
  split.
  - intros w t _. apply grows_refl.
  - intros w1 t1 w2 t2 w3. apply grows_trans.
  - intros w e. apply grows_refl.
  - intros w c m. apply grows_refl.
Qed.

Lemma grows_flag l w s s' (t : list Effect) :
  heap w !! l = Some s -> lowered s s' ->
  grows w t (set_heap (<[l := s']> (heap w)) w).
Proof.
  intros H Hl l0 s0 H0. simpl.
  destruct (decide (l = l0)) as [<-|Hne].
  - exists s'. rewrite list_lookup_insert_eq by (by eapply lookup_lt_Some).
    split; [done|congruence].
  - exists s0. rewrite list_lookup_insert_ne by done. split; [done|apply lowered_refl].
Qed.

Lemma grows_same_heap w w' (t : list Effect) : heap w' = heap w -> grows w t w'.
Proof. intros E l s H. exists s. rewrite E. split; [done|apply lowered_refl]. Qed.

Lemma grows_append w h (t : list Effect) : grows w t (set_heap (heap w ++ h) w).
Proof.
  intros l s H. exists s. simpl.
  rewrite lookup_app_l by (by eapply lookup_lt_Some). split; [done|apply lowered_refl].
Qed.

Lemma grows_perform (L : Listeners) (op : Op) : passive L -> follows grows (perform L op).
Proof.
  intros HL.
  assert ((exists meta, op = CreateStream meta) \/ forall meta, op <> CreateStream meta)
    as [[meta ->]|Hno] by (destruct op; eauto).
  - intros w o w' t. cbn [perform].
    rewrite (bind_return _ _ _ _ _ _ (createStream_eq _ _)). intros [= <- <- <-].
    intros l s H. exists s. simpl.
    rewrite lookup_app_l by (by eapply lookup_lt_Some). split; [done|apply lowered_refl].
  - exact (follows_perform grows L HL
             (fun l w s s' => grows_flag l w s s' [])
             (fun l w s code data _ _ => grows_refl w _)
             (fun w r => grows_same_heap w _ [] eq_refl)
             (fun w i => grows_append w _ []) op Hno).
Qed.

Lemma follows_perform_all (Q : World -> list Effect -> World -> Prop) `{!Sequential Q}
    (L : Listeners) (ops : list Op) :
  (forall op, In op ops -> follows Q (perform L op)) ->
  follows Q (perform_all L ops).
Proof.
  induction ops as [|op ops IH]; intros H; simpl.
  - by apply follows_ret.
  - apply follows_bind; [apply _| |intros _].
    + apply follows_isolated. apply H. by left.
    + apply IH. intros op' Hin. apply H. by right.
Qed.

(** X1: Over any history of operations, with listeners that only look, a stream
    object stays in the store under the same identifier, and a [readable] or
    [writable] flag that is false is never true again. *)
Theorem flags_never_return (L : Listeners) (ops : list Op) (w w' : World)
    (o : Outcome unit) (t : list Effect) (l : loc) (s : BinaryStream) :
  passive L ->
  perform_all L ops w = (o, w', t) ->
  heap w !! l = Some s ->
  exists s',
    heap w' !! l = Some s' /\
    id s' = id s /\
    (readable s' = true -> readable s = true) /\
    (writable s' = true -> writable s = true).
Proof.
  intros HL H Hl.
  assert (follows grows (perform_all L ops)) as Hf.
  { apply follows_perform_all; [apply _|]. intros op _. by apply grows_perform. }
  exact (Hf _ _ _ _ H l s Hl).
Qed.

Lemma flags_never_return_witness :
  let w := {| heap := [fresh 0]; _streams := {[ 0 := 0%nat ]}; _nextId := 2;
              _socket := quiet_socket |} in
  let ops := [StreamEnd 0%nat;
              Receive {| kind := 1; payload := VNull; bonus := 0 |};
              StreamResume 0%nat;
              Receive {| kind := 6; payload := VNull; bonus := 0 |}] in
  passive no_listeners /\
  heap w !! 0%nat = Some (fresh 0) /\
  exists s',
    heap (perform_all no_listeners ops w).1.2 !! 0%nat = Some s' /\
    id s' = id (fresh 0) /\
    (readable s' = true -> readable (fresh 0) = true) /\
    (writable s' = true -> writable (fresh 0) = true).
Proof.
  intros w ops. split; [exact no_listeners_passive|]. split; [reflexivity|].
  destruct (perform_all no_listeners ops w) as [[o w'] t] eqn:H.
  exact (flags_never_return no_listeners ops w w' o t 0%nat (fresh 0)
           no_listeners_passive H eq_refl).
Defined.

(** *** Operations on one stream leave the others alone *)

Global Instance apart_sequential (tl : option loc) : Sequential (apart_from tl).
Proof.
  split.
  - by intros w t _ l s _ H.
  - intros w1 t1 w2 t2 w3 H1 H2 l s Hne H. apply H2; [done|]. by apply H1.
  - by intros w e l s _ H.
  - by intros w c m l s _ H.
Qed.

Lemma apart_flag l w (s' : BinaryStream) (t : list Effect) :
  apart_from (Some l) w t (set_heap (<[l := s']> (heap w)) w).
Proof.
  intros l0 s0 Hne H0. simpl. rewrite list_lookup_insert_ne; [done|congruence].
Qed.

Lemma apart_same_heap tl w w' (t : list Effect) : heap w' = heap w -> apart_from tl w t w'.
Proof. intros E l s _ H. by rewrite E. Qed.

Lemma apart_append tl w h (t : list Effect) : apart_from tl w t (set_heap (heap w ++ h) w).
Proof. intros l s _ H. simpl. rewrite lookup_app_l; [done|by eapply lookup_lt_Some]. Qed.

Lemma apart_perform (L : Listeners) (op : Op) (w w' : World) o t :
  passive L ->
  (forall error, op <> SocketError error) ->
  (forall code message, op <> SocketClose code message) ->
  perform L op w = (o, w', t) ->
  apart_from (target w op) w t w'.
Proof.
  intros HL Herr Hclose.
  destruct op as [meta| | l data | l | l | l | l | data | | |]; cbn [perform target].
  - rewrite (bind_return _ _ _ _ _ _ (createStream_eq _ _)). intros [= <- <- <-].
    intros l s _ H. simpl. rewrite lookup_app_l; [done|by eapply lookup_lt_Some].
  - intros [= <- <- <-]. by apply apart_same_heap.
  - pose proof (follows_write (apart_from (Some l)) l
        (fun w s code data _ _ => apart_same_heap _ w w _ eq_refl) data) as Hw.
    exact (follows_bind _ _ _ Hw (fun _ => follows_ret _ tt) w o w' t).
  - exact (follows_end (apart_from (Some l)) l
             (fun w s s' _ _ => apart_flag l w s' [])
             (fun w s code data _ _ => apart_same_heap _ w w _ eq_refl) w o w' t).
  - exact (follows_destroy (apart_from (Some l)) l
             (fun w s s' _ _ => apart_flag l w s' [])
             (fun w s code data _ _ => apart_same_heap _ w w _ eq_refl) w o w' t).
  - exact (follows_pause (apart_from (Some l)) L HL l
             (fun w s s' _ _ => apart_flag l w s' [])
             (fun w s code data _ _ => apart_same_heap _ w w _ eq_refl) w o w' t).
  - exact (follows_resume (apart_from (Some l)) L HL l
             (fun w s s' _ _ => apart_flag l w s' [])
             (fun w s code data _ _ => apart_same_heap _ w w _ eq_refl) w o w' t).
  - rewrite onmessage_cases.
    destruct (kind data =? 0) eqn:E0.
    { intros [= <- <- <-]. by apply apart_same_heap. }
    destruct (kind data =? 1) eqn:E1.
    { rewrite (bind_return _ _ _ _ _ _ (_receiveStream_eq _ _)).
      destruct (emit L Client "stream" _ _) as [[o2 w2] t2] eqn:E.
      intros [= <- <- <-].
      exact (seq_app (Q := apart_from _) _ [] _ t2 _
               (apart_append _ w _ [])
               (follows_emit _ L _ _ _ HL _ _ _ _ E)). }
    destruct ((2 <=? kind data) && (kind data <=? 6)) eqn:E26.
    + rewrite bind_eq.
      change (lookup_stream (bonus data) w)
        with (Return (_streams w !! bonus data), w, @nil Effect).
      cbv iota beta.
      destruct (_streams w !! bonus data) as [l|].
      * destruct (inbound L _ _ _ l w) as [[o2 w2] t2] eqn:E. intros [= <- <- <-].
        exact (follows_inbound (apart_from (Some l)) L HL l
                 (fun w s s' _ _ => apart_flag l w s' []) _ _ _
                 (fun w r => apart_same_heap _ w _ [] eq_refl) _ _ _ _ E).
      * destruct (unknown_stream L _ _ w) as [[o2 w2] t2] eqn:E. intros [= <- <- <-].
        exact (follows_emit _ L _ _ _ HL _ _ _ _ E).
    + exact (follows_emit _ L _ _ _ HL w o w' t).
  - unfold socket_open.
    exact (follows_isolated _ _ (follows_emit _ L _ _ _ HL) w o w' t).
  - by destruct (Herr error).
  - by destruct (Hclose code message).
Qed.

(** X2: An operation other than the socket's [error] and [close] events
    leaves every stream object it is not about exactly as it was. *)
Theorem streams_are_independent (L : Listeners) (op : Op) (w w' : World)
    (o : Outcome unit) (t : list Effect) (l : loc) (s : BinaryStream) :
  passive L ->
  (forall error, op <> SocketError error) ->
  (forall code message, op <> SocketClose code message) ->
  perform L op w = (o, w', t) ->
  Some l <> target w op ->
  heap w !! l = Some s ->
  heap w' !! l = Some s.
Proof.
  intros HL Herr Hclose H Hne Hl.
  exact (apart_perform L op w w' o t HL Herr Hclose H l s Hne Hl).
Qed.

Lemma streams_are_independent_witness :
  let w := {| heap := [fresh 0; fresh 2]; _streams := {[ 0 := 0%nat; 2 := 1%nat ]};
              _nextId := 4; _socket := quiet_socket |} in
  let op := StreamDestroy 0%nat in
  passive no_listeners /\
  (forall error, op <> SocketError error) /\
  (forall code message, op <> SocketClose code message) /\
  Some 1%nat <> target w op /\
  heap w !! 1%nat = Some (fresh 2) /\
  heap (perform no_listeners op w).1.2 !! 1%nat = Some (fresh 2).
Proof.
  intros w op.
  assert (forall error, op <> SocketError error) as H1 by (intros; discriminate).
  assert (forall code message, op <> SocketClose code message) as H2
    by (intros; discriminate).
  assert (Some 1%nat <> target w op) as H3 by (simpl; discriminate).
  split; [exact no_listeners_passive|]. do 4 (split; [done|]).
  destruct (perform no_listeners op w) as [[o w'] t] eqn:H.
  exact (streams_are_independent no_listeners op w w' o t 1%nat (fresh 2)
           no_listeners_passive H1 H2 H H3 eq_refl).
Defined.

(** *** Local identifiers *)

Lemma opened_app (t1 t2 : list Effect) : opened (t1 ++ t2) = opened t1 ++ opened t2.
Proof. apply omap_app. Qed.

Lemma opened_visible (t : list Effect) : opened (visible t) = opened t.
Proof.
  induction t as [|e t IH]; [done|]. destruct e; cbn; rewrite ?IH; try done.
  all: fold (visible t); fold (opened (visible t)); fold (opened t); by rewrite IH.
Qed.

Global Instance allocates_nothing_sequential : Sequential allocates_nothing.
Proof.
  split.
  - intros w t Hv. split; [done|]. by rewrite <- opened_visible, Hv.
  - intros w1 t1 w2 t2 w3 [H1 O1] [H2 O2]. split; [congruence|].
    by rewrite opened_app, O1, O2.
  - by intros w e.
  - by intros w c m.
Qed.

Lemma allocates_nothing_perform (L : Listeners) (op : Op) :
  passive L ->
  (forall meta, op <> CreateStream meta) ->
  follows allocates_nothing (perform L op).
Proof.
  intros HL Hno. apply (follows_perform allocates_nothing L HL); try done.
  intros l w s code data _ Hc. split; [done|].
  unfold opened. simpl. destruct (code =? 1) eqn:E; [apply Z.eqb_eq in E; lia|done].
Qed.

Lemma add_two_below (n : Z) : n + 2 <= 2 ^ 54 -> add_two n = n + 2.
Proof.
  intros H. unfold add_two. destruct (n <? 2 ^ 54) eqn:E; [done|].
  apply Z.ltb_ge in E. lia.
Qed.

Lemma perform_all_identifiers (L : Listeners) (ops : list Op) :
  passive L ->
  forall (w w' : World) o t,
  _nextId w + 2 * Z.of_nat (creations ops) <= 2 ^ 54 ->
  perform_all L ops w = (o, w', t) ->
  _nextId w' = _nextId w + 2 * Z.of_nat (creations ops) /\
  opened t = (fun k : nat => _nextId w + 2 * Z.of_nat k) <$> seq 0 (creations ops).
Proof.
  intros HL. induction ops as [|op ops IH]; intros w w' o t Hb; simpl.
  - intros [= <- <- <-]. split; [unfold creations; simpl; lia|done].
  - rewrite bind_eq. unfold isolated at 1.
    destruct (perform L op w) as [[o1 w1] t1] eqn:E1.
    destruct (perform_all L ops w1) as [[o2 w2] t2] eqn:E2.
    intros [= <- <- <-].
    assert ((exists meta, op = CreateStream meta) \/ forall meta, op <> CreateStream meta)
      as [[meta ->]|Hno] by (destruct op; eauto).
    + cbn [perform] in E1.
      rewrite (bind_return _ _ _ _ _ _ (createStream_eq _ _)) in E1.
      injection E1 as <- <- <-.
      change (creations (CreateStream meta :: ops)) with (S (creations ops)) in *.
      rewrite add_two_below in E2 by lia.
      eapply IH in E2; [|cbn [_nextId set_streams set_heap set_nextId]; lia].
      destruct E2 as [Hn Ho].
      rewrite opened_app, Ho, Hn.
      cbn [_nextId set_streams set_heap set_nextId]. split; [lia|].
      cbn [seq fmap list_fmap]. rewrite <- fmap_S_seq, <- list_fmap_compose.
      unfold opened at 1. cbn. f_equal; [f_equal; lia|].
      apply list_fmap_ext. intros _ k _. simpl. lia.
    + destruct (allocates_nothing_perform L op HL Hno _ _ _ _ E1) as [Hn1 Ho1].
      assert (creations (op :: ops) = creations ops) as Hsame
        by (destruct op; try done; by destruct (Hno meta)).
      rewrite Hsame in *.
      eapply IH in E2; [|rewrite Hn1; lia].
      destruct E2 as [Hn Ho].
      rewrite opened_app, Ho, Hn, Ho1, Hn1. done.
Qed.

(** X3: Over a history of a new client that creates at most 2^53 streams,
    the identifiers announced in StreamOpen messages are 0, 2, 4, ... in
    order, one per [createStream] call, so they are pairwise distinct
    whatever was received in between; the counter ends at twice the number
    of calls.  (Past 2^53 calls the counter, a double, no longer moves.) *)
Theorem local_identifiers (L : Listeners) (socket : Socket) (ops : list Op)
    (w : World) (o : Outcome unit) (t : list Effect) :
  passive L ->
  Z.of_nat (creations ops) <= 2 ^ 53 ->
  perform_all L ops (new_BinaryClient socket) = (o, w, t) ->
  opened t = (fun k : nat => 2 * Z.of_nat k) <$> seq 0 (creations ops) /\
  NoDup (opened t) /\
  _nextId w = 2 * Z.of_nat (creations ops).
Proof.
  intros HL Hb H.
  eapply perform_all_identifiers in H; [|exact HL|simpl; lia].
  destruct H as [Hn Ho].
  simpl in Hn, Ho. split_and!; [exact Ho| |lia].
  rewrite Ho. apply NoDup_fmap_2; [|apply NoDup_seq].
  intros a b Hab. lia.
Qed.

Lemma local_identifiers_witness :
  let ops := [CreateStream (VStr "a");
              Receive {| kind := 1; payload := VNull; bonus := 7 |};
              StreamDestroy 0%nat;
              CreateStream (VStr "b")] in
  passive no_listeners /\
  Z.of_nat (creations ops) <= 2 ^ 53 /\
  opened (perform_all no_listeners ops (new_BinaryClient quiet_socket)).2 = [0; 2] /\
  _nextId (perform_all no_listeners ops (new_BinaryClient quiet_socket)).1.2 = 4.
Proof.
  intros ops. split; [exact no_listeners_passive|].
  assert (Z.of_nat (creations ops) <= 2 ^ 53) as Hb by (vm_compute; discriminate).
  split; [exact Hb|].
  destruct (perform_all no_listeners ops (new_BinaryClient quiet_socket))
    as [[o w] t] eqn:H.
  destruct (local_identifiers no_listeners quiet_socket ops w o t
              no_listeners_passive Hb H) as (H1 & _ & H3).
  split; [exact H1|exact H3].
Defined.

(** *** Messages the dispatcher cannot deliver *)

Lemma in_range_26 (k : Z) : 2 <= k <= 6 -> (k =? 0) = false /\ (k =? 1) = false /\
  ((2 <=? k) && (k <=? 6)) = true.
Proof.
  intros Hk. split_and!; [apply Z.eqb_neq; lia|apply Z.eqb_neq; lia|].
  apply andb_true_iff. split; apply Z.leb_le; lia.
Qed.

Lemma onmessage_found (L : Listeners) (w : World) (k : Z) (p : Value) (i : Z) (l : loc) :
  2 <= k <= 6 ->
  _streams w !! i = Some l ->
  onmessage L {| kind := k; payload := p; bonus := i |} w = inbound L k p i l w.
Proof.
  intros Hk Hi. rewrite onmessage_cases. cbn [kind payload bonus].
  destruct (in_range_26 k Hk) as (-> & -> & ->).
  rewrite bind_eq.
  change (lookup_stream i w) with (Return (_streams w !! i), w, @nil Effect).
  rewrite Hi. cbv iota beta.
  by destruct (inbound L k p i l w) as [[o2 w2] t2].
Qed.

(** X4: A Data, Pause, Resume, End or Close message for an identifier that
    is not in the registry changes nothing and is reported by one [error]
    event on the client, which names the kind and the identifier, an
    integer of absolute value below 2^53, in decimal digits. *)
Theorem unknown_stream_is_reported (L : Listeners) (w : World) (k : Z) (p : Value)
    (i : Z) :
  passive L ->
  2 <= k <= 6 ->
  safe_integer i ->
  _streams w !! i = None ->
  exists t,
    onmessage L {| kind := k; payload := p; bonus := i |} w = (Return tt, w, t) /\
    visible t =
      [Emit {| emitter := Client; type := "error";
               args := [AValue (VStr ("Received `" +:+ kind_name k +:+
                          "` message for unknown stream: " +:+ pretty i))] |}].
Proof.
  intros HL Hk _ Hi. rewrite onmessage_cases. cbn [kind payload bonus].
  destruct (in_range_26 k Hk) as (-> & -> & ->).
  change [?e] with ([] ++ [e]).
  eapply yields_bind; [apply yields_lookup_stream|]. rewrite Hi.
  by apply unknown_stream_yields.
Qed.

Lemma unknown_stream_is_reported_witness :
  let w := new_BinaryClient quiet_socket in
  passive no_listeners /\
  2 <= 3 <= 6 /\
  safe_integer 5 /\
  _streams w !! 5 = None /\
  exists t,
    onmessage no_listeners {| kind := 3; payload := VNull; bonus := 5 |} w
    = (Return tt, w, t) /\
    visible t =
      [Emit {| emitter := Client; type := "error";
               args := [AValue (VStr "Received `pause` message for unknown stream: 5")] |}].
Proof.
  intros w. split; [exact no_listeners_passive|]. split; [lia|].
  split; [reflexivity|]. split; [reflexivity|].
  exact (unknown_stream_is_reported no_listeners w 3 VNull 5 no_listeners_passive
           ltac:(lia) eq_refl eq_refl).
Defined.

(** X5: A message of kind 0 is ignored without any event, whatever the
    listeners; a message whose kind is outside 0..6 changes nothing and is
    reported by one [error] event on the client, which names the kind, an
    integer of absolute value below 2^53, in decimal digits. *)
Theorem unknown_kinds_change_nothing (L : Listeners) (w : World) (k : Z) (p : Value)
    (i : Z) :
  onmessage L {| kind := 0; payload := p; bonus := i |} w = (Return tt, w, []) /\
  (passive L -> k < 0 \/ 6 < k -> safe_integer k ->
   exists t,
     onmessage L {| kind := k; payload := p; bonus := i |} w = (Return tt, w, t) /\
     visible t =
       [Emit {| emitter := Client; type := "error";
                args := [AValue (VStr ("Unrecognized message type received: "
                                       +:+ pretty k))] |}]).
Proof.
  split; [reflexivity|]. intros HL Hk _.
  rewrite onmessage_cases. cbn [kind payload bonus].
  rewrite !(proj2 (Z.eqb_neq _ _)) by lia.
  replace ((2 <=? k) && (k <=? 6)) with false.
  - by apply yields_emit.
  - symmetry. apply andb_false_iff.
    destruct Hk; [left; apply Z.leb_gt; lia|right; apply Z.leb_gt; lia].
Qed.

Lemma unknown_kinds_change_nothing_witness :
  let w := new_BinaryClient quiet_socket in
  passive no_listeners /\
  (9 < 0 \/ 6 < 9) /\
  safe_integer 9 /\
  exists t,
    onmessage no_listeners {| kind := 9; payload := VNull; bonus := 5 |} w
    = (Return tt, w, t) /\
    visible t =
      [Emit {| emitter := Client; type := "error";
               args := [AValue (VStr "Unrecognized message type received: 9")] |}].
Proof.
  intros w. split; [exact no_listeners_passive|]. split; [lia|].
  split; [reflexivity|].
  exact (proj2 (unknown_kinds_change_nothing no_listeners w 9 VNull 5)
           no_listeners_passive ltac:(lia) eq_refl).
Defined.

(** X6: A Data message for a registered stream is dropped without any
    event when the stream's [readable] flag is false, and is handed over in
    one [data] event, the world unchanged, when it is true. *)
Theorem inbound_data_delivery (L : Listeners) (w : World) (i : Z) (l : loc)
    (s : BinaryStream) (p : Value) :
  _streams w !! i = Some l ->
  heap w !! l = Some s ->
  let data := {| kind := 2; payload := p; bonus := i |} in
  (readable s = false -> onmessage L data w = (Return tt, w, [])) /\
  (readable s = true -> passive L ->
   exists t,
     onmessage L data w = (Return tt, w, t) /\
     visible t = [Emit {| emitter := Stream l; type := "data"; args := [AValue p] |}]).
Proof.
  intros Hi Hl data.
  assert (onmessage L data w = _onData L l p w) as ->.
  { unfold data. by rewrite (onmessage_found L w 2 p i l ltac:(lia) Hi). }
  unfold _onData. rewrite (bind_return _ _ _ _ _ _ (get_ok readable l w s Hl)).
  split; intros ->; [reflexivity|].
  intros HL. destruct (yields_emit L (Stream l) "data" [AValue p] w HL) as (t & -> & Ht).
  by exists t.
Qed.

Lemma inbound_data_delivery_witness :
  let s := {| id := 0; readable := false; writable := true; paused := false |} in
  let w := {| heap := [s]; _streams := {[ 0 := 0%nat ]}; _nextId := 2;
              _socket := quiet_socket |} in
  _streams w !! 0 = Some 0%nat /\
  heap w !! 0%nat = Some s /\
  readable s = false /\
  onmessage no_listeners {| kind := 2; payload := VBytes hello; bonus := 0 |} w
  = (Return tt, w, []).
Proof.
  intros s w. do 3 (split; [reflexivity|]).
  exact (proj1 (inbound_data_delivery no_listeners w 0 0%nat s (VBytes hello)
                  eq_refl eq_refl) eq_refl).
Defined.

(** X7: An End message for a registered stream clears [readable] and
    emits [end]; the stream stays registered, and a second End message emits
    [end] a second time. *)
Theorem inbound_end_repeats (L : Listeners) (w : World) (i : Z) (l : loc)
    (s : BinaryStream) (p : Value) :
  passive L ->
  _streams w !! i = Some l ->
  heap w !! l = Some s ->
  let end_i := {| kind := 5; payload := p; bonus := i |} in
  let ended := set_heap (<[l := set_readable false s]> (heap w)) w in
  let end_event := [Emit {| emitter := Stream l; type := "end"; args := [] |}] in
  (exists t, onmessage L end_i w = (Return tt, ended, t) /\ visible t = end_event) /\
  (exists t, onmessage L end_i ended = (Return tt, ended, t) /\ visible t = end_event).
Proof.
  intros HL Hi Hl end_i ended end_event.
  assert (forall w0 s0, _streams w0 !! i = Some l -> heap w0 !! l = Some s0 ->
            yields (onmessage L end_i) w0 tt
              (set_heap (<[l := set_readable false s0]> (heap w0)) w0) end_event) as H.
  { intros w0 s0 Hi0 Hl0. unfold yields, end_i.
    rewrite (onmessage_found L w0 5 p i l ltac:(lia) Hi0).
    change (inbound L 5 p i l) with (_onEnd L l). unfold _onEnd.
    change end_event with ([] ++ end_event).
    eapply yields_bind; [by apply yields_set|]. by apply yields_emit. }
  split; [by apply H|].
  pose proof (H ended (set_readable false s) Hi (lookup_set_heap l w s _ Hl)) as H2.
  simpl in H2. rewrite list_insert_insert_eq in H2. exact H2.
Qed.

Lemma inbound_end_repeats_witness :
  let w := {| heap := [fresh 0]; _streams := {[ 0 := 0%nat ]}; _nextId := 2;
              _socket := quiet_socket |} in
  let ended := set_heap [set_readable false (fresh 0)] w in
  passive no_listeners /\
  _streams w !! 0 = Some 0%nat /\
  heap w !! 0%nat = Some (fresh 0) /\
  exists t,
    onmessage no_listeners {| kind := 5; payload := VNull; bonus := 0 |} ended
    = (Return tt, ended, t) /\
    visible t = [Emit {| emitter := Stream 0%nat; type := "end"; args := [] |}].
Proof.
  intros w ended. split; [exact no_listeners_passive|]. do 2 (split; [reflexivity|]).
  exact (proj2 (inbound_end_repeats no_listeners w 0 0%nat (fresh 0) VNull
                  no_listeners_passive eq_refl eq_refl)).
Defined.

(** *** The socket's error event *)

Lemma for_each_closing (f : loc -> M unit) (ev : loc -> Effect) :
  (forall l w s, heap w !! l = Some s ->
     yields (f l) w tt (set_heap (<[l := closed s]> (heap w)) w) [ev l]) ->
  forall (k a : nat) (w : World),
  (a + k)%nat = length (heap w) ->
  yields (for_each (seq a k) f) w tt
    (set_heap (take a (heap w) ++ (closed <$> drop a (heap w))) w)
    (ev <$> seq a k).
Proof.
  intros Hf. induction k as [|k IH]; intros a w Hlen.
  - simpl. rewrite drop_ge, take_ge by lia. simpl. rewrite app_nil_r, set_heap_id.
    apply yields_ret.
  - destruct (lookup_lt_is_Some_2 (heap w) a ltac:(lia)) as [s Hs].
    cbn [seq for_each fmap list_fmap].
    change (?e :: ?es) with ([e] ++ es).
    eapply yields_bind.
    { apply yields_isolated. by apply Hf. }
    specialize (IH (S a) (set_heap (<[a := closed s]> (heap w)) w)).
    simpl heap in IH. rewrite length_insert in IH.
    specialize (IH ltac:(lia)).
    rewrite (close_from_step _ _ _ Hs) in IH. exact IH.
Qed.

Lemma yields_stream_onerror (L : Listeners) error l w s :
  passive L -> heap w !! l = Some s ->
  yields (stream_onerror L error l) w tt
    (set_heap (<[l := closed s]> (heap w)) w)
    [Emit {| emitter := Stream l; type := "error"; args := [AValue error] |}].
Proof.
  intros HL H. unfold stream_onerror.
  change [?e] with ([] ++ [] ++ [e]).
  eapply yields_bind; [by apply yields_set|].
  eapply yields_bind;
    [apply (yields_set _ l _ _ (lookup_set_heap l w s _ H))|].
  simpl. rewrite list_insert_insert_eq. by apply yields_emit.
Qed.

(** X8: When the socket reports an error, the client emits [error] and
    then every stream object ever built on the socket, in construction
    order, is marked neither readable nor writable and emits [error];
    registry, counter and socket are left as they were. *)
Theorem transport_error_cascades (L : Listeners) (w : World) (error : Value) :
  passive L ->
  let error_on (e : Emitter) :=
    Emit {| emitter := e; type := "error"; args := [AValue error] |} in
  exists t,
    socket_error L error w = (Return tt, set_heap (closed <$> heap w) w, t) /\
    visible t =
      error_on Client :: ((fun l => error_on (Stream l)) <$> seq 0 (length (heap w))).
Proof.
  intros HL error_on. unfold socket_error.
  change (?e :: ?es) with ([] ++ [e] ++ es).
  eapply yields_bind; [exists []; split; reflexivity|].
  eapply yields_bind; [apply yields_isolated; by apply yields_emit|].
  pose proof (for_each_closing (stream_onerror L error)
                (fun l => error_on (Stream l))
                (fun l w s => yields_stream_onerror L error l w s HL)
                (length (heap w)) 0 w eq_refl) as H.
  rewrite take_0, drop_0 in H. exact H.
Qed.

Lemma transport_error_cascades_witness :
  let w := {| heap := [fresh 0; fresh 2]; _streams := {[ 0 := 0%nat; 2 := 1%nat ]};
              _nextId := 4; _socket := quiet_socket |} in
  let error_on (e : Emitter) :=
    Emit {| emitter := e; type := "error"; args := [AValue (VStr "reset")] |} in
  passive no_listeners /\
  exists t,
    socket_error no_listeners (VStr "reset") w
    = (Return tt, set_heap [closed (fresh 0); closed (fresh 2)] w, t) /\
    visible t = [error_on Client; error_on (Stream 0%nat); error_on (Stream 1%nat)].
Proof.
  intros w error_on. split; [exact no_listeners_passive|].
  exact (transport_error_cascades no_listeners w (VStr "reset") no_listeners_passive).
Defined.

(** *** Pause and resume *)

Lemma yields_write (l : loc) (data : Value) (w : World) (s : BinaryStream) :
  heap w !! l = Some s -> writable s = true ->
  yields (write l data) w
    (negb (paused s) &&
     strict_ne_false (send_returns (_socket w) {| kind := 2; payload := data; bonus := id s |}))
    w [Send {| kind := 2; payload := data; bonus := id s |}].
Proof.
  intros Hl Hw. exists [Send {| kind := 2; payload := data; bonus := id s |}].
  rewrite (write_eq l data w s Hl), Hw. done.
Qed.

(** X9: The stream has one [paused] flag: after a Pause message from the
    peer, a local [resume()] clears it (and sends Resume), so the next
    [write] reports backpressure only if the socket does. *)
Theorem local_resume_lifts_peer_pause (L : Listeners) (w : World) (i : Z) (l : loc)
    (s : BinaryStream) (p data : Value) :
  passive L ->
  _streams w !! i = Some l ->
  heap w !! l = Some s ->
  writable s = true ->
  let message := {| kind := 2; payload := data; bonus := id s |} in
  exists t,
    (onmessage L {| kind := 3; payload := p; bonus := i |} ;;
     resume L l ;;
     write l data) w
    = (Return (strict_ne_false (send_returns (_socket w) message)),
       set_heap (<[l := set_paused false s]> (heap w)) w, t) /\
    visible t =
      [Emit {| emitter := Stream l; type := "pause"; args := [] |};
       Emit {| emitter := Stream l; type := "resume"; args := [] |};
       Emit {| emitter := Stream l; type := "drain"; args := [] |};
       Send {| kind := 4; payload := VNull; bonus := id s |};
       Send message].
Proof.
  intros HL Hi Hl Hw message.
  change [?e1; ?e2; ?e3; ?e4; ?e5] with ([e1] ++ [e2; e3; e4] ++ [e5]).
  eapply yields_bind; [by apply onmessage_pause_known|].
  pose proof (lookup_set_heap l w s (set_paused true s) Hl) as Hl1.
  eapply yields_bind; [by apply (yields_resume L l _ _ HL Hl1)|].
  simpl heap. rewrite list_insert_insert_eq.
  pose proof (lookup_set_heap l w s (set_paused false (set_paused true s)) Hl) as Hl2.
  exact (yields_write l data _ _ Hl2 Hw).
Qed.

Lemma local_resume_lifts_peer_pause_witness :
  let w := {| heap := [fresh 0]; _streams := {[ 0 := 0%nat ]}; _nextId := 2;
              _socket := quiet_socket |} in
  passive no_listeners /\
  _streams w !! 0 = Some 0%nat /\
  heap w !! 0%nat = Some (fresh 0) /\
  writable (fresh 0) = true /\
  exists t,
    (onmessage no_listeners {| kind := 3; payload := VNull; bonus := 0 |} ;;
     resume no_listeners 0%nat ;;
     write 0%nat (VBytes hello)) w
    = (Return true, w, t) /\
    visible t =
      [Emit {| emitter := Stream 0%nat; type := "pause"; args := [] |};
       Emit {| emitter := Stream 0%nat; type := "resume"; args := [] |};
       Emit {| emitter := Stream 0%nat; type := "drain"; args := [] |};
       Send {| kind := 4; payload := VNull; bonus := 0 |};
       Send {| kind := 2; payload := VBytes hello; bonus := 0 |}].
Proof.
  intros w. split; [exact no_listeners_passive|]. do 3 (split; [reflexivity|]).
  exact (local_resume_lifts_peer_pause no_listeners w 0 0%nat (fresh 0) VNull
           (VBytes hello) no_listeners_passive eq_refl eq_refl eq_refl).
Defined.

(** ** Further properties of the chunked producer *)

Section MoreProducerFacts.

Import BlobReadStream.

(** X10: After [pause()], any number of queued callbacks run without
    emitting anything and without moving the cursor; they only use up the
    queue. *)
Theorem paused_producer_is_silent (s : t) (n : nat) :
  run (CallPause :: repeat Tick n) s
  = (set_scheduled (scheduled s - n) (pause s), []).
Proof.
  rewrite run_cons. cbn [step].
  assert (forall (m : nat) (s0 : t), paused s0 = true ->
            run (repeat Tick m) s0 = (set_scheduled (scheduled s0 - m) s0, [])) as H.
  { induction m as [|m IH]; intros s0 Hp; simpl.
    - rewrite Nat.sub_0_r. by destruct s0.
    - destruct (scheduled s0) as [|k] eqn:Ek.
      + rewrite (IH s0 Hp), Ek. reflexivity.
      + unfold _emitReadChunk. cbn [paused set_scheduled]. rewrite Hp. cbn [orb].
        rewrite (IH (set_scheduled k s0) Hp). reflexivity. }
  rewrite (H n (pause s) eq_refl). reflexivity.
Qed.

(** X11: After [destroy()], nothing is ever emitted again, whatever is
    called next ([resume()] included), and the producer stays unreadable. *)
Theorem destroyed_producer_is_silent (s : t) (es : list Event) :
  snd (run (CallDestroy :: es) s) = [] /\
  readable (fst (run (CallDestroy :: es) s)) = false.
Proof.
  rewrite run_cons. cbn [step].
  assert (readable (destroy s) = false) as Hr
    by (by destruct (destroy_frame s) as (_ & _ & _ & -> & _)).
  destruct (run_unreadable es (destroy s) Hr) as (s' & -> & Hr'). done.
Qed.

(** X12: Over a blob that is not empty, [resume()] does not get a stalled
    producer going: from any state a run can reach in which the producer is
    still readable, after [resume()] each queued callback calls [slice]
    with the same bounds again, which throws again; the cursor stays at 0
    and the producer readable. *)
Theorem resume_throws_again (b : byte) (rest : Blob) (options : Options)
    (es : list Event) (s : t) (out : list Notification) (n : nat) :
  run es (new (b :: rest) options) = (s, out) ->
  readable s = true ->
  exists s',
    run (CallResume :: repeat Tick n) s
    = (s', repeat (TypeError 0
                     (Z.min (size (b :: rest))
                        (or_default (chunkSize options) (size (b :: rest)))))
             (n `min` S (scheduled s))) /\
    readable s' = true /\ _start s' = 0.
Proof.
  intros Hrun Hr.
  destruct (run_frame _ _ _ _ Hrun) as (Hp & Hst & _ & _).
  rewrite start_new in Hst. rewrite pending_new in Hp.
  pose proof (pending_new_nonempty b rest options) as Hne.
  rewrite pending_new in Hne.
  destruct (read_frame (BlobReadStream.set_paused false s)) as (H1 & H2 & H3 & H4 & H5).
  assert (pending (resume s)
          = Z.min (size (b :: rest)) (or_default (chunkSize options) (size (b :: rest))))
    as Hpr by (rewrite <- Hp; unfold pending, resume; by rewrite H1, H2, H3).
  assert (_start (resume s) = 0) as Hst' by (unfold resume; by rewrite H2).
  assert (scheduled (resume s) = S (scheduled s)) as Hq
    by (unfold resume; by rewrite scheduled__read).
  assert (readable (resume s) = true) as Hr' by (unfold resume; by rewrite H4).
  assert (paused (resume s) = false) as Hp' by (unfold resume; by rewrite H5).
  rewrite run_cons. cbn [step].
  rewrite (ticks_throw n (resume s) ltac:(by rewrite Hpr) Hr' Hp').
  rewrite Hst', Hpr, Hq, Z.add_0_l.
  eexists. split; [reflexivity|]. by split.
Qed.

Lemma resume_throws_again_witness :
  let options := {| chunkSize := Some 2; readDelay := None; opt_paused := None |} in
  let es := [Tick; CallPause; Tick; Tick] in
  let s := fst (run es (new hello options)) in
  let out := snd (run es (new hello options)) in
  readable s = true /\
  exists s',
    run (CallResume :: repeat Tick 3) s = (s', [TypeError 0 2]) /\
    readable s' = true /\ _start s' = 0.
Proof.
  intros options es s out. split; [reflexivity|].
  exact (resume_throws_again "h"%byte ["e"; "l"; "l"; "o"]%byte options es s out 3
           eq_refl eq_refl).
Defined.

(** X13: With no chunk size, or chunk size 0, the chunk size is the size
    of the source: the first callback of a producer that is not paused
    emits [end] over an empty blob, and over any other calls
    [slice(0, size)], which throws; no later callback emits anything. *)
Theorem whole_source_by_default (src : Blob) (c : option Z) (rd : option Z)
    (p0 : option bool) (n : nat) :
  c = None \/ c = Some 0 ->
  default false p0 = false ->
  (1 <= n)%nat ->
  snd (run (repeat Tick n)
         (new src {| chunkSize := c; readDelay := rd; opt_paused := p0 |}))
  = match src with [] => [End] | _ => [TypeError 0 (size src)] end.
Proof.
  intros Hc Hp Hn.
  set (s0 := new src {| chunkSize := c; readDelay := rd; opt_paused := p0 |}).
  assert (pending s0 = size src) as Hpe.
  { unfold s0. rewrite pending_new. destruct Hc as [-> | ->]; simpl; lia. }
  assert (scheduled s0 = 1%nat) as Hq by (unfold s0, new; by rewrite scheduled__read).
  assert (readable s0 = true /\ paused s0 = false) as [Hr Hpa].
  { unfold s0, new.
    match goal with |- readable (_read ?s) = _ /\ _ =>
      by destruct (read_frame s) as (_ & _ & _ & -> & ->) end. }
  destruct n as [|n]; [lia|]. cbn [repeat]. rewrite run_cons.
  assert (_start s0 = 0) as Hst by apply start_new.
  rewrite (tick_running s0 0 Hq Hr Hpa), Hpe, Hst, Z.add_0_l.
  destruct (size src =? 0) eqn:Ez.
  - apply Z.eqb_eq in Ez.
    destruct src as [|b rest]; [|unfold size in Ez; simpl in Ez; lia].
    destruct (run_unreadable (repeat Tick n)
                (BlobReadStream.set_readable false (set_scheduled 0 s0)) eq_refl)
      as (s' & -> & _). reflexivity.
  - apply Z.eqb_neq in Ez. destruct src as [|b rest]; [by destruct Ez|].
    by rewrite (ticks_idle n (set_scheduled 0 s0) eq_refl).
Qed.

Lemma whole_source_by_default_witness :
  (Some 0 = None \/ Some 0 = Some 0) /\
  default false None = false /\
  (1 <= 3)%nat /\
  snd (run (repeat Tick 3)
         (new hello {| chunkSize := Some 0; readDelay := None; opt_paused := None |}))
  = [TypeError 0 5].
Proof.
  split; [by right|]. split; [reflexivity|]. split; [lia|].
  exact (whole_source_by_default hello (Some 0) None None 3 (or_intror eq_refl)
           eq_refl ltac:(lia)).
Defined.

(** X14: With a negative chunk size the producer never ends, not even
    over an empty blob: no run emits [end], and left alone a producer that
    is not paused runs one callback, which calls [slice(0, C)] and throws. *)
Theorem negative_chunk_size_never_ends (src : Blob) (C : Z) (rd : option Z)
    (p0 : option bool) :
  C < 0 ->
  default false p0 = false ->
  (forall es,
     ends (snd (run es (new src {| chunkSize := Some C; readDelay := rd;
                                   opt_paused := p0 |}))) = 0%nat) /\
  (forall n,
     snd (run (repeat Tick (S n))
            (new src {| chunkSize := Some C; readDelay := rd; opt_paused := p0 |}))
     = [TypeError 0 C]).
Proof.
  intros HC Hp.
  set (s0 := new src {| chunkSize := Some C; readDelay := rd; opt_paused := p0 |}).
  assert (pending s0 = C) as Hpe.
  { unfold s0. rewrite pending_new. simpl.
    destruct (C =? 0) eqn:Ez; [apply Z.eqb_eq in Ez; lia|]. unfold size. lia. }
  assert (scheduled s0 = 1%nat) as Hq by (unfold s0, new; by rewrite scheduled__read).
  assert (readable s0 = true /\ paused s0 = false) as [Hr Hpa].
  { unfold s0, new.
    match goal with |- readable (_read ?s) = _ /\ _ =>
      by destruct (read_frame s) as (_ & _ & _ & -> & ->) end. }
  split.
  - intros es. destruct (run es s0) as [s out] eqn:Hrun.
    apply (run_no_end _ _ _ _ ltac:(rewrite Hpe; lia) Hrun).
  - intros n. rewrite (ticks_throw (S n) s0 ltac:(rewrite Hpe; lia) Hr Hpa), Hq, Hpe.
    replace (S n `min` 1)%nat with 1%nat by lia.
    assert (_start s0 = 0) as -> by apply start_new. reflexivity.
Qed.

Lemma negative_chunk_size_never_ends_witness :
  -1 < 0 /\
  default false None = false /\
  (forall es,
     ends (snd (run es (new [] {| chunkSize := Some (-1); readDelay := None;
                                  opt_paused := None |}))) = 0%nat) /\
  snd (run (repeat Tick 4)
         (new [] {| chunkSize := Some (-1); readDelay := None; opt_paused := None |}))
  = [TypeError 0 (-1)].
Proof.
  split; [lia|]. split; [reflexivity|].
  destruct (negative_chunk_size_never_ends [] (-1) None None ltac:(lia) eq_refl)
    as [H1 H2].
  split; [exact H1|exact (H2 3%nat)].
Defined.

End MoreProducerFacts.

(** ** Sending a blob: the pipe between a producer and a stream *)

Lemma sent_app (t1 t2 : list Effect) : sent (t1 ++ t2) = sent t1 ++ sent t2.
Proof. apply omap_app. Qed.

Section PipeFacts.

Lemma tick_outputs (s : BlobReadStream.t) :
  (exists s', BlobReadStream.step BlobReadStream.Tick s = (s', []) /\
              BlobReadStream.readable s' = BlobReadStream.readable s /\
              BlobReadStream.paused s' = BlobReadStream.paused s) \/
  (exists s' a b,
     BlobReadStream.step BlobReadStream.Tick s = (s', [BlobReadStream.TypeError a b]) /\
     BlobReadStream.readable s' = true /\ BlobReadStream.paused s' = false) \/
  (exists s', BlobReadStream.step BlobReadStream.Tick s = (s', [BlobReadStream.End]) /\
              BlobReadStream.readable s' = false /\ BlobReadStream.paused s' = false).
Proof.
  unfold BlobReadStream.step. destruct (BlobReadStream.scheduled s) as [|m] eqn:Hs; [left; by eexists|].
  unfold BlobReadStream._emitReadChunk. cbn [BlobReadStream.paused BlobReadStream.readable BlobReadStream.set_scheduled].
  destruct (BlobReadStream.paused s) eqn:Hp; [left; by eexists|].
  destruct (BlobReadStream.readable s) eqn:Hr; [|left; by eexists].
  cbn [orb negb]. cbn [BlobReadStream._source BlobReadStream._start BlobReadStream._readChunkSize].
  destruct (_ =? 0); right; [right|left]; by repeat eexists.
Qed.

Variable L : Listeners.

Lemma pipe_run_app (es1 es2 : list Pipe.Event) (pw : Pipe.t * World) :
  Pipe.run L (es1 ++ es2) pw =
  let '(pw1, t1) := Pipe.run L es1 pw in
  let '(pw2, t2) := Pipe.run L es2 pw1 in (pw2, t1 ++ t2).
Proof.
  revert pw. induction es1 as [|e es1 IH]; intros pw; simpl.
  - by destruct (Pipe.run L es2 pw).
  - destruct (Pipe.step L e pw) as [pw1 t1]. rewrite IH.
    destruct (Pipe.run L es1 pw1) as [pw2 t2].
    destruct (Pipe.run L es2 pw2) as [pw3 t3]. by rewrite app_assoc.
Qed.

(** One callback of the producer, seen from the pipe. *)
Lemma pipe_tick_nothing (p : Pipe.t) (w : World) (src : BlobReadStream.t) :
  BlobReadStream.step BlobReadStream.Tick (Pipe.source p) = (src, []) ->
  Pipe.step L Pipe.Tick (p, w) = (Pipe.set_source src p, w, []).
Proof. intros H. unfold Pipe.step. by rewrite H. Qed.

Lemma pipe_tick_detached (p : Pipe.t) (w : World) :
  Pipe.attached p = false ->
  Pipe.step L Pipe.Tick (p, w)
  = (Pipe.set_source (BlobReadStream.step BlobReadStream.Tick (Pipe.source p)).1 p, w, []).
Proof.
  intros H. unfold Pipe.step.
  destruct (tick_outputs (Pipe.source p))
    as [(s' & -> & _)|[(s' & a & b & -> & _)|(s' & -> & _)]]; [done| |];
    cbn [Pipe.notify]; rewrite bind_eq; unfold Pipe.source_listeners;
    cbn [Pipe.attached Pipe.set_source]; by rewrite H.
Qed.

(** A callback whose slice call throws: the pipe hears nothing. *)
Lemma pipe_tick_throw (p : Pipe.t) (w : World) (src : BlobReadStream.t) (a b : Z) :
  BlobReadStream.step BlobReadStream.Tick (Pipe.source p)
  = (src, [BlobReadStream.TypeError a b]) ->
  Pipe.step L Pipe.Tick (p, w) = (Pipe.set_source src p, w, []).
Proof.
  intros H. unfold Pipe.step. rewrite H. cbn [Pipe.notify].
  rewrite bind_eq. unfold Pipe.source_listeners.
  cbn [Pipe.attached Pipe.set_source]. by destruct (Pipe.attached p).
Qed.

Lemma pipe_tick_end (p : Pipe.t) (w : World) (s : BinaryStream) (src : BlobReadStream.t) :
  BlobReadStream.step BlobReadStream.Tick (Pipe.source p) = (src, [BlobReadStream.End]) ->
  Pipe.attached p = true ->
  heap w !! Pipe.dest p = Some s ->
  Pipe.step L Pipe.Tick (p, w) =
  if Pipe.end_option p && negb (Pipe.didOnEnd p) then
    (Pipe.cleanup (Pipe.set_didOnEnd true (Pipe.set_source src p)),
     set_heap (<[Pipe.dest p := set_readable false s]> (heap w)) w,
     [Send {| kind := 5; payload := VNull; bonus := id s |}])
  else (Pipe.cleanup (Pipe.set_source src p), w, []).
Proof.
  intros H Ha Hs. unfold Pipe.step. rewrite H. cbn [Pipe.notify].
  rewrite bind_eq. unfold Pipe.source_listeners.
  cbn [Pipe.attached Pipe.set_source Pipe.end_option]. rewrite Ha.
  destruct (Pipe.end_option p); [|reflexivity].
  unfold Pipe.onend. cbn [Pipe.didOnEnd Pipe.dest Pipe.set_source].
  destruct (Pipe.didOnEnd p); [reflexivity|].
  cbn [andb negb]. rewrite !bind_eq, (end_eq _ _ _ Hs). reflexivity.
Qed.

Lemma pipe_ticks_detached (n : nat) :
  forall (p : Pipe.t) (w : World),
  Pipe.attached p = false ->
  exists p',
    Pipe.run L (repeat Pipe.Tick n) (p, w) = (p', w, []) /\
    Pipe.attached p' = false.
Proof.
  induction n as [|n IH]; intros p w H; [by exists p|].
  cbn [repeat Pipe.run]. rewrite (pipe_tick_detached p w H).
  destruct (IH (Pipe.set_source
                  (BlobReadStream.step BlobReadStream.Tick (Pipe.source p)).1 p) w H)
    as (p' & -> & Ha).
  by exists p'.
Qed.


(** What the listeners on the destination do with a trace. *)
Lemma react_app (p : Pipe.t) (t1 t2 : list Effect) :
  Pipe.react p (t1 ++ t2) = Pipe.react (Pipe.react p t1) t2.
Proof. apply fold_left_app. Qed.

Lemma react_visible (t : list Effect) :
  forall p, Pipe.react p (visible t) = Pipe.react p t.
Proof.
  induction t as [|x t IH]; intros p; [done|].
  destruct x; cbn [visible omap list_omap]; try apply IH; simpl; apply IH.
Qed.

Lemma dest_listeners_frame (p : Pipe.t) (e : Emission) :
  let p' := Pipe.dest_listeners p e in
  Pipe.dest p' = Pipe.dest p /\
  Pipe.end_option p' = Pipe.end_option p /\
  Pipe.didOnEnd p' = Pipe.didOnEnd p /\
  (Pipe.attached p' = true -> Pipe.attached p = true) /\
  (Pipe.source p' = Pipe.source p \/
   BlobReadStream.readable (Pipe.source p) = true /\
   Pipe.source p' = BlobReadStream.resume (Pipe.source p)).
Proof.
  unfold Pipe.dest_listeners. destruct (emitter e) as [|l]; [by split_and!; auto|].
  destruct (bool_decide (l = Pipe.dest p) && Pipe.attached p) eqn:E;
    [|by split_and!; auto].
  apply andb_true_iff in E as [_ Ha].
  destruct (String.eqb (type e) "drain").
  - unfold Pipe.ondrain.
    destruct (BlobReadStream.readable (Pipe.source p)) eqn:Hr; by split_and!; auto.
  - destruct (_ || _); by split_and!; auto.
Qed.

Lemma react_frame (t : list Effect) :
  forall p,
  let p' := Pipe.react p t in
  Pipe.dest p' = Pipe.dest p /\
  Pipe.end_option p' = Pipe.end_option p /\
  Pipe.didOnEnd p' = Pipe.didOnEnd p /\
  (Pipe.attached p' = true -> Pipe.attached p = true) /\
  exists k,
    BlobReadStream.run (repeat BlobReadStream.CallResume k) (Pipe.source p)
    = (Pipe.source p', []).
Proof.
  induction t as [|x t IH]; intros p.
  { simpl. split_and!; auto. by exists 0%nat. }
  assert (forall p1, Pipe.react p (x :: t) = Pipe.react p1 t ->
            (Pipe.dest p1 = Pipe.dest p /\
             Pipe.end_option p1 = Pipe.end_option p /\
             Pipe.didOnEnd p1 = Pipe.didOnEnd p /\
             (Pipe.attached p1 = true -> Pipe.attached p = true) /\
             (Pipe.source p1 = Pipe.source p \/
              BlobReadStream.readable (Pipe.source p) = true /\
              Pipe.source p1 = BlobReadStream.resume (Pipe.source p))) ->
            let p' := Pipe.react p (x :: t) in
            Pipe.dest p' = Pipe.dest p /\
            Pipe.end_option p' = Pipe.end_option p /\
            Pipe.didOnEnd p' = Pipe.didOnEnd p /\
            (Pipe.attached p' = true -> Pipe.attached p = true) /\
            exists k,
              BlobReadStream.run (repeat BlobReadStream.CallResume k) (Pipe.source p)
              = (Pipe.source p', [])) as Hstep.
  { intros p1 Heq (Hd & He & Hdid & Ha & Hsrc) p'. subst p'. rewrite Heq.
    destruct (IH p1) as (Hd1 & He1 & Hdid1 & Ha1 & k & Hk).
    split_and!; try congruence; [auto|].
    destruct Hsrc as [Hsrc|[_ Hsrc]].
    - exists k. by rewrite <- Hsrc.
    - exists (S k). cbn [repeat BlobReadStream.run BlobReadStream.step].
      rewrite <- Hsrc, Hk. done. }
  destruct x as [e| | |]; [|apply (Hstep p eq_refl); by split_and!; auto..].
  apply (Hstep (Pipe.dest_listeners p e) eq_refl). apply dest_listeners_frame.
Qed.

Lemma react_detaches (p : Pipe.t) (t : list Effect) (ty : string) (a : list Arg) :
  ty = "end" \/ ty = "close" ->
  In (Emit {| emitter := Stream (Pipe.dest p); type := ty; args := a |}) t ->
  Pipe.attached (Pipe.react p t) = false.
Proof.
  intros Hty Hin. apply in_split in Hin as (t1 & t2 & ->).
  rewrite react_app. set (p1 := Pipe.react p t1).
  set (e := {| emitter := Stream (Pipe.dest p); type := ty; args := a |}).
  change (Pipe.react p1 (Emit e :: t2)) with (Pipe.react (Pipe.dest_listeners p1 e) t2).
  assert (Pipe.attached (Pipe.dest_listeners p1 e) = false) as H.
  { unfold Pipe.dest_listeners, e. cbn [emitter type].
    destruct (react_frame t1 p) as (Hd & _). fold p1 in Hd.
    rewrite bool_decide_eq_true_2 by done.
    destruct (Pipe.attached p1) eqn:Ha; [|done]. cbn [andb].
    by destruct Hty as [-> | ->]. }
  destruct (react_frame t2 (Pipe.dest_listeners p1 e)) as (_ & _ & _ & Hmono & _).
  destruct (Pipe.attached (Pipe.react (Pipe.dest_listeners p1 e) t2)); [|done].
  specialize (Hmono eq_refl). congruence.
Qed.

Hypothesis HL : passive L.

Lemma pipe_deliver (p : Pipe.t) (data : Message) (w w' : World) (v : list Effect) :
  yields (onmessage L data) w tt w' v ->
  exists t,
    Pipe.step L (Pipe.Deliver data) (p, w) = (Pipe.react p v, w', t) /\ visible t = v.
Proof.
  intros (t & H & Hv). exists t. unfold Pipe.step. rewrite H, <- Hv, react_visible. done.
Qed.

Lemma yields__onEnd (l : loc) (w : World) (s : BinaryStream) :
  heap w !! l = Some s ->
  yields (_onEnd L l) w tt (set_heap (<[l := set_readable false s]> (heap w)) w)
    [Emit {| emitter := Stream l; type := "end"; args := [] |}].
Proof.
  intros H. unfold _onEnd. change [?e] with ([] ++ [e]).
  eapply yields_bind; [by apply yields_set|]. by apply yields_emit.
Qed.

Lemma sent_visible (t : list Effect) : sent (visible t) = sent t.
Proof.
  induction t as [|x t IH]; [done|].
  destruct x; cbn [visible sent omap list_omap]; try (f_equal; apply IH); apply IH.
Qed.

(** An End or Close message for the destination of the pipe detaches it,
    and no callback of the producer sends anything afterwards. *)
Lemma deliver_end_detaches (p : Pipe.t) (w : World) (i : Z) (s : BinaryStream)
    (k : Z) (pl : Value) (n : nat) (pw : Pipe.t * World) (t : list Effect) :
  _streams w !! i = Some (Pipe.dest p) ->
  heap w !! Pipe.dest p = Some s ->
  k = 5 \/ k = 6 ->
  Pipe.run L (Pipe.Deliver {| kind := k; payload := pl; bonus := i |}
              :: repeat Pipe.Tick n) (p, w) = (pw, t) ->
  sent t = [] /\ Pipe.attached pw.1 = false.
Proof.
  intros Hi Hs Hk.
  assert (exists w' ty,
            (ty = "end" \/ ty = "close") /\
            yields (onmessage L {| kind := k; payload := pl; bonus := i |}) w tt w'
              [Emit {| emitter := Stream (Pipe.dest p); type := ty; args := [] |}])
    as (w' & ty & Hty & Hy).
  { destruct Hk as [-> | ->].
    - eexists _, "end". split; [by left|]. unfold yields.
      rewrite (onmessage_found L w 5 pl i _ ltac:(lia) Hi).
      by apply yields__onEnd.
    - eexists _, "close". split; [by right|]. by apply onmessage_close_known. }
  destruct (pipe_deliver p _ _ _ _ Hy) as (t1 & Hstep & Hv).
  cbn [Pipe.run]. rewrite Hstep.
  destruct (pipe_ticks_detached n (Pipe.react p
              [Emit {| emitter := Stream (Pipe.dest p); type := ty; args := [] |}]) w')
    as (p' & -> & Ha).
  { apply (react_detaches p _ ty []); [done|by left]. }
  intros [= <- <-]. split; [|done].
  rewrite app_nil_r, <- sent_visible, Hv. done.
Qed.

Lemma registry_ok_set_heap (w : World) (l : loc) (s : BinaryStream) :
  registry_ok w -> registry_ok (set_heap (<[l := s]> (heap w)) w).
Proof. intros H i l' Hi. simpl. rewrite length_insert. by apply (H i). Qed.

Lemma lookup_set_heap_ne (l d : loc) (w : World) (s : BinaryStream) :
  l <> d -> heap (set_heap (<[l := s]> (heap w)) w) !! d = heap w !! d.
Proof. intros H. simpl. by apply list_lookup_insert_ne. Qed.

(** A message from the peer, seen from one stream object: nothing is sent,
    the object keeps its identifier, and it stays writable unless it emits
    [close]. *)
Lemma inbound_on_object (k : Z) (pl : Value) (i : Z) (l d : loc) (w : World)
    (sl s : BinaryStream) :
  2 <= k <= 6 ->
  heap w !! l = Some sl ->
  heap w !! d = Some s ->
  exists w' v s',
    yields (inbound L k pl i l) w tt w' v /\
    sent v = [] /\
    heap w' !! d = Some s' /\ id s' = id s /\
    (writable s' = writable s \/
     In (Emit {| emitter := Stream d; type := "close"; args := [] |}) v).
Proof.
  intros Hk Hl Hd.
  assert (forall f : BinaryStream -> BinaryStream,
            (forall x, id (f x) = id x) ->
            exists s', heap (set_heap (<[l := f sl]> (heap w)) w) !! d = Some s' /\
                       id s' = id s /\ (l = d -> s' = f s) /\ (l <> d -> s' = s)) as Hafter.
  { intros f Hf. destruct (decide (l = d)) as [->|Hne].
    - assert (sl = s) as -> by congruence.
      exists (f s). rewrite (lookup_set_heap d w s _ Hd). by split_and!.
    - exists s. rewrite (lookup_set_heap_ne l d w _ Hne). by split_and!. }
  assert (k = 2 \/ k = 3 \/ k = 4 \/ k = 5 \/ k = 6) as Hcases by lia.
  destruct Hcases as [->|[->|[->|[->| ->]]]].
  - change (inbound L 2 pl i l) with (_onData L l pl). unfold _onData.
    destruct (readable sl) eqn:Hr.
    + eexists w, _, s. split.
      { change [?e] with ([] ++ [e]) at 1.
        eapply yields_bind; [by apply yields_get|]. rewrite Hr.
        by apply yields_emit. }
      by split_and!; auto.
    + exists w, [], s. split.
      { change (@nil Effect) with (@nil Effect ++ []).
        eapply yields_bind; [by apply yields_get|]. rewrite Hr. apply yields_ret. }
      by split_and!; auto.
  - destruct (Hafter (set_paused true) ltac:(done)) as (s' & Hs' & Hid & He & Hn).
    eexists _, _, s'. split; [by apply yields__onPause|].
    split_and!; [done..|]. left.
    destruct (decide (l = d)) as [E|E]; [by rewrite (He E)|by rewrite (Hn E)].
  - destruct (Hafter (set_paused false) ltac:(done)) as (s' & Hs' & Hid & He & Hn).
    eexists _, _, s'. split; [by apply yields__onResume|].
    split_and!; [done..|]. left.
    destruct (decide (l = d)) as [E|E]; [by rewrite (He E)|by rewrite (Hn E)].
  - destruct (Hafter (set_readable false) ltac:(done)) as (s' & Hs' & Hid & He & Hn).
    eexists _, _, s'. split; [by apply yields__onEnd|].
    split_and!; [done..|]. left.
    destruct (decide (l = d)) as [E|E]; [by rewrite (He E)|by rewrite (Hn E)].
  - destruct (Hafter closed ltac:(done)) as (s' & Hs' & Hid & He & Hn).
    eexists _, ([_] ++ []), s'. split.
    { unfold inbound. cbn [Z.eqb Pos.eqb].
      eapply yields_bind; [by apply yields__onClose|]. apply yields_modify. }
    split_and!; [done..|].
    destruct (decide (l = d)) as [E|E]; [right; rewrite E; by left|left; by rewrite (Hn E)].
Qed.

Lemma onmessage_on_object (data : Message) (d : loc) (w : World) (s : BinaryStream) :
  registry_ok w ->
  heap w !! d = Some s ->
  exists w' v s',
    yields (onmessage L data) w tt w' v /\
    sent v = [] /\
    registry_ok w' /\
    heap w' !! d = Some s' /\ id s' = id s /\
    (writable s' = writable s \/
     In (Emit {| emitter := Stream d; type := "close"; args := [] |}) v).
Proof.
  intros Hok Hd.
  assert (exists w' v s',
    yields (onmessage L data) w tt w' v /\
    sent v = [] /\
    heap w' !! d = Some s' /\ id s' = id s /\
    (writable s' = writable s \/
     In (Emit {| emitter := Stream d; type := "close"; args := [] |}) v))
    as (w' & v & s' & Hy & H).
  { destruct data as [k pl i].
    destruct (decide (k = 0)) as [->|N0].
    { exists w, [], s. split; [by exists []|]. by split_and!; auto. }
    destruct (decide (k = 1)) as [->|N1].
    { eexists _, _, s. split; [by apply onmessage_open|].
      split_and!; [done| |done|by left].
      simpl. by rewrite lookup_app_l by (by apply lookup_lt_Some in Hd). }
    destruct (decide (2 <= k <= 6)) as [Hk|Hk].
    - destruct (_streams w !! i) as [l|] eqn:Hi.
      + destruct (lookup_lt_is_Some_2 (heap w) l (Hok i l Hi)) as [sl Hl].
        destruct (inbound_on_object k pl i l d w sl s Hk Hl Hd) as (w' & v & s' & Hy & H).
        exists w', v, s'. split; [|done]. unfold yields.
        by rewrite (onmessage_found L w k pl i l Hk Hi).
      + eexists w, _, s. split.
        { unfold yields. rewrite onmessage_cases. cbn [kind payload bonus].
          destruct (in_range_26 k Hk) as (-> & -> & ->).
          change [?e] with ([] ++ [e]).
          eapply yields_bind; [apply yields_lookup_stream|]. rewrite Hi.
          by apply unknown_stream_yields. }
        by split_and!; auto.
    - eexists w, _, s. split.
      { unfold yields. rewrite onmessage_cases. cbn [kind payload bonus].
        rewrite !(proj2 (Z.eqb_neq _ _)) by done.
        replace ((2 <=? k) && (k <=? 6)) with false; [by apply yields_emit|].
        symmetry. apply andb_false_iff.
        destruct (Z.leb_spec 2 k); [right; apply Z.leb_gt; lia|by left]. }
      by split_and!; auto. }
  exists w', v, s'. split; [done|]. destruct H as (H1 & H2 & H3 & H4).
  split_and!; try done.
  destruct Hy as (t & Ht & _).
  exact (perform_registry_ok L (Receive data) w w' (Return tt) t HL Hok Ht).
Qed.

Lemma transmission_end (i : Z) (meta : Value) (cs : list BlobReadStream.Blob) :
  transmission i meta cs false ++ [{| kind := 5; payload := VNull; bonus := i |}]
  = transmission i meta cs true.
Proof. unfold transmission. by rewrite app_nil_r. Qed.

Lemma producer_run_app (es1 es2 : list BlobReadStream.Event) :
  forall (s0 s1 s2 : BlobReadStream.t) (o1 o2 : list BlobReadStream.Notification),
  BlobReadStream.run es1 s0 = (s1, o1) ->
  BlobReadStream.run es2 s1 = (s2, o2) ->
  BlobReadStream.run (es1 ++ es2) s0 = (s2, o1 ++ o2).
Proof.
  induction es1 as [|e es1 IH]; intros s0 s1 s2 o1 o2 H1 H2.
  - injection H1 as <- <-. done.
  - cbn [app BlobReadStream.run] in *.
    destruct (BlobReadStream.step e s0) as [sa oa].
    destruct (BlobReadStream.run es1 sa) as [sb ob] eqn:Hb.
    injection H1 as <- <-. rewrite (IH _ _ _ _ _ Hb H2). by rewrite app_assoc.
Qed.

Lemma producer_run_snoc (es : list BlobReadStream.Event) (e : BlobReadStream.Event)
    (s0 s s' : BlobReadStream.t) (out o : list BlobReadStream.Notification) :
  BlobReadStream.run es s0 = (s, out) ->
  BlobReadStream.step e s = (s', o) ->
  BlobReadStream.run (es ++ [e]) s0 = (s', out ++ o).
Proof.
  intros H1 H2. apply (producer_run_app es [e] s0 s s' out o H1).
  cbn [BlobReadStream.run]. rewrite H2. by rewrite app_nil_r.
Qed.

Section SendInvariant.

Variables (C : Z) (data : BlobReadStream.Blob) (meta : Value) (i : Z).

Let options : BlobReadStream.Options :=
  {| BlobReadStream.chunkSize := Some C;
     BlobReadStream.readDelay := None;
     BlobReadStream.opt_paused := None |}.

Let src0 : BlobReadStream.t := BlobReadStream.new data options.

(** The producer only ends over the empty blob, and never emits a chunk. *)
Lemma ended_run_is_whole (es : list BlobReadStream.Event) (s : BlobReadStream.t)
    (out : list BlobReadStream.Notification) :
  BlobReadStream.run es src0 = (s, out) ->
  In BlobReadStream.End out ->
  concat (BlobReadStream.chunks out) = data.
Proof.
  intros Hrun Hin.
  destruct (run_frame _ _ _ _ Hrun) as (_ & _ & -> & _).
  destruct data as [|b rest] eqn:Hdata; [done|].
  pose proof (run_no_end _ _ _ _ (pending_new_nonempty b rest options) Hrun) as He.
  by apply ends_none in He.
Qed.

Lemma run_chunks_prefix (es : list BlobReadStream.Event) (s : BlobReadStream.t)
    (out : list BlobReadStream.Notification) (cs : list BlobReadStream.Blob) :
  BlobReadStream.run es src0 = (s, out) ->
  cs `prefix_of` BlobReadStream.chunks out ->
  concat cs `prefix_of` data.
Proof.
  intros Hrun Hpre.
  destruct (run_frame _ _ _ _ Hrun) as (_ & _ & Hc & _).
  rewrite Hc in Hpre. apply prefix_nil_inv in Hpre as ->. apply prefix_nil.
Qed.

Lemma pipe_inv_step (e : Pipe.Event) (pw pw' : Pipe.t * World) (acc t : list Effect) :
  pipe_inv src0 data i meta pw acc ->
  Pipe.step L e pw = (pw', t) ->
  pipe_inv src0 data i meta pw' (acc ++ t).
Proof.
  destruct pw as [p w].
  intros (Hok & s & es & out & cs & ended & Hs & Hid & Hrun & Hsent & Hpre & Hend & Hatt)
         Hstep.
  cbn [fst snd] in *.
  destruct e as [|m].
  - (* a callback of the producer *)
    destruct (Pipe.attached p) eqn:Ha.
    + destruct (Hatt eq_refl) as [Hw Hcs].
      assert (ended = false) as ->.
      { destruct ended; [|done]. destruct (Hend eq_refl). congruence. }
      destruct (tick_outputs (Pipe.source p))
        as [(s' & Ht & _)|[(s' & a & b & Ht & _)|(s' & Ht & _)]].
      * rewrite (pipe_tick_nothing p w s' Ht) in Hstep. injection Hstep as <- <-.
        split; [done|]. exists s, (es ++ [BlobReadStream.Tick]), (out ++ []), cs, false.
        cbn [fst snd Pipe.dest Pipe.source Pipe.attached Pipe.set_source].
        rewrite !app_nil_r.
        split_and!; try done.
        rewrite <- (app_nil_r out). by apply (producer_run_snoc es _ _ _ _ _ _ Hrun Ht).
      * rewrite (pipe_tick_throw p w s' a b Ht) in Hstep. injection Hstep as <- <-.
        split; [done|].
        exists s, (es ++ [BlobReadStream.Tick]), (out ++ [BlobReadStream.TypeError a b]),
          cs, false.
        cbn [fst snd Pipe.dest Pipe.source Pipe.attached Pipe.set_source].
        rewrite !app_nil_r.
        split_and!; try done.
        -- by apply (producer_run_snoc es _ _ _ _ _ _ Hrun Ht).
        -- rewrite chunks_app. by apply prefix_app_r.
        -- intros _. split; [done|]. rewrite chunks_app, <- Hcs. by rewrite app_nil_r.
      * rewrite (pipe_tick_end p w s s' Ht Ha Hs) in Hstep.
        pose proof (producer_run_snoc es _ _ _ _ _ _ Hrun Ht) as Hrun1.
        assert (BlobReadStream.chunks (out ++ [BlobReadStream.End]) = cs) as Hcs1.
        { rewrite chunks_app, <- Hcs. apply app_nil_r. }
        destruct (Pipe.end_option p && negb (Pipe.didOnEnd p));
          injection Hstep as <- <-.
        -- split; [by apply registry_ok_set_heap|].
           exists (set_readable false s), (es ++ [BlobReadStream.Tick]),
             (out ++ [BlobReadStream.End]), cs, true.
           cbn [fst snd Pipe.dest Pipe.source Pipe.attached Pipe.set_source
                Pipe.cleanup Pipe.set_attached Pipe.set_didOnEnd].
           split_and!; try done.
           ++ by apply (lookup_set_heap _ _ s).
           ++ rewrite sent_app, Hsent, Hid. apply transmission_end.
           ++ by rewrite Hcs1.
           ++ intros _. split; [|done]. rewrite <- Hcs1.
              apply (ended_run_is_whole _ _ _ Hrun1), in_or_app. right. by left.
        -- split; [done|].
           exists s, (es ++ [BlobReadStream.Tick]), (out ++ [BlobReadStream.End]), cs, false.
           cbn [fst snd Pipe.dest Pipe.source Pipe.attached Pipe.set_source
                Pipe.cleanup Pipe.set_attached].
           rewrite app_nil_r. split_and!; try done. by rewrite Hcs1.
    + rewrite (pipe_tick_detached p w Ha) in Hstep. revert Hstep.
      destruct (BlobReadStream.step BlobReadStream.Tick (Pipe.source p)) as [s' o] eqn:Ht.
      intros [= <- <-].
      split; [done|]. exists s, (es ++ [BlobReadStream.Tick]), (out ++ o), cs, ended.
      cbn [fst snd Pipe.dest Pipe.source Pipe.attached Pipe.set_source].
      rewrite app_nil_r. split_and!; try done.
      * by apply (producer_run_snoc es _ _ _ _ _ _ Hrun Ht).
      * rewrite chunks_app. by apply prefix_app_r.
      * by rewrite Ha.
      * by rewrite Ha.
  - (* a message from the peer *)
    destruct (onmessage_on_object m (Pipe.dest p) w s Hok Hs)
      as (w' & v & s' & Hy & Hsv & Hok' & Hs' & Hid' & Hwr).
    destruct (pipe_deliver p m w w' v Hy) as (t1 & Hstep1 & Hv).
    rewrite Hstep1 in Hstep. injection Hstep as <- <-.
    destruct (react_frame v p) as (Hd & _ & _ & Hmono & k & Hk).
    split; [done|].
    exists s', (es ++ repeat BlobReadStream.CallResume k), (out ++ []), cs, ended.
    cbn [fst snd]. rewrite Hd.
    split_and!; try done.
    + congruence.
    + by apply (producer_run_app _ _ _ _ _ _ _ Hrun Hk).
    + by rewrite sent_app, <- (sent_visible t1), Hv, Hsv, app_nil_r.
    + by rewrite app_nil_r.
    + intros He. destruct (Hend He) as [Hc Hdet]. split; [done|].
      destruct (Pipe.attached (Pipe.react p v)); [|done].
      specialize (Hmono eq_refl). congruence.
    + intros Ha'. destruct (Hatt (Hmono Ha')) as [Hw Hcs]. rewrite app_nil_r.
      split; [|done]. destruct Hwr as [Hwr|Hclose]; [congruence|].
      rewrite (react_detaches p v "close" [] (or_intror eq_refl) Hclose) in Ha'. done.
Qed.

Lemma pipe_inv_run (es : list Pipe.Event) :
  forall (pw pw' : Pipe.t * World) (acc t : list Effect),
  pipe_inv src0 data i meta pw acc ->
  Pipe.run L es pw = (pw', t) ->
  pipe_inv src0 data i meta pw' (acc ++ t).
Proof.
  induction es as [|e es IH]; intros pw pw' acc t Hinv Hrun.
  - injection Hrun as <- <-. by rewrite app_nil_r.
  - cbn [Pipe.run] in Hrun.
    destruct (Pipe.step L e pw) as [pw1 t1] eqn:Hstep.
    destruct (Pipe.run L es pw1) as [pw2 t2] eqn:Hrest.
    injection Hrun as <- <-. rewrite app_assoc.
    apply (IH pw1); [|done]. by apply (pipe_inv_step e pw).
Qed.

End SendInvariant.

(** [send] of a blob, up to its return. *)
Lemma send_blob_starts (C : Z) (data : BlobReadStream.Blob) (meta : Value) (w : World) :
  let p0 :=
    {| Pipe.source :=
         BlobReadStream.new data
           {| BlobReadStream.chunkSize := Some C;
              BlobReadStream.readDelay := None;
              BlobReadStream.opt_paused := None |};
       Pipe.dest := length (heap w);
       Pipe.end_option := true;
       Pipe.attached := true;
       Pipe.didOnEnd := false |} in
  let w1 :=
    set_streams (<[_nextId w := length (heap w)]> (_streams w))
      (set_heap (heap w ++ [fresh (_nextId w)]) (set_nextId (add_two (_nextId w)) w)) in
  exists t0,
    send_blob L C data meta w = (Return p0, w1, t0) /\
    sent t0 = [{| kind := 1; payload := meta; bonus := _nextId w |}].
Proof.
  intros p0 w1.
  assert (yields (send_blob L C data meta) w p0 w1
            ([Send {| kind := 1; payload := meta; bonus := _nextId w |}] ++
             [Emit {| emitter := Stream (length (heap w)); type := "newListener";
                      args := [AValue (VStr "drain"); AValue (VStr "ondrain");
                               AValue VUndefined; AValue VUndefined] |}] ++
             [Emit {| emitter := Stream (length (heap w)); type := "newListener";
                      args := [AValue (VStr "error"); AValue (VStr "onerror");
                               AValue VUndefined; AValue VUndefined] |}] ++
             [Emit {| emitter := Stream (length (heap w)); type := "newListener";
                      args := [AValue (VStr "end"); AValue (VStr "cleanup");
                               AValue VUndefined; AValue VUndefined] |}] ++
             [Emit {| emitter := Stream (length (heap w)); type := "newListener";
                      args := [AValue (VStr "close"); AValue (VStr "cleanup");
                               AValue VUndefined; AValue VUndefined] |}] ++
             [Emit {| emitter := Stream (length (heap w)); type := "pipe";
                      args := [AValue (VStr "source")] |}] ++ []))
    as (t0 & Ht0 & Hv).
  { unfold send_blob.
    eapply yields_bind.
    { eexists. split; [apply createStream_eq|reflexivity]. }
    unfold Pipe.pipe.
    do 5 (eapply yields_bind; [by apply yields_emit|]).
    apply yields_ret. }
  exists t0. split; [done|]. by rewrite <- sent_visible, Hv.
Qed.

(** The invariant of the pipe holds when [send] returns. *)
Lemma send_blob_inv (C : Z) (data : BlobReadStream.Blob) (meta : Value) (w : World)
    (t0 : list Effect) :
  registry_ok w ->
  sent t0 = [{| kind := 1; payload := meta; bonus := _nextId w |}] ->
  pipe_inv
    (BlobReadStream.new data
       {| BlobReadStream.chunkSize := Some C;
          BlobReadStream.readDelay := None;
          BlobReadStream.opt_paused := None |})
    data (_nextId w) meta
    ({| Pipe.source :=
          BlobReadStream.new data
            {| BlobReadStream.chunkSize := Some C;
               BlobReadStream.readDelay := None;
               BlobReadStream.opt_paused := None |};
        Pipe.dest := length (heap w);
        Pipe.end_option := true;
        Pipe.attached := true;
        Pipe.didOnEnd := false |},
     set_streams (<[_nextId w := length (heap w)]> (_streams w))
       (set_heap (heap w ++ [fresh (_nextId w)])
          (set_nextId (add_two (_nextId w)) w)))
    t0.
Proof.
  intros Hok Hsent. split.
  - cbn [snd]. intros j l. simpl. rewrite length_app. simpl.
    destruct (decide (j = _nextId w)) as [->|Hne].
    + rewrite lookup_insert_eq. intros [= <-]. lia.
    + rewrite lookup_insert_ne by done. intros H. apply Hok in H. lia.
  - exists (fresh (_nextId w)), [], [], [], false. cbn [fst snd Pipe.dest].
    split_and!; try done.
    simpl. apply lookup_fresh.
Qed.

(** X15: [send] of a blob returns, and whatever callbacks run and
    messages arrive afterwards, what has been sent is the StreamOpen
    message, then Data messages whose payloads, concatenated in order, are a
    prefix of the blob, then at most one End message, which is only sent
    after the whole blob. *)
Theorem send_keeps_order (C : Z) (data : BlobReadStream.Blob) (meta : Value)
    (w : World) :
  registry_ok w ->
  0 <= C ->
  exists p w1 t0,
    send_blob L C data meta w = (Return p, w1, t0) /\
    forall es pw t,
      Pipe.run L es (p, w1) = (pw, t) ->
      exists cs ended,
        sent (t0 ++ t) = transmission (_nextId w) meta cs ended /\
        concat cs `prefix_of` data /\
        (ended = true -> concat cs = data).
Proof.
  intros Hok HC.
  destruct (send_blob_starts C data meta w) as (t0 & Hsend & Hsent).
  eexists _, _, t0. split; [exact Hsend|].
  intros es pw t Hrun.
  eapply (pipe_inv_run C data meta (_nextId w) es _ pw t0 t) in Hrun.
  - destruct Hrun as (_ & s & esrc & out & cs & ended & _ & _ & Hr & Hs & Hpre & Hend & _).
    exists cs, ended. split; [done|]. split.
    + by apply (run_chunks_prefix C data esrc _ out cs Hr).
    + intros He. by destruct (Hend He).
  - by apply send_blob_inv.
Qed.

(** X16: Over a blob that is not empty, [send] never gets past the
    StreamOpen message: it returns, and whatever callbacks run and messages
    arrive afterwards, nothing else has been sent, no Data message and no
    End message, and the producer's cursor is still at 0. *)
Theorem blob_send_stalls (C : Z) (b : byte) (rest : BlobReadStream.Blob) (meta : Value)
    (w : World) :
  registry_ok w ->
  exists p w1 t0,
    send_blob L C (b :: rest) meta w = (Return p, w1, t0) /\
    forall es pw t,
      Pipe.run L es (p, w1) = (pw, t) ->
      sent (t0 ++ t) = [{| kind := 1; payload := meta; bonus := _nextId w |}] /\
      BlobReadStream._start (Pipe.source pw.1) = 0.
Proof.
  intros Hok.
  destruct (send_blob_starts C (b :: rest) meta w) as (t0 & Hsend & Hsent).
  eexists _, _, t0. split; [exact Hsend|].
  intros es pw t Hrun.
  eapply (pipe_inv_run C (b :: rest) meta (_nextId w) es _ pw t0 t) in Hrun.
  - destruct Hrun as (_ & s & esrc & out & cs & ended & _ & _ & Hr & Hs & Hpre & Hend & _).
    destruct (run_frame _ _ _ _ Hr) as (_ & Hst & Hc & _).
    rewrite Hc in Hpre. apply prefix_nil_inv in Hpre as ->.
    split; [|by rewrite Hst, start_new].
    rewrite Hs. destruct ended; [|done]. by destruct (Hend eq_refl).
  - by apply send_blob_inv.
Qed.

(** X18: An End or Close message from the peer for the stream that [send]
    created for a blob, arriving while the stream is registered, detaches
    the pipe [send] made: no callback of the producer sends anything
    afterwards. *)
Theorem peer_end_aborts_send (C : Z) (data : BlobReadStream.Blob) (meta : Value)
    (w : World) (p : Pipe.t) (w0 : World) (t0 : list Effect) (es : list Pipe.Event)
    (p1 : Pipe.t) (w1 : World) (t1 : list Effect) (k : Z) (pl : Value) (n : nat)
    (pw : Pipe.t * World) (t : list Effect) :
  registry_ok w ->
  send_blob L C data meta w = (Return p, w0, t0) ->
  Pipe.run L es (p, w0) = (p1, w1, t1) ->
  _streams w1 !! _nextId w = Some (Pipe.dest p1) ->
  k = 5 \/ k = 6 ->
  Pipe.run L (Pipe.Deliver {| kind := k; payload := pl; bonus := _nextId w |}
              :: repeat Pipe.Tick n) (p1, w1) = (pw, t) ->
  sent t = [] /\ Pipe.attached pw.1 = false.
Proof.
  intros Hok Hsend Hrun Hi Hk Hend.
  destruct (send_blob_starts C data meta w) as (t0' & Hsend' & Hsent).
  rewrite Hsend in Hsend'. injection Hsend' as -> -> ->.
  eapply (pipe_inv_run C data meta (_nextId w) es _ (p1, w1) t0' t1) in Hrun;
    [|by apply send_blob_inv].
  destruct Hrun as (_ & s & _ & _ & _ & _ & Hs & _).
  exact (deliver_end_detaches p1 w1 (_nextId w) s k pl n pw t Hi Hs Hk Hend).
Qed.

End PipeFacts.

Lemma send_keeps_order_witness :
  let w := new_BinaryClient quiet_socket in
  passive no_listeners /\
  registry_ok w /\
  0 <= 2 /\
  exists p w1 t0,
    send_blob no_listeners 2 hello (VStr "file") w = (Return p, w1, t0) /\
    forall es pw t,
      Pipe.run no_listeners es (p, w1) = (pw, t) ->
      exists cs ended,
        sent (t0 ++ t) = transmission (_nextId w) (VStr "file") cs ended /\
        concat cs `prefix_of` hello /\
        (ended = true -> concat cs = hello).
Proof.
  intros w. split; [exact no_listeners_passive|].
  split; [exact (new_client_registry_ok quiet_socket)|]. split; [lia|].
  exact (send_keeps_order no_listeners no_listeners_passive 2 hello (VStr "file") w
           (new_client_registry_ok quiet_socket) ltac:(lia)).
Defined.

Lemma blob_send_stalls_witness :
  let w := new_BinaryClient quiet_socket in
  passive no_listeners /\
  registry_ok w /\
  exists p w1 t0,
    send_blob no_listeners 2 hello (VStr "file") w = (Return p, w1, t0) /\
    forall es pw t,
      Pipe.run no_listeners es (p, w1) = (pw, t) ->
      sent (t0 ++ t) = [{| kind := 1; payload := VStr "file"; bonus := 0 |}] /\
      BlobReadStream._start (Pipe.source pw.1) = 0.
Proof.
  intros w. split; [exact no_listeners_passive|].
  split; [exact (new_client_registry_ok quiet_socket)|].
  exact (blob_send_stalls no_listeners no_listeners_passive 2 "h"%byte
           ["e"; "l"; "l"; "o"]%byte (VStr "file") w
           (new_client_registry_ok quiet_socket)).
Defined.


Lemma peer_end_aborts_send_witness :
  let w := new_BinaryClient quiet_socket in
  let p := {| Pipe.source :=
                BlobReadStream.new []
                  {| BlobReadStream.chunkSize := Some 2;
                     BlobReadStream.readDelay := None;
                     BlobReadStream.opt_paused := None |};
              Pipe.dest := 0%nat;
              Pipe.end_option := true;
              Pipe.attached := true;
              Pipe.didOnEnd := false |} in
  let w0 := {| heap := [fresh 0]; _streams := {[ 0 := 0%nat ]}; _nextId := 2;
               _socket := quiet_socket |} in
  let es := [Pipe.Deliver {| kind := 3; payload := VNull; bonus := 0 |}] in
  let end_0 := Pipe.Deliver {| kind := 5; payload := VNull; bonus := 0 |} in
  let before := (Pipe.run no_listeners es (p, w0)).1 in
  passive no_listeners /\
  registry_ok w /\
  (send_blob no_listeners 2 [] (VStr "file") w).1 = (Return p, w0) /\
  _streams before.2 !! _nextId w = Some (Pipe.dest before.1) /\
  (5 = 5 \/ 5 = 6) /\
  sent (Pipe.run no_listeners (end_0 :: repeat Pipe.Tick 4) before).2 = [] /\
  Pipe.attached (Pipe.run no_listeners (end_0 :: repeat Pipe.Tick 4) before).1.1 = false.
Proof.
  intros w p w0 es end_0 before.
  assert ((send_blob no_listeners 2 [] (VStr "file") w).1 = (Return p, w0)) as H0
    by reflexivity.
  assert (_streams before.2 !! _nextId w = Some (Pipe.dest before.1)) as H1
    by reflexivity.
  split; [exact no_listeners_passive|].
  split; [exact (new_client_registry_ok quiet_socket)|].
  split; [exact H0|]. split; [exact H1|]. split; [by left|].
  destruct (send_blob no_listeners 2 [] (VStr "file") w) as [[o w0'] t0] eqn:Hsend.
  cbn [fst] in H0. injection H0 as -> ->.
  unfold before in *.
  destruct (Pipe.run no_listeners es (p, w0)) as [[p1 w1] t1] eqn:Hrun.
  cbn [fst snd] in *.
  destruct (Pipe.run no_listeners (end_0 :: repeat Pipe.Tick 4) (p1, w1))
    as [pw t] eqn:Hend.
  exact (peer_end_aborts_send no_listeners no_listeners_passive 2 [] (VStr "file") w
           p w0 t0 es p1 w1 t1 5 VNull 4 pw t
           (new_client_registry_ok quiet_socket) Hsend Hrun H1
           (or_introl eq_refl) Hend).
Defined.

(** ** The event emitter *)

Section EventEmitterFacts.

Import EventEmitter.

Lemma E_bind_eq {A B} (m : E A) (k : A -> E B) (e : t) :
  (m ≫= k) e =
  match m e with
  | (Return a, e1, t1) => let '(o, e2, t2) := k a e1 in (o, e2, t1 ++ t2)
  | (Throw err, e1, t1) => (Throw err, e1, t1)
  end.
Proof. reflexivity. Qed.

Lemma E_bind_return {A B} (m : E A) (k : A -> E B) (e e1 : t) (a : A) :
  m e = (Return a, e1, []) -> (m ≫= k) e = k a e1.
Proof. intros H. rewrite E_bind_eq, H. by destruct (k a e1) as [[o e2] t2]. Qed.

Lemma set_items_id (a : Array) : set_items (items a) a = a.
Proof. by destruct a. Qed.

Lemma array_of_Some (e : t) (ty : string) (r : nat) (a : Array) :
  _events e !! ty = Some r -> store e !! r = Some a -> array_of e ty = Some (r, a).
Proof. intros H1 H2. unfold array_of. by rewrite H1, H2. Qed.

(** The state in which the array at [r] holds [l]. *)
Lemma array_of_updated (e : t) (ty : string) (r : nat) (a b : Array) :
  _events e !! ty = Some r -> store e !! r = Some a ->
  array_of (set_store (<[r := b]> (store e)) e) ty = Some (r, b).
Proof.
  intros H1 H2. unfold array_of. cbn [_events store set_store]. rewrite H1.
  by rewrite list_lookup_insert_eq by (by apply lookup_lt_Some in H2).
Qed.

Lemma skip_remove_none (P : Event -> bool) (l : list Event) :
  Forall (fun x => P x = false) l -> skip_remove P l = l.
Proof.
  induction 1 as [|x l Hx Hl IH]; [done|]. simpl. by rewrite Hx, IH.
Qed.

Lemma skip_remove_first (P : Event -> bool) (pre post : list Event) (x : Event) :
  Forall (fun x => P x = false) pre -> P x = true ->
  skip_remove P (pre ++ x :: post) =
  pre ++ match post with [] => [] | y :: post' => y :: skip_remove P post' end.
Proof.
  induction 1 as [|z pre Hz Hpre IH]; intros Hx; simpl.
  - by rewrite Hx.
  - by rewrite Hz, IH.
Qed.

Lemma splice_eq (ty : string) (i : nat) (e : t) (r : nat) (a : Array) :
  array_of e ty = Some (r, a) ->
  splice ty i e =
  (Return tt, set_store (<[r := set_items (delete i (items a)) a]> (store e)) e, []).
Proof. intros H. unfold splice. rewrite E_bind_eq. cbn [get_state]. by rewrite H. Qed.

Lemma delete_middle {A} (pre rest : list A) (x : A) :
  delete (length pre) (pre ++ x :: rest) = pre ++ rest.
Proof. induction pre as [|z pre IH]; [done|]. simpl. by rewrite IH. Qed.

(** The loop of [removeListener]. *)
Lemma remove_loop (ty : string) (f : nat) (sc : Val) (r : nat) (turns : nat) :
  forall (suf pre : list Event) (e : t) (a : Array),
  _events e !! ty = Some r ->
  store e !! r = Some a ->
  items a = pre ++ suf ->
  (length suf < turns)%nat ->
  eachListener_from turns r
    (fun currentListener index =>
       if matches f sc currentListener
       then splice ty index ;; ret Undefined
       else ret Undefined)
    (length pre) e
  = (Return tt,
     set_store (<[r := set_items (pre ++ skip_remove (matches f sc) suf) a]> (store e)) e,
     []).
Proof.
  induction turns as [|turns IH]; intros suf pre e a Hty Hr Hitems Hlen; [lia|].
  cbn [eachListener_from]. rewrite E_bind_eq. cbn [get_state]. rewrite Hr, Hitems.
  destruct suf as [|x rest].
  - rewrite app_nil_r, lookup_ge_None_2 by done. cbn.
    rewrite <- Hitems, set_items_id, list_insert_id by done. by destruct e.
  - rewrite list_lookup_middle by done. rewrite E_bind_eq.
    cbn [skip_remove]. destruct (matches f sc x) eqn:Hm.
    + (* the element is spliced out; the next one is stepped over *)
      assert ((splice ty (length pre) ;; ret Undefined) e
              = (Return Undefined,
                 set_store (<[r := set_items (pre ++ rest) a]> (store e)) e, [])) as ->.
      { rewrite E_bind_eq, (splice_eq ty (length pre) e r a (array_of_Some e ty r a Hty Hr)).
        by rewrite Hitems, delete_middle. }
      set (e1 := set_store (<[r := set_items (pre ++ rest) a]> (store e)) e).
      assert (store e1 !! r = Some (set_items (pre ++ rest) a)) as Hr1.
      { unfold e1. cbn. apply list_lookup_insert_eq. by apply lookup_lt_Some in Hr. }
      destruct rest as [|y rest'].
      * destruct turns as [|turns]; [simpl in Hlen; lia|].
        cbn [eachListener_from]. rewrite E_bind_eq. cbn [get_state]. rewrite Hr1.
        cbn [items set_items]. rewrite lookup_ge_None_2 by (rewrite app_nil_r; lia).
        cbn. unfold e1. by rewrite app_nil_r.
      * specialize (IH rest' (pre ++ [y]) e1 (set_items (pre ++ y :: rest') a)).
        rewrite length_app in IH. cbn [length] in IH.
        rewrite Nat.add_1_r in IH. rewrite IH.
        -- unfold e1. cbn. rewrite list_insert_insert_eq. by rewrite <- app_assoc.
        -- done.
        -- done.
        -- cbn. by rewrite <- app_assoc.
        -- simpl in Hlen. lia.
    + change ((ret Undefined : E Val) e) with (Return Undefined, e, @nil Effect).
      cbv beta iota.
      specialize (IH rest (pre ++ [x]) e a Hty Hr).
      rewrite length_app in IH. cbn [length] in IH. rewrite Nat.add_1_r in IH.
      rewrite IH.
      * by rewrite <- app_assoc.
      * by rewrite <- app_assoc.
      * simpl in Hlen. lia.
Qed.

(** [removeListener], exactly. *)
Lemma removeListener_eq (ty : string) (f : nat) (sc : Val) (e : t) (r : nat) (a : Array) :
  _events e !! ty = Some r ->
  store e !! r = Some a ->
  removeListener ty f sc e =
  let l := skip_remove (matches f sc) (items a) in
  let e1 := set_store (<[r := set_items l a]> (store e)) e in
  (Return tt,
   if (length l =? 0)%nat then set_events (delete ty (_events e1)) e1 else e1,
   []).
Proof.
  intros Hty Hr. unfold removeListener, eachListener.
  rewrite E_bind_eq, E_bind_eq. cbn [get_state].
  rewrite (array_of_Some e ty r a Hty Hr).
  pose proof (remove_loop ty f sc r (S (length (items a))) (items a) [] e a Hty Hr eq_refl
                ltac:(lia)) as Hloop.
  cbn [length app] in Hloop. rewrite Hloop. rewrite E_bind_eq. cbn [get_state].
  rewrite (array_of_updated e ty r a _ Hty Hr). cbn [items set_items].
  by destruct (length _ =? 0)%nat.
Qed.

Lemma removeListener_absent (ty : string) (f : nat) (sc : Val) (e : t) :
  array_of e ty = None -> removeListener ty f sc e = (Return tt, e, []).
Proof.
  intros H. unfold removeListener.
  rewrite (E_bind_return _ _ e e tt).
  - rewrite E_bind_eq. cbn [get_state]. by rewrite H.
  - unfold eachListener. rewrite E_bind_eq. cbn [get_state]. by rewrite H.
Qed.

Lemma array_of_inv (e : t) (ty : string) (r : nat) (a : Array) :
  array_of e ty = Some (r, a) -> _events e !! ty = Some r /\ store e !! r = Some a.
Proof.
  unfold array_of. destruct (_events e !! ty) as [r'|]; [|done].
  destruct (store e !! r') as [a'|] eqn:Hr; [|done]. intros [= <- <-]. by rewrite Hr.
Qed.

(** What is registered after [removeListener], in terms of its loop. *)
Lemma removeListener_registered (ty : string) (f : nat) (sc : Val) (e : t) :
  exists e',
    removeListener ty f sc e = (Return tt, e', []) /\
    registered e' ty = skip_remove (matches f sc) (registered e ty).
Proof.
  unfold registered at 2. destruct (array_of e ty) as [[r a]|] eqn:Ha.
  - destruct (array_of_inv e ty r a Ha) as [Hty Hr].
    rewrite (removeListener_eq ty f sc e r a Hty Hr). cbv zeta.
    eexists. split; [reflexivity|].
    destruct (skip_remove (matches f sc) (items a)) as [|x l] eqn:Hl.
    + cbn [length Nat.eqb]. unfold registered, array_of. cbn [_events set_events].
      by rewrite lookup_delete_eq.
    + cbn [length Nat.eqb]. unfold registered.
      by rewrite (array_of_updated e ty r a _ Hty Hr).
  - exists e. split; [by apply removeListener_absent|]. unfold registered. by rewrite Ha.
Qed.

Lemma matches_listener (f : nat) (sc : Val) (ev : Event) :
  matches f sc ev = true -> listener ev = f.
Proof. unfold matches. intros H. apply andb_true_iff in H as [H _]. by apply bool_decide_eq_true in H. Qed.

Lemma matches_self (ev : Event) : matches (listener ev) (scope ev) ev = true.
Proof.
  unfold matches. rewrite !bool_decide_eq_true_2 by done. by rewrite orb_true_r.
Qed.

Lemma no_other_match (f : nat) (sc : Val) (l : list Event) :
  f ∉ map listener l -> Forall (fun ev => matches f sc ev = false) l.
Proof.
  intros H. apply Forall_forall. intros ev Hev.
  destruct (matches f sc ev) eqn:Hm; [|done].
  exfalso. apply H. rewrite <- (matches_listener f sc ev Hm).
  apply list_elem_of_fmap. by exists ev.
Qed.

Lemma filter_all {A} (P : A -> Prop) `{!forall x, Decision (P x)} (l : list A) :
  Forall P l -> filter P l = l.
Proof.
  induction 1 as [|x l Hx Hl IH]; [done|]. by rewrite filter_cons_True, IH.
Qed.

Lemma skip_remove_unique (f : nat) (sc : Val) (l : list Event) :
  NoDup (map listener l) ->
  skip_remove (matches f sc) l = filter (fun ev => matches f sc ev = false) l.
Proof.
  induction l as [|x rest IH]; intros Hnd; [done|].
  cbn [map] in Hnd. apply NoDup_cons in Hnd as [Hx Hnd].
  cbn [skip_remove]. rewrite filter_cons.
  destruct (matches f sc x) eqn:Hm.
  - rewrite decide_False by done.
    rewrite <- (matches_listener f sc x Hm) in *.
    pose proof (no_other_match (listener x) sc rest Hx) as Hrest.
    rewrite (filter_all _ rest Hrest).
    destruct rest as [|y rest']; [done|].
    apply Forall_cons in Hrest as [_ Hrest]. by rewrite skip_remove_none.
  - rewrite decide_True by done. by rewrite IH.
Qed.

(** X19: When no function is registered twice for the type,
    [removeListener(type, f, scope)] removes exactly the registration of [f]
    (with that scope, when one is given), keeps the others in order and
    calls no listener. *)
Theorem removeListener_removes_unique (e : t) (ty : string) (f : nat) (sc : Val) :
  NoDup (map listener (registered e ty)) ->
  exists e',
    removeListener ty f sc e = (Return tt, e', []) /\
    registered e' ty = filter (fun ev => matches f sc ev = false) (registered e ty).
Proof.
  intros Hnd. destruct (removeListener_registered ty f sc e) as (e' & He & Hr).
  exists e'. split; [done|]. by rewrite Hr, skip_remove_unique.
Qed.

(** X20: The loop of [removeListener] never looks at the registration
    that follows one it removed: whatever it is, another registration of the
    same function included, it stays registered. *)
Theorem removeListener_skips_next (e : t) (ty : string) (f : nat) (sc : Val)
    (pre post : list Event) (x y : Event) :
  registered e ty = pre ++ x :: y :: post ->
  Forall (fun ev => matches f sc ev = false) pre ->
  matches f sc x = true ->
  Forall (fun ev => matches f sc ev = false) post ->
  exists e',
    removeListener ty f sc e = (Return tt, e', []) /\
    registered e' ty = pre ++ y :: post.
Proof.
  intros Hreg Hpre Hx Hpost.
  destruct (removeListener_registered ty f sc e) as (e' & He & Hr).
  exists e'. split; [done|].
  by rewrite Hr, Hreg, (skip_remove_first _ pre _ x Hpre Hx), skip_remove_none.
Qed.

Lemma lookup_fresh_array (s : list Array) (a : Array) : (s ++ [a]) !! length s = Some a.
Proof. by rewrite list_lookup_middle. Qed.

Lemma insert_fresh_array (s : list Array) (a b : Array) :
  <[length s := b]> (s ++ [a]) = s ++ [b].
Proof. by rewrite insert_app_r_alt, Nat.sub_diag by done. Qed.

Lemma matches_self_at (f : nat) (sc on : Val) (ty : string) :
  matches f sc {| type := ty; listener := f; scope := sc; once := on |} = true.
Proof. apply (matches_self {| type := ty; listener := f; scope := sc; once := on |}). Qed.

(** The loop of [emit], over an array in which no function is registered
    twice. *)
Lemma emit_loop (ty : string) (args : list Val) (r : nat) (turns : nat) :
  forall (suf pre : list Event) (e : t) (a : Array),
  _events e !! ty = Some r ->
  store e !! r = Some a ->
  items a = pre ++ suf ->
  NoDup (map listener (pre ++ suf)) ->
  Forall (fun ev => type ev = ty) suf ->
  (length suf < turns)%nat ->
  exists e',
    eachListener_from turns r (fun currentListener _ => fire currentListener args)
      (length pre) e
    = (Return tt, e', map (call_of args) suf) /\
    registered e' ty = pre ++ filter (fun ev => permanent ev = true) suf.
Proof.
  induction turns as [|turns IH]; intros suf pre e a Hty Hr Hitems Hnd Htype Hlen; [lia|].
  cbn [eachListener_from]. rewrite E_bind_eq. cbn [get_state]. rewrite Hr, Hitems.
  destruct suf as [|x rest].
  - rewrite app_nil_r, lookup_ge_None_2 by done. exists e. split; [done|].
    unfold registered. rewrite (array_of_Some e ty r a Hty Hr), Hitems. done.
  - rewrite list_lookup_middle by done.
    apply Forall_cons in Htype as [Hx Htype].
    rewrite E_bind_eq. unfold fire at 1. rewrite E_bind_eq. cbn [tell].
    fold (call_of args x).
    destruct (truthy (once x)) eqn:Honce.
    + (* a once listener: called, then removed *)
      rewrite filter_cons_False by (unfold permanent; by rewrite Honce).
      assert (skip_remove (matches (listener x) (scope x)) (pre ++ x :: rest) = pre ++ rest)
        as Hskip.
      { rewrite map_app in Hnd. cbn [map] in Hnd.
        apply NoDup_app in Hnd as (_ & Hpre & Hnd).
        apply NoDup_cons in Hnd as [Hrest _].
        rewrite (skip_remove_first _ pre rest x); [|apply no_other_match|apply matches_self].
        - destruct rest as [|y rest']; [done|].
          pose proof (no_other_match (listener x) (scope x) (y :: rest') Hrest) as H.
          apply Forall_cons in H as [_ H]. by rewrite skip_remove_none.
        - intros Hin. apply (Hpre _ Hin). by left. }
      rewrite E_bind_eq, Hx, (removeListener_eq ty _ _ e r a Hty Hr), Hitems, Hskip.
      cbv zeta.
      assert (NoDup (map listener (pre ++ rest))) as Hnd1.
      { rewrite map_app in *. cbn [map] in Hnd.
        apply NoDup_app in Hnd as (H1 & H2 & H3). apply NoDup_cons in H3 as [_ H3].
        apply NoDup_app. split_and!; [done| |done].
        intros z Hz Hz'. apply (H2 z Hz). by apply list_elem_of_further. }
      destruct (pre ++ rest) as [|z l] eqn:Hl.
      * (* the array is empty and the type is no longer registered *)
        apply app_eq_nil in Hl as [-> ->].
        cbn [length Nat.eqb].
        destruct turns as [|turns]; [simpl in Hlen; lia|].
        set (e1 := set_events _ _).
        exists e1. split.
        { change ((ret (Bool false) : E Val) e1) with (Return (Bool false), e1, @nil Effect).
          cbv beta iota. cbn [eachListener_from]. rewrite E_bind_eq. cbn [get_state].
          assert (store e1 !! r = Some (set_items [] a)) as ->.
          { unfold e1. cbn. apply list_lookup_insert_eq. by apply lookup_lt_Some in Hr. }
          reflexivity. }
        unfold registered, array_of, e1. cbn [_events set_events].
        by rewrite lookup_delete_eq.
      * cbn [length Nat.eqb]. rewrite <- Hl in *.
        set (e1 := set_store (<[r := set_items (pre ++ rest) a]> (store e)) e).
        destruct (IH rest pre e1 (set_items (pre ++ rest) a)) as (e' & He' & Hreg);
          try done.
        { unfold e1. cbn. apply list_lookup_insert_eq. by apply lookup_lt_Some in Hr. }
        { simpl in Hlen. lia. }
        exists e'. split; [|done].
        cbn [app]. change ((ret (Bool false) : E Val) e1) with (Return (Bool false), e1, @nil Effect).
        cbv beta iota. rewrite He'. reflexivity.
    + rewrite filter_cons_True by (unfold permanent; by rewrite Honce).
      change ((ret Undefined : E Val) e) with (Return Undefined, e, @nil Effect).
      cbv beta iota.
      destruct (IH rest (pre ++ [x]) e a Hty Hr) as (e' & He' & Hreg).
      * by rewrite <- app_assoc.
      * by rewrite <- app_assoc.
      * done.
      * simpl in Hlen. lia.
      * rewrite length_app in He'. cbn [length] in He'. rewrite Nat.add_1_r in He'.
        exists e'. rewrite He'. split; [done|]. by rewrite Hreg, <- app_assoc.
Qed.

(** X21: When no function is registered twice for the type, [emit] calls
    every listener of the type once, in registration order, with its scope
    (or the emitter) as [this] and the arguments of the call; afterwards
    exactly the listeners that were not registered with [once] remain, in
    order.  Without listeners nothing happens, for [error] as for any
    type. *)
Theorem emit_calls_in_order (e : t) (ty : string) (args : list Val) :
  NoDup (map listener (registered e ty)) ->
  Forall (fun ev => type ev = ty) (registered e ty) ->
  exists e',
    emit ty args e = (Return tt, e', map (call_of args) (registered e ty)) /\
    registered e' ty = filter (fun ev => permanent ev = true) (registered e ty).
Proof.
  unfold registered at 1 2 3 5. unfold emit, eachListener.
  rewrite E_bind_eq. cbn [get_state].
  destruct (array_of e ty) as [[r a]|] eqn:Ha.
  - intros Hnd Htype. destruct (array_of_inv e ty r a Ha) as [Hty Hr].
    destruct (emit_loop ty args r (S (length (items a))) (items a) [] e a Hty Hr eq_refl
                Hnd Htype ltac:(lia)) as (e' & He' & Hreg).
    cbn [length app] in He', Hreg. rewrite He'. by exists e'.
  - intros _ _. exists e. split; [done|]. unfold registered. by rewrite Ha.
Qed.

(** X22: On an emitter that has a listener limit and no [newListener]
    listener, [once('newListener', f)] calls [f] for its own registration,
    removes it, and then throws a TypeError: [addListener] reads the
    [warned] flag of an array that no longer exists.  The emitter is left
    without the registration. *)
Theorem once_newListener_throws (e : t) (f : nat) (sc : Val) :
  _events e !! "newListener" = None ->
  _maxListeners e <> 0 ->
  exists e',
    once_ "newListener" f sc e
    = (Throw "TypeError", e',
       [Call f (if truthy sc then sc else Instance)
          [Str "newListener"; Fun f; sc; Bool true]]) /\
    _events e' = _events e /\
    registered e' "newListener" = [].
Proof.
  intros Hnone Hmax.
  set (ev := {| type := "newListener"; listener := f; scope := sc; once := Bool true |}).
  set (r := length (store e)).
  set (e1 := set_events (<["newListener" := r]> (_events e))
               (set_store (store e ++ [{| items := []; warned := false |}]) e)).
  set (e2 := set_store (store e ++ [{| items := [ev]; warned := false |}]) e1).
  set (e3 := set_events (_events e)
               (set_store (store e ++ [{| items := []; warned := false |}]) e)).
  assert (_events e2 !! "newListener" = Some r) as Hty2 by (cbn; apply lookup_insert_eq).
  assert (store e2 !! r = Some {| items := [ev]; warned := false |}) as Hr2
    by (cbn; apply lookup_fresh_array).
  assert (emit "newListener" [Str "newListener"; Fun f; sc; Bool true] e2
          = (Return tt, e3, [call_of [Str "newListener"; Fun f; sc; Bool true] ev])) as Hemit.
  { unfold emit, eachListener. rewrite E_bind_eq. cbn [get_state].
    rewrite (array_of_Some e2 _ r _ Hty2 Hr2).
    cbn [items length eachListener_from]. rewrite E_bind_eq. cbn [get_state].
    rewrite Hr2. cbn [items lookup list_lookup]. rewrite E_bind_eq.
    unfold fire. rewrite E_bind_eq.
    change (scope ev) with sc. change (listener ev) with f.
    change (type ev) with "newListener". change (once ev) with (Bool true).
    cbn [tell truthy]. rewrite E_bind_eq.
    rewrite (removeListener_eq "newListener" f sc e2 r _ Hty2 Hr2).
    cbn [items skip_remove].
    rewrite (matches_self_at f sc (Bool true) "newListener" : matches f sc ev = true).
    cbv zeta. cbn [length Nat.eqb].
    match goal with |- context [ret (Bool false) ?s] => set (st := s) end.
    change ((ret (Bool false) : E Val) st) with (Return (Bool false), st, @nil Effect).
    cbv beta iota. rewrite E_bind_eq. cbn [get_state].
    assert (store st !! r = Some {| items := []; warned := false |}) as ->.
    { unfold st, r. cbn. rewrite insert_fresh_array. apply lookup_fresh_array. }
    assert (st = e3) as ->.
    { unfold st, e3, r. cbn. rewrite insert_fresh_array, delete_insert_eq, delete_id by done.
      reflexivity. }
    reflexivity. }
  exists e3. split; [|split; [done|]].
  - unfold once_, addListener.
    rewrite (E_bind_return get_state _ e e e eq_refl). cbv beta. rewrite Hnone.
    rewrite (E_bind_return _ _ e e1 tt) by reflexivity.
    rewrite (E_bind_return get_state _ e1 e1 e1 eq_refl). cbv beta.
    assert (array_of e1 "newListener" = Some (r, {| items := []; warned := false |})) as ->.
    { apply array_of_Some; cbn; [apply lookup_insert_eq|apply lookup_fresh_array]. }
    rewrite (E_bind_return _ _ e1 e2 tt).
    2:{ unfold modify, e2, r. do 2 f_equal. cbn. f_equal. apply insert_fresh_array. }
    rewrite E_bind_eq, Hemit.
    rewrite (E_bind_return get_state _ e3 e3 e3 eq_refl). cbv beta.
    assert ((_maxListeners e3 =? 0) = false) as -> by (by apply Z.eqb_neq).
    cbn [negb].
    assert (array_of e3 "newListener" = None) as ->.
    { unfold array_of. cbn. by rewrite Hnone. }
    reflexivity.
  - unfold registered, array_of. cbn. by rewrite Hnone.
Qed.

End EventEmitterFacts.

Lemma removeListener_removes_unique_witness :
  let ev (f : nat) := {| EventEmitter.type := "data"; EventEmitter.listener := f;
                         EventEmitter.scope := EventEmitter.Undefined;
                         EventEmitter.once := EventEmitter.Undefined |} in
  let e := {| EventEmitter.store :=
                [{| EventEmitter.items := [ev 1%nat; ev 2%nat; ev 3%nat];
                    EventEmitter.warned := false |}];
              EventEmitter._events := {[ "data" := 0%nat ]};
              EventEmitter._maxListeners := 10 |} in
  NoDup (map EventEmitter.listener (registered e "data")) /\
  exists e',
    EventEmitter.removeListener "data" 2%nat EventEmitter.Undefined e
    = (Return tt, e', []) /\
    registered e' "data" = [ev 1%nat; ev 3%nat].
Proof.
  intros ev e.
  assert (NoDup (map EventEmitter.listener (registered e "data"))) as Hnd.
  { apply (bool_decide_unpack _). vm_compute. exact I. }
  split; [exact Hnd|].
  exact (removeListener_removes_unique e "data" 2%nat EventEmitter.Undefined Hnd).
Defined.

Lemma removeListener_skips_next_witness :
  let ev (f : nat) := {| EventEmitter.type := "data"; EventEmitter.listener := f;
                         EventEmitter.scope := EventEmitter.Undefined;
                         EventEmitter.once := EventEmitter.Undefined |} in
  let e := {| EventEmitter.store :=
                [{| EventEmitter.items := [ev 1%nat; ev 2%nat; ev 2%nat; ev 3%nat];
                    EventEmitter.warned := false |}];
              EventEmitter._events := {[ "data" := 0%nat ]};
              EventEmitter._maxListeners := 10 |} in
  let unmatched :=
    Forall (fun x => EventEmitter.matches 2%nat EventEmitter.Undefined x = false) in
  registered e "data" = [ev 1%nat] ++ ev 2%nat :: ev 2%nat :: [ev 3%nat] /\
  unmatched [ev 1%nat] /\
  EventEmitter.matches 2%nat EventEmitter.Undefined (ev 2%nat) = true /\
  unmatched [ev 3%nat] /\
  exists e',
    EventEmitter.removeListener "data" 2%nat EventEmitter.Undefined e
    = (Return tt, e', []) /\
    registered e' "data" = [ev 1%nat] ++ ev 2%nat :: [ev 3%nat].
Proof.
  intros ev e unmatched.
  assert (unmatched [ev 1%nat]) as H1 by (by constructor).
  assert (unmatched [ev 3%nat]) as H3 by (by constructor).
  split; [reflexivity|]. split; [exact H1|]. split; [reflexivity|]. split; [exact H3|].
  exact (removeListener_skips_next e "data" 2%nat EventEmitter.Undefined
           [ev 1%nat] [ev 3%nat] (ev 2%nat) (ev 2%nat) eq_refl H1 eq_refl H3).
Defined.

Lemma emit_calls_in_order_witness :
  let ev (f : nat) (on : EventEmitter.Val) :=
    {| EventEmitter.type := "data"; EventEmitter.listener := f;
       EventEmitter.scope := EventEmitter.Undefined; EventEmitter.once := on |} in
  let l := [ev 1%nat (EventEmitter.Bool true); ev 2%nat EventEmitter.Undefined;
            ev 3%nat (EventEmitter.Bool true)] in
  let e := {| EventEmitter.store :=
                [{| EventEmitter.items := l; EventEmitter.warned := false |}];
              EventEmitter._events := {[ "data" := 0%nat ]};
              EventEmitter._maxListeners := 10 |} in
  let args := [EventEmitter.Num 5] in
  NoDup (map EventEmitter.listener (registered e "data")) /\
  Forall (fun x => EventEmitter.type x = "data") (registered e "data") /\
  exists e',
    EventEmitter.emit "data" args e
    = (Return tt, e',
       [EventEmitter.Call 1 EventEmitter.Instance args;
        EventEmitter.Call 2 EventEmitter.Instance args;
        EventEmitter.Call 3 EventEmitter.Instance args]) /\
    registered e' "data" = [ev 2%nat EventEmitter.Undefined].
Proof.
  intros ev l e args.
  assert (NoDup (map EventEmitter.listener (registered e "data"))) as Hnd.
  { apply (bool_decide_unpack _). vm_compute. exact I. }
  assert (Forall (fun x => EventEmitter.type x = "data") (registered e "data")) as Hty.
  { change (registered e "data") with l. by repeat constructor. }
  split; [exact Hnd|]. split; [exact Hty|].
  exact (emit_calls_in_order e "data" args Hnd Hty).
Defined.

Lemma once_newListener_throws_witness :
  EventEmitter._events EventEmitter.new !! "newListener" = None /\
  EventEmitter._maxListeners EventEmitter.new <> 0 /\
  exists e',
    EventEmitter.once_ "newListener" 1%nat EventEmitter.Undefined EventEmitter.new
    = (Throw "TypeError", e',
       [EventEmitter.Call 1 EventEmitter.Instance
          [EventEmitter.Str "newListener"; EventEmitter.Fun 1; EventEmitter.Undefined;
           EventEmitter.Bool true]]) /\
    EventEmitter._events e' = EventEmitter._events EventEmitter.new /\
    registered e' "newListener" = [].
Proof.
  assert (EventEmitter._maxListeners EventEmitter.new <> 0) as Hmax by (simpl; lia).
  split; [reflexivity|]. split; [exact Hmax|].
  exact (once_newListener_throws EventEmitter.new 1%nat EventEmitter.Undefined
           eq_refl Hmax).
Defined.

(** ** Deferred calls *)

Section ZeroTimeoutFacts.

Import ZeroTimeout.

Lemma zero_timeout_run_app (es1 es2 : list Event) (q : list nat) :
  run (es1 ++ es2) q =
  let '(q1, t1) := run es1 q in
  let '(q2, t2) := run es2 q1 in (q2, t1 ++ t2).
Proof.
  revert q. induction es1 as [|e es1 IH]; intros q; simpl.
  - by destruct (run es2 q).
  - destruct (step e q) as [q1 t1]. rewrite IH.
    destruct (run es1 q1) as [q2 t2]. destruct (run es2 q2) as [q3 t3].
    by rewrite app_assoc.
Qed.

Lemma zero_timeout_fifo (es : list Event) :
  forall (q q' : list nat) (t : list Effect),
  run es q = (q', t) ->
  ran t ++ q' = q ++ queued es.
Proof.
  induction es as [|e es IH]; intros q q' t H.
  - injection H as <- <-. simpl. by rewrite app_nil_r.
  - cbn [run] in H. destruct (step e q) as [q1 t1] eqn:Hstep.
    destruct (run es q1) as [q2 t2] eqn:Hrun. injection H as <- <-.
    specialize (IH _ _ _ Hrun). unfold ran in *. rewrite omap_app, <- app_assoc, IH.
    destruct e as [fn|g d]; cbn [step] in Hstep.
    + injection Hstep as <- <-. cbn. by rewrite <- app_assoc.
    + unfold handleMessage in Hstep. destruct (g && String.eqb d messageName).
      * destruct q as [|fn rest]; injection Hstep as <- <-; done.
      * injection Hstep as <- <-. done.
Qed.

(** X23: The functions handed to [util.setZeroTimeout] run in the order
    they were queued, none twice: what has run, followed by what is still
    queued, is what was queued.  When every message [handleMessage] takes
    for its own was posted by [setZeroTimeout] before, each such message
    runs exactly one function. *)
Theorem zero_timeouts_run_in_order (es : list Event) (q : list nat) (t : list Effect) :
  run es [] = (q, t) ->
  ran t ++ q = queued es /\
  ((forall k, taken (take k es) <= length (queued (take k es)))%nat ->
   length (ran t) = taken es).
Proof.
  intros H. split; [exact (zero_timeout_fifo es [] q t H)|].
  revert q t H. induction es as [|e es IH] using rev_ind; intros q t H Hbal.
  - by injection H as <- <-.
  - rewrite zero_timeout_run_app in H.
    destruct (run es []) as [q1 t1] eqn:Hrun.
    cbn [run] in H. destruct (step e q1) as [q2 t2] eqn:Hstep.
    injection H as <- <-. rewrite app_nil_r.
    assert (length (ran t1) = taken es) as Hlen.
    { apply (IH q1 t1 eq_refl). intros k.
      destruct (decide (k <= length es)%nat) as [Hk|Hk].
      - specialize (Hbal k). by rewrite take_app_le in Hbal.
      - specialize (Hbal (length es)). rewrite take_app_length in Hbal.
        by rewrite take_ge by lia. }
    pose proof (zero_timeout_fifo es [] q1 t1 Hrun) as Hfifo. cbn [app] in Hfifo.
    specialize (Hbal (S (length es))).
    rewrite take_ge in Hbal by (rewrite length_app; simpl; lia).
    unfold ran, taken, queued in *.
    rewrite omap_app, filter_app, !length_app in *. rewrite omap_app, length_app in Hbal.
    rewrite Hlen. f_equal.
    assert (length q1 = length (omap (fun e => match e with Queue fn => Some fn
                                               | Message _ _ => None end) es)
                        - length (filter (fun e => own e = true) es))%nat as Hq.
    { rewrite <- Hfifo, length_app, <- Hlen. unfold ran. lia. }
    destruct e as [fn|g d]; cbn [step] in Hstep.
    + injection Hstep as <- <-. rewrite filter_cons_False by done. done.
    + unfold handleMessage in Hstep.
      destruct (g && String.eqb d messageName) eqn:Hown.
      * rewrite filter_cons_True in * by done. cbn [omap list_omap length] in Hbal.
        cbn [length filter]. destruct q1 as [|fn rest]; [simpl in Hq; lia|].
        by injection Hstep as <- <-.
      * rewrite filter_cons_False by (simpl; by rewrite Hown).
        by injection Hstep as <- <-.
Qed.

End ZeroTimeoutFacts.

Lemma zero_timeouts_run_in_order_witness :
  let own_message := ZeroTimeout.Message true ZeroTimeout.messageName in
  let es := [ZeroTimeout.Queue 1; ZeroTimeout.Queue 2; own_message;
             ZeroTimeout.Message false "resize"; own_message] in
  ZeroTimeout.run es [] = ([], (ZeroTimeout.run es []).2) /\
  (forall k, ZeroTimeout.taken (take k es)
             <= length (ZeroTimeout.queued (take k es)))%nat /\
  ZeroTimeout.ran (ZeroTimeout.run es []).2 ++ [] = [1; 2]%nat /\
  length (ZeroTimeout.ran (ZeroTimeout.run es []).2) = 2%nat.
Proof.
  intros own_message es.
  assert (forall k, ZeroTimeout.taken (take k es)
                    <= length (ZeroTimeout.queued (take k es)))%nat as Hbal.
  { intros k. do 6 (destruct k as [|k]; [vm_compute; lia|]). vm_compute. lia. }
  split; [reflexivity|]. split; [exact Hbal|].
  destruct (zero_timeouts_run_in_order es [] (ZeroTimeout.run es []).2 eq_refl)
    as [H1 H2].
  split; [exact H1|exact (H2 Hbal)].
Defined.
